(** * Virtual wires (hw/core/wire.c): a shallow embedding and its properties

    The development follows [src/hw/core/wire.c] and [src/include/hw/wire.h].

    - C objects live in a heap indexed by address.  A pointer is an
      [option nat]; [None] is [NULL].  Every address holds an object: an
      address that was never written holds the object as [object_new] leaves
      it (all fields zero), with the intrinsic value that
      [qemu_allocate_wire] stores.
    - [int] fields are [Z]; the code only copies and compares them and
      divides the intrinsic value by two.  The 3-bit field [strength] is a
      [Z] that is reduced modulo 8 where the code stores a wider value into
      it; the 1-bit field [value_mode] is a two-valued type.
    - [VECTOR_OF(T)] is [list T]: [VECTOR_LEN] is [length], [VECTOR_AT] is
      the list lookup, [VECTOR_APPEND] adds at the end, [VECTOR_DEL] is
      [delete].  Reference counting belongs to the object system and is
      not part of the model, and allocation always succeeds.
    - Listener callbacks are code of the caller.  They are a parameter of
      every operation: a [handlers] record interprets the handler
      addresses stored in the listener vectors as world transformers.
    - The world carries a [trace]: every run of [wire_update], every call of
      [wire_call_listeners] and every callback invocation is recorded in it,
      most recent first.  The trace is observation only; no operation reads
      it. *)

From Stdlib Require Import ZArith Lia Bool List String Ascii.
From stdpp Require Import base decidable option list gmap.

Local Open Scope Z_scope.

(** ** Constants of wire.h *)

Definition STRENGTH_HI_Z : Z := 0.
Definition STRENGTH_SMALL : Z := 1.
Definition STRENGTH_MEDIUM : Z := 2.
Definition STRENGTH_WEAK : Z := 3.
Definition STRENGTH_LARGE : Z := 4.
Definition STRENGTH_PULL : Z := 5.
Definition STRENGTH_STRONG : Z := 6.
Definition STRENGTH_SUPPLY : Z := 7.
Definition STRENGTH_DEFAULT : Z := STRENGTH_PULL.
Definition STRENGTH_MAX : Z := STRENGTH_SUPPLY.
Definition WIRE_INTRINSIC_DEFAULT : Z := 3300000.

(** [value_mode : 1]: a one-bit field, [VALUE_MODE_D] is 0 and
    [VALUE_MODE_A] is 1. *)
Inductive value_mode : Set := VALUE_MODE_D | VALUE_MODE_A.

#[global] Instance value_mode_eq_dec : EqDecision value_mode.
Proof. solve_decision. Defined.

(** The value an unsigned bit-field of [width] bits holds after [x] is
    stored into it. *)
Definition bitfield (width : Z) (x : Z) : Z := x mod 2 ^ width.

(** ** Data model *)

(** A handler address stored in a listener: either [multi_handler], the
    callback of this file that composite listeners register, or a
    function of the caller, named by a number. *)
Inductive handler : Set :=
| fn_multi_handler
| fn_user (f : nat).

#[global] Instance handler_eq_dec : EqDecision handler.
Proof. solve_decision. Defined.

(** [struct wire_listener] *)
Record wire_listener : Set := {
  lis_handler : handler;
  lis_opaque : nat
}.

#[global] Instance wire_listener_eq_dec : EqDecision wire_listener.
Proof. solve_decision. Defined.

(** [struct WireState].  [w_attachments] holds the [driver] field of each
    [struct wire_driver_attachment]. *)
Record WireState : Set := {
  w_intrinsic : Z;
  w_attachments : list nat;
  w_listeners : list wire_listener;
  w_value : Z;
  w_strength : Z;
  w_value_mode : value_mode;
  w_is_conflict : bool;
  w_changed : bool;
  w_in_callback : bool;
  w_driver_changed : bool
}.

(** [struct WireDriverState] *)
Record WireDriverState : Set := {
  d_wires : list nat;
  d_value : Z;
  d_strength : Z;
  d_value_mode : value_mode;
  d_changed : bool
}.

(** [struct qemu_wire_drive], the drive descriptor. *)
Record struct_qemu_wire_drive : Set := {
  wd_driver : option nat;
  wd_value : Z;
  wd_strength : Z;
  wd_value_mode : value_mode
}.

(** [struct multi_listener].  The flexible array [wires] and its length
    [n] are one list. *)
Record multi_listener : Set := {
  ml_handler : nat;
  ml_opaque : nat;
  ml_value : Z;
  ml_weakest_strength : Z;
  ml_in_conflict : bool;
  ml_wires : list (option nat)
}.

Inductive event : Set :=
| EvResolve (w : nat)
| EvNotify (w : nat)
| EvReentry (w : nat)
| EvCall (l : wire_listener) (w : nat)
| EvMultiCall (h opaque : nat) (value weakest : Z) (ws : list (option nat)).

Record World : Type := {
  wires : gmap nat WireState;
  drivers : gmap nat WireDriverState;
  multis : gmap nat multi_listener;
  user : gmap nat string;
  trace : list event
}.

Inductive result : Type :=
| Ok (s : World)
| Fault
| OutOfFuel.

(** The callbacks of the caller: [call_wire_handler f opaque wire] runs the
    [qemu_wire_handler] at address [f], [call_multi_handler h opaque value
    weakest wires] the [qemu_wire_multi_handler] at address [h]. *)
Record handlers : Type := {
  call_wire_handler : nat -> nat -> nat -> World -> World;
  call_multi_handler : nat -> nat -> Z -> Z -> list (option nat) -> World -> World
}.

(** *** Fresh objects and heap access *)

Definition new_wire : WireState :=
  {| w_intrinsic := WIRE_INTRINSIC_DEFAULT; w_attachments := [];
     w_listeners := []; w_value := 0; w_strength := 0;
     w_value_mode := VALUE_MODE_D; w_is_conflict := false;
     w_changed := false; w_in_callback := false;
     w_driver_changed := false |}.

Definition new_wiredriver : WireDriverState :=
  {| d_wires := []; d_value := 0; d_strength := 0;
     d_value_mode := VALUE_MODE_D; d_changed := false |}.

Definition new_multi : multi_listener :=
  {| ml_handler := 0%nat; ml_opaque := 0%nat; ml_value := 0;
     ml_weakest_strength := 0; ml_in_conflict := false; ml_wires := [] |}.

Definition empty_world : World :=
  {| wires := ∅; drivers := ∅; multis := ∅; user := ∅; trace := [] |}.

Definition wire_at (s : World) (w : nat) : WireState :=
  default new_wire (wires s !! w).

Definition driver_at (s : World) (d : nat) : WireDriverState :=
  default new_wiredriver (drivers s !! d).

Definition multi_at (s : World) (m : nat) : multi_listener :=
  default new_multi (multis s !! m).

Definition put_wire (w : nat) (x : WireState) (s : World) : World :=
  {| wires := <[w := x]> (wires s); drivers := drivers s;
     multis := multis s; user := user s; trace := trace s |}.

Definition put_driver (d : nat) (x : WireDriverState) (s : World) : World :=
  {| wires := wires s; drivers := <[d := x]> (drivers s);
     multis := multis s; user := user s; trace := trace s |}.

Definition put_multi (m : nat) (x : multi_listener) (s : World) : World :=
  {| wires := wires s; drivers := drivers s;
     multis := <[m := x]> (multis s); user := user s; trace := trace s |}.

Definition put_user (b : gmap nat string) (s : World) : World :=
  {| wires := wires s; drivers := drivers s; multis := multis s;
     user := b; trace := trace s |}.

Definition log (e : event) (s : World) : World :=
  {| wires := wires s; drivers := drivers s; multis := multis s;
     user := user s; trace := e :: trace s |}.

(** *** Field assignments *)

Definition set_w_intrinsic (v : Z) (x : WireState) : WireState :=
  {| w_intrinsic := v; w_attachments := w_attachments x;
     w_listeners := w_listeners x; w_value := w_value x;
     w_strength := w_strength x; w_value_mode := w_value_mode x;
     w_is_conflict := w_is_conflict x; w_changed := w_changed x;
     w_in_callback := w_in_callback x;
     w_driver_changed := w_driver_changed x |}.

Definition set_w_attachments (v : list nat) (x : WireState) : WireState :=
  {| w_intrinsic := w_intrinsic x; w_attachments := v;
     w_listeners := w_listeners x; w_value := w_value x;
     w_strength := w_strength x; w_value_mode := w_value_mode x;
     w_is_conflict := w_is_conflict x; w_changed := w_changed x;
     w_in_callback := w_in_callback x;
     w_driver_changed := w_driver_changed x |}.

Definition set_w_listeners (v : list wire_listener) (x : WireState) : WireState :=
  {| w_intrinsic := w_intrinsic x; w_attachments := w_attachments x;
     w_listeners := v; w_value := w_value x;
     w_strength := w_strength x; w_value_mode := w_value_mode x;
     w_is_conflict := w_is_conflict x; w_changed := w_changed x;
     w_in_callback := w_in_callback x;
     w_driver_changed := w_driver_changed x |}.

Definition set_w_changed (v : bool) (x : WireState) : WireState :=
  {| w_intrinsic := w_intrinsic x; w_attachments := w_attachments x;
     w_listeners := w_listeners x; w_value := w_value x;
     w_strength := w_strength x; w_value_mode := w_value_mode x;
     w_is_conflict := w_is_conflict x; w_changed := v;
     w_in_callback := w_in_callback x;
     w_driver_changed := w_driver_changed x |}.

Definition set_w_in_callback (v : bool) (x : WireState) : WireState :=
  {| w_intrinsic := w_intrinsic x; w_attachments := w_attachments x;
     w_listeners := w_listeners x; w_value := w_value x;
     w_strength := w_strength x; w_value_mode := w_value_mode x;
     w_is_conflict := w_is_conflict x; w_changed := w_changed x;
     w_in_callback := v;
     w_driver_changed := w_driver_changed x |}.

Definition set_w_driver_changed (v : bool) (x : WireState) : WireState :=
  {| w_intrinsic := w_intrinsic x; w_attachments := w_attachments x;
     w_listeners := w_listeners x; w_value := w_value x;
     w_strength := w_strength x; w_value_mode := w_value_mode x;
     w_is_conflict := w_is_conflict x; w_changed := w_changed x;
     w_in_callback := w_in_callback x;
     w_driver_changed := v |}.

Definition set_d_wires (v : list nat) (x : WireDriverState) : WireDriverState :=
  {| d_wires := v; d_value := d_value x; d_strength := d_strength x;
     d_value_mode := d_value_mode x; d_changed := d_changed x |}.

Definition set_d_changed (v : bool) (x : WireDriverState) : WireDriverState :=
  {| d_wires := d_wires x; d_value := d_value x; d_strength := d_strength x;
     d_value_mode := d_value_mode x; d_changed := v |}.

(** ** The vector idioms of the file *)

(** [for (i = VECTOR_LEN(v); i--; ) if (p(VECTOR_AT(v, i))) { ...; break; }]:
    the index at which the backwards search stops.  The index is below the
    length throughout, so the lookup always finds an element. *)
Fixpoint find_from_end {A : Type} (p : A -> bool) (v : list A) (i : nat) : option nat :=
  match i with
  | O => None
  | S i' =>
      match v !! i' with
      | Some x => if p x then Some i' else find_from_end p v i'
      | None => find_from_end p v i'
      end
  end.

(** The search followed by [VECTOR_DEL(v, i)] at the index found. *)
Definition delete_from_end {A : Type} (p : A -> bool) (v : list A) : list A :=
  match find_from_end p v (length v) with
  | Some i => delete i v
  | None => v
  end.

(** ** Resolution: [wire_update] *)

(** The initial [best] of [wire_update]. *)
Definition best_init : struct_qemu_wire_drive :=
  {| wd_driver := None; wd_value := 0; wd_strength := STRENGTH_HI_Z;
     wd_value_mode := VALUE_MODE_D |}.

(** One turn of the loop of [wire_update] for the driver of one
    attachment; [continue] returns the accumulator. *)
Definition wire_update_body (driver : WireDriverState)
    (acc : struct_qemu_wire_drive * bool) : struct_qemu_wire_drive * bool :=
  let '(best, is_conflict) := acc in
  if (d_strength driver =? 0) || (wd_strength best >? d_strength driver) then
    acc
  else if d_strength driver =? wd_strength best then
    if is_conflict then acc
    else if negb (bool_decide (wd_value_mode best = d_value_mode driver)) then
      (best, true)
    else if negb (wd_value best =? d_value driver) then
      (best, true)
    else acc
  else
    ({| wd_driver := wd_driver best; wd_value := d_value driver;
        wd_strength := d_strength driver;
        wd_value_mode := d_value_mode driver |}, false).

(** [for (i = VECTOR_LEN(wire->attachments); i--; )] from index [i] down.
    The loop changes neither the vector nor the drivers, and [i'] is below
    the length, so the lookup finds the attachment. *)
Fixpoint wire_update_walk (s : World) (attachments : list nat) (i : nat)
    (acc : struct_qemu_wire_drive * bool) : struct_qemu_wire_drive * bool :=
  match i with
  | O => acc
  | S i' =>
      match attachments !! i' with
      | Some d =>
          wire_update_walk s attachments i' (wire_update_body (driver_at s d) acc)
      | None => wire_update_walk s attachments i' acc
      end
  end.

(** The pair ([best], [is_conflict]) at the end of the loop. *)
Definition wire_resolve (s : World) (attachments : list nat) : struct_qemu_wire_drive * bool :=
  wire_update_walk s attachments (length attachments) (best_init, false).

(** The expression assigned to [wire->changed] when the flag is clear. *)
Definition wire_differs (wire : WireState) (best : struct_qemu_wire_drive)
    (is_conflict : bool) : bool :=
  negb (eqb is_conflict (w_is_conflict wire))
  || ((wd_strength best =? 0) && negb (w_strength wire =? 0))
  || (negb (wd_strength best =? 0) && (w_strength wire =? 0))
  || (negb (wd_strength best =? 0)
      && (negb (bool_decide (wd_value_mode best = w_value_mode wire))
          || negb (wd_value best =? w_value wire))).

(** The assignments at the end of [wire_update]. *)
Definition set_w_resolved (best : struct_qemu_wire_drive) (is_conflict changed : bool)
    (x : WireState) : WireState :=
  {| w_intrinsic := w_intrinsic x; w_attachments := w_attachments x;
     w_listeners := w_listeners x; w_value := wd_value best;
     w_strength := wd_strength best; w_value_mode := wd_value_mode best;
     w_is_conflict := is_conflict; w_changed := changed;
     w_in_callback := w_in_callback x;
     w_driver_changed := w_driver_changed x |}.

Definition wire_update (w : nat) (s : World) : World :=
  let wire := wire_at s w in
  let '(best, is_conflict) := wire_resolve s (w_attachments wire) in
  let changed :=
    if w_changed wire then true else wire_differs wire best is_conflict in
  log (EvResolve w) (put_wire w (set_w_resolved best is_conflict changed wire) s).

(** ** Sensing *)

(** [qemu_wire_sense]: the returned value and what is stored through
    [strength_return].  C's [/] on [int] truncates towards zero. *)
Definition qemu_wire_sense (wire : option nat) (s : World) : bool * Z :=
  match wire with
  | None => (false, STRENGTH_HI_Z)
  | Some w =>
      let x := wire_at s w in
      (match w_value_mode x with
       | VALUE_MODE_A => w_value x >=? w_intrinsic x ÷ 2
       | VALUE_MODE_D => negb (w_value x =? 0)
       end, w_strength x)
  end.

Definition qemu_wire_sense_a (wire : option nat) (s : World) : Z * Z :=
  match wire with
  | None => (0, STRENGTH_HI_Z)
  | Some w =>
      let x := wire_at s w in
      (match w_value_mode x with
       | VALUE_MODE_A => w_value x
       | VALUE_MODE_D => if negb (w_value x =? 0) then w_intrinsic x else 0
       end, w_strength x)
  end.

Definition qemu_wire_sense_strength (wire : option nat) (s : World) : Z :=
  match wire with
  | None => STRENGTH_HI_Z
  | Some w => w_strength (wire_at s w)
  end.

Definition qemu_wire_sense_conflicted (wire : option nat) (s : World) : bool :=
  match wire with
  | None => false
  | Some w => w_is_conflict (wire_at s w)
  end.

(** The loop of [qemu_wire_multi_sense] over the wires that remain;
    [first] is [i == 0], [bit] is a [uint32_t]. *)
Fixpoint multi_sense_loop (s : World) (ws : list (option nat)) (first : bool)
    (bit result weakest : Z) : Z * Z :=
  match ws with
  | [] => (result, weakest)
  | wire :: rest =>
      let '(v, strength) := qemu_wire_sense wire s in
      let result := if v then Z.lor result bit else result in
      let weakest :=
        if first || (strength <? weakest) then strength else weakest in
      multi_sense_loop s rest false (Z.shiftl bit 1 mod 2 ^ 32) result weakest
  end.

(** [qemu_wire_multi_sense]: [n] is the length of [ws], clamped to 32. *)
Definition qemu_wire_multi_sense (ws : list (option nat)) (s : World) : Z * Z :=
  multi_sense_loop s (take 32 ws) true 1 0 STRENGTH_HI_Z.

(** ** Listeners, notification and the driving operations *)

Section Operations.

Variable E : handlers.

(** [qemu_set_wire_intrinsic] *)
Definition qemu_set_wire_intrinsic (wire : option nat) (v : Z) (s : World) : World :=
  match wire with
  | None => s
  | Some w => put_wire w (set_w_intrinsic v (wire_at s w)) s
  end.

(** [qemu_wire_listen] *)
Definition qemu_wire_listen (wire : option nat) (h : handler) (opaque : nat)
    (s : World) : World :=
  match wire with
  | None => s
  | Some w =>
      let x := wire_at s w in
      let lis := {| lis_handler := h; lis_opaque := opaque |} in
      put_wire w (set_w_listeners (w_listeners x ++ [lis]) x) s
  end.

(** [qemu_wire_unlisten] *)
Definition qemu_wire_unlisten (wire : option nat) (h : handler) (opaque : nat)
    (s : World) : World :=
  match wire with
  | None => s
  | Some w =>
      let x := wire_at s w in
      let same (lis : wire_listener) :=
        bool_decide (lis_handler lis = h) && bool_decide (lis_opaque lis = opaque) in
      put_wire w (set_w_listeners (delete_from_end same (w_listeners x)) x) s
  end.

(** The first loop of [multi_handler]:
    [for (i = ml->n; !in_conflict && i--;)].  [Some None] is a [NULL]
    entry of [ml->wires]. *)
Fixpoint multi_in_conflict (s : World) (ws : list (option nat)) (i : nat) : bool :=
  match i with
  | O => false
  | S i' =>
      match ws !! i' with
      | Some (Some w) =>
          if w_is_conflict (wire_at s w) then true else multi_in_conflict s ws i'
      | _ => multi_in_conflict s ws i'
      end
  end.

(** The expression assigned to [changed] in [multi_handler]. *)
Definition multi_differs (ml : multi_listener) (in_conflict : bool)
    (value weakest_strength : Z) : bool :=
  negb (eqb in_conflict (ml_in_conflict ml))
  || ((weakest_strength =? 0) && negb (ml_weakest_strength ml =? 0))
  || (negb (weakest_strength =? 0) && (ml_weakest_strength ml =? 0))
  || (negb (weakest_strength =? 0)
      && (negb (value =? ml_value ml) || (32 <? length (ml_wires ml))%nat)).

(** [multi_handler(opaque, wire)]; [opaque] is the [struct multi_listener]. *)
Definition multi_handler (opaque : nat) (wire : nat) (s : World) : World :=
  let ml := multi_at s opaque in
  let in_conflict := multi_in_conflict s (ml_wires ml) (length (ml_wires ml)) in
  if in_conflict && ml_in_conflict ml then s
  else
    let '(value, weakest_strength) := qemu_wire_multi_sense (ml_wires ml) s in
    if multi_differs ml in_conflict value weakest_strength then
      let ml' :=
        {| ml_handler := ml_handler ml; ml_opaque := ml_opaque ml;
           ml_value := value; ml_weakest_strength := weakest_strength;
           ml_in_conflict := in_conflict; ml_wires := ml_wires ml |} in
      call_multi_handler E (ml_handler ml) (ml_opaque ml) value weakest_strength
        (ml_wires ml)
        (log (EvMultiCall (ml_handler ml) (ml_opaque ml) value weakest_strength
                (ml_wires ml))
           (put_multi opaque ml' s))
    else s.

(** [listener->handler(listener->opaque, wire)] *)
Definition call_listener (lis : wire_listener) (w : nat) (s : World) : World :=
  let s := log (EvCall lis w) s in
  match lis_handler lis with
  | fn_multi_handler => multi_handler (lis_opaque lis) w s
  | fn_user f => call_wire_handler E f (lis_opaque lis) w s
  end.

(** The loop of [wire_call_listeners] from index [i] down.  The vector is
    read again on every turn, since a callback may have changed it.  When
    callbacks have removed so many listeners that the index is out of the
    vector, the C code reads the slot behind its end; the model calls
    nothing there.  No property below reaches that case: the callbacks
    considered leave the listener vectors as they are. *)
Fixpoint call_listeners_from (w : nat) (i : nat) (s : World) : World :=
  match i with
  | O => s
  | S i' =>
      match w_listeners (wire_at s w) !! i' with
      | Some lis => call_listeners_from w i' (call_listener lis w s)
      | None => call_listeners_from w i' s
      end
  end.

(** [wire_call_listeners]; the message on stderr is the event
    [EvReentry]. *)
Definition wire_call_listeners (w : nat) (s : World) : World :=
  let s := log (EvNotify w) s in
  let s := if w_in_callback (wire_at s w) then log (EvReentry w) s else s in
  let s := put_wire w (set_w_in_callback true (wire_at s w)) s in
  let s := call_listeners_from w (length (w_listeners (wire_at s w))) s in
  put_wire w (set_w_in_callback false (wire_at s w)) s.

(** [wire_notify_if_changed] *)
Definition wire_notify_if_changed (w : nat) (s : World) : World :=
  if w_changed (wire_at s w) then
    wire_call_listeners w (put_wire w (set_w_changed false (wire_at s w)) s)
  else s.

(** [qemu_wire_attach].  With a wire and a [NULL] driver the second
    [VECTOR_APPEND] reads [driver->wires] through the null pointer. *)
Definition qemu_wire_attach (wire driver : option nat) (s : World) : result :=
  match wire with
  | None => Ok s
  | Some w =>
      match driver with
      | None => Fault
      | Some d =>
          let x := wire_at s w in
          let s := put_wire w (set_w_attachments (w_attachments x ++ [d]) x) s in
          let y := driver_at s d in
          Ok (put_driver d (set_d_wires (d_wires y ++ [w]) y) s)
      end
  end.

(** [qemu_wire_detach].  With a wire and a [NULL] driver the first loop
    reads [driver->wires] through the null pointer. *)
Definition qemu_wire_detach (wire driver : option nat) (s : World) : result :=
  match wire with
  | None => Ok s
  | Some w =>
      match driver with
      | None => Fault
      | Some d =>
          let y := driver_at s d in
          let s :=
            put_driver d
              (set_d_wires (delete_from_end (fun w' => bool_decide (w' = w)) (d_wires y)) y)
              s in
          let x := wire_at s w in
          let s :=
            put_wire w
              (set_w_attachments
                 (delete_from_end (fun d' => bool_decide (d' = d)) (w_attachments x)) x)
              s in
          Ok (wire_notify_if_changed w (wire_update w s))
      end
  end.

(** *** [qemu_wire_multi_drive] *)

(** The negation of the test that lets the first loop skip a
    descriptor. *)
Definition drive_differs (driver : WireDriverState) (wd : struct_qemu_wire_drive) : bool :=
  negb ((d_strength driver =? wd_strength wd)
        && bool_decide (d_value_mode driver = wd_value_mode wd)
        && (d_value driver =? wd_value wd)).

(** The assignments to the driver in the first loop. *)
Definition set_d_drive (wd : struct_qemu_wire_drive) (x : WireDriverState) : WireDriverState :=
  {| d_wires := d_wires x; d_value := wd_value wd;
     d_strength := wd_strength wd; d_value_mode := wd_value_mode wd;
     d_changed := true |}.

(** The inner loop of the first phase.  Nothing in it changes
    [driver->wires], so it runs over the vector as it is on entry. *)
Definition mark_wires (ws : list nat) (s : World) : World :=
  fold_left
    (fun s w => put_wire w (set_w_driver_changed true (wire_at s w)) s) ws s.

(** First loop: copy the new values into their drivers. *)
Definition drive_apply (s : World) (wd : struct_qemu_wire_drive) : World :=
  match wd_driver wd with
  | None => s
  | Some d =>
      let driver := driver_at s d in
      if drive_differs driver wd then
        mark_wires (d_wires driver) (put_driver d (set_d_drive wd driver) s)
      else s
  end.

Definition multi_drive_apply (drives : list struct_qemu_wire_drive) (s : World) : World :=
  fold_left drive_apply drives s.

(** The body of the inner loop of the second phase. *)
Definition update_if_driver_changed (s : World) (w : nat) : World :=
  if w_driver_changed (wire_at s w) then
    let s := wire_update w s in
    put_wire w (set_w_driver_changed false (wire_at s w)) s
  else s.

(** Second loop: update each wire that has a driver that changed.  Here
    too [driver->wires] stays as it is on entry. *)
Definition drive_update (s : World) (wd : struct_qemu_wire_drive) : World :=
  match wd_driver wd with
  | None => s
  | Some d =>
      let driver := driver_at s d in
      if d_changed driver then fold_left update_if_driver_changed (d_wires driver) s
      else s
  end.

Definition multi_drive_update (drives : list struct_qemu_wire_drive) (s : World) : World :=
  fold_left drive_update drives s.

(** The inner loop of the third phase,
    [for (i = ...; i < VECTOR_LEN(driver->wires); i++)], from index [i].
    Callbacks run inside it and may change [driver->wires], so the vector
    is read again on every turn; the lookup fails exactly when
    [i < VECTOR_LEN(driver->wires)] does.  [fuel] bounds the number of
    turns. *)
Fixpoint notify_wires (fuel : nat) (d : nat) (i : nat) (s : World) : result :=
  match fuel with
  | O => OutOfFuel
  | S fuel' =>
      match d_wires (driver_at s d) !! i with
      | None => Ok s
      | Some w => notify_wires fuel' d (S i) (wire_notify_if_changed w s)
      end
  end.

(** Third loop: call the listeners of the wires that may have changed. *)
Fixpoint multi_drive_notify (fuel : nat) (drives : list struct_qemu_wire_drive)
    (s : World) : result :=
  match drives with
  | [] => Ok s
  | wd :: rest =>
      match wd_driver wd with
      | None => multi_drive_notify fuel rest s
      | Some d =>
          let driver := driver_at s d in
          if d_changed driver then
            match notify_wires fuel d 0 (put_driver d (set_d_changed false driver) s) with
            | Ok s' => multi_drive_notify fuel rest s'
            | r => r
            end
          else multi_drive_notify fuel rest s
      end
  end.

(** [qemu_wire_multi_drive(drives, n)]; the array and its length are the
    list [drives]. *)
Definition qemu_wire_multi_drive (fuel : nat) (drives : list struct_qemu_wire_drive)
    (s : World) : result :=
  multi_drive_notify fuel drives (multi_drive_update drives (multi_drive_apply drives s)).

(** [qemu_wire_drive]: the initialiser stores the [unsigned] argument into
    the 3-bit field [strength]. *)
Definition qemu_wire_drive (fuel : nat) (driver : option nat) (strength : Z)
    (dval : bool) (s : World) : result :=
  let wiredrive :=
    {| wd_driver := driver; wd_value := if dval then 1 else 0;
       wd_strength := bitfield 3 strength; wd_value_mode := VALUE_MODE_D |} in
  qemu_wire_multi_drive fuel [wiredrive] s.

(** [qemu_wire_drive_a] *)
Definition qemu_wire_drive_a (fuel : nat) (driver : option nat) (strength : Z)
    (aval : Z) (s : World) : result :=
  let wiredrive :=
    {| wd_driver := driver; wd_value := aval;
       wd_strength := bitfield 3 strength; wd_value_mode := VALUE_MODE_A |} in
  qemu_wire_multi_drive fuel [wiredrive] s.

(** [qemu_wire_drive_z] *)
Definition qemu_wire_drive_z (fuel : nat) (driver : option nat) (s : World) : result :=
  qemu_wire_drive fuel driver STRENGTH_HI_Z false s.

(** [qemu_wire_multi_listen]; [ml] is the block that [g_malloc] returns.
    The result is the world and the token.  [ml->value] is not written:
    the field keeps what the memory at [ml] held. *)
Definition qemu_wire_multi_listen (ws : list (option nat)) (h opaque : nat)
    (ml : nat) (s : World) : World * option nat :=
  match ws with
  | [] => (s, None)
  | _ =>
      let s :=
        put_multi ml
          {| ml_handler := h; ml_opaque := opaque;
             ml_value := ml_value (multi_at s ml);
             ml_weakest_strength := STRENGTH_HI_Z; ml_in_conflict := false;
             ml_wires := ws |} s in
      (fold_left (fun s wire => qemu_wire_listen wire fn_multi_handler ml s) ws s,
       Some ml)
  end.

(** [qemu_wire_multi_unlisten] *)
Definition qemu_wire_multi_unlisten (token : option nat) (s : World) : World :=
  match token with
  | None => s
  | Some ml =>
      fold_left (fun s wire => qemu_wire_unlisten wire fn_multi_handler ml s)
        (ml_wires (multi_at s ml)) s
  end.

(** *** The public operations as one type *)

Inductive operation : Type :=
| OpAttach (wire driver : option nat)
| OpDetach (wire driver : option nat)
| OpSetIntrinsic (wire : option nat) (v : Z)
| OpDrive (driver : option nat) (strength : Z) (dval : bool)
| OpDriveA (driver : option nat) (strength : Z) (aval : Z)
| OpDriveZ (driver : option nat)
| OpMultiDrive (drives : list struct_qemu_wire_drive)
| OpListen (wire : option nat) (h : handler) (opaque : nat)
| OpUnlisten (wire : option nat) (h : handler) (opaque : nat)
| OpSense (wire : option nat)
| OpSenseA (wire : option nat)
| OpSenseStrength (wire : option nat)
| OpSenseConflicted (wire : option nat)
| OpMultiSense (ws : list (option nat))
| OpMultiListen (ws : list (option nat)) (h opaque ml : nat)
| OpMultiUnlisten (token : option nat).

(** The world an operation leaves; the sensing operations only read. *)
Definition run (fuel : nat) (op : operation) (s : World) : result :=
  match op with
  | OpAttach wire driver => qemu_wire_attach wire driver s
  | OpDetach wire driver => qemu_wire_detach wire driver s
  | OpSetIntrinsic wire v => Ok (qemu_set_wire_intrinsic wire v s)
  | OpDrive driver strength dval => qemu_wire_drive fuel driver strength dval s
  | OpDriveA driver strength aval => qemu_wire_drive_a fuel driver strength aval s
  | OpDriveZ driver => qemu_wire_drive_z fuel driver s
  | OpMultiDrive drives => qemu_wire_multi_drive fuel drives s
  | OpListen wire h opaque => Ok (qemu_wire_listen wire h opaque s)
  | OpUnlisten wire h opaque => Ok (qemu_wire_unlisten wire h opaque s)
  | OpSense _ | OpSenseA _ | OpSenseStrength _ | OpSenseConflicted _
  | OpMultiSense _ => Ok s
  | OpMultiListen ws h opaque ml => Ok (fst (qemu_wire_multi_listen ws h opaque ml s))
  | OpMultiUnlisten token => Ok (qemu_wire_multi_unlisten token s)
  end.

End Operations.

(** ** Definitions used to state the properties *)

(** The resolved tuple (strength, mode, value, conflict). *)
Record resolved : Set := {
  r_strength : Z;
  r_mode : value_mode;
  r_value : Z;
  r_conflict : bool
}.

(** The tuple a wire caches. *)
Definition cached (x : WireState) : resolved :=
  {| r_strength := w_strength x; r_mode := w_value_mode x;
     r_value := w_value x; r_conflict := w_is_conflict x |}.

(** The tuple held by the local variables of [wire_update]. *)
Definition resolved_of (acc : struct_qemu_wire_drive * bool) : resolved :=
  {| r_strength := wd_strength (fst acc); r_mode := wd_value_mode (fst acc);
     r_value := wd_value (fst acc); r_conflict := snd acc |}.

(** *** The reference algorithm, written from the specification

    Section 4.1: [best] starts as (HI_Z, Digital, 0) with no conflict, and
    each attachment is treated by the first rule that applies. *)
Definition spec_resolver_init : resolved :=
  {| r_strength := STRENGTH_HI_Z; r_mode := VALUE_MODE_D; r_value := 0;
     r_conflict := false |}.

Definition spec_resolver_step (r : resolved) (A : WireDriverState) : resolved :=
  if bool_decide (d_strength A = STRENGTH_HI_Z) then r
  else if bool_decide (d_strength A < r_strength r) then r
  else if bool_decide (d_strength A = r_strength r) then
    if r_conflict r then r
    else if bool_decide (d_value_mode A ≠ r_mode r ∨ d_value A ≠ r_value r) then
      {| r_strength := r_strength r; r_mode := r_mode r; r_value := r_value r;
         r_conflict := true |}
    else r
  else
    {| r_strength := d_strength A; r_mode := d_value_mode A;
       r_value := d_value A; r_conflict := false |}.

(** The reference algorithm over the attachments in the order [visit]. *)
Definition spec_resolver (visit : list WireDriverState) : resolved :=
  fold_left spec_resolver_step visit spec_resolver_init.

(** The change-detection predicate of section 4.1. *)
Definition spec_changed (changed : bool) (old new : resolved) : Prop :=
  changed = true
  ∨ r_conflict new ≠ r_conflict old
  ∨ (r_strength old ≠ STRENGTH_HI_Z ∧ r_strength new = STRENGTH_HI_Z)
  ∨ (r_strength old = STRENGTH_HI_Z ∧ r_strength new ≠ STRENGTH_HI_Z)
  ∨ (r_strength new ≠ STRENGTH_HI_Z
     ∧ (r_mode new ≠ r_mode old ∨ r_value new ≠ r_value old)).

#[global] Instance spec_changed_dec changed old new :
  Decision (spec_changed changed old new).
Proof. unfold spec_changed. apply _. Defined.

(** *** Transient flags *)

Definition wire_settled (x : WireState) : bool :=
  negb (w_changed x) && negb (w_in_callback x) && negb (w_driver_changed x).

(** [changed = driver_changed = in_callback = 0] on every wire and
    [changed = 0] on every driver. *)
Definition settled (s : World) : bool :=
  bool_decide (map_Forall (fun _ x => wire_settled x = true) (wires s))
  && bool_decide (map_Forall (fun _ y => d_changed y = false) (drivers s)).

(** *** Callbacks that do not re-enter the library *)

(** A callback that writes nothing but memory of the caller. *)
Definition frames (f : World -> World) : Prop :=
  forall s, f s = put_user (user (f s)) s.

Definition quiet (E : handlers) : Prop :=
  (forall f opaque wire, frames (call_wire_handler E f opaque wire))
  ∧ (forall h opaque value weakest ws,
       frames (call_multi_handler E h opaque value weakest ws)).

(** *** Counting in the trace *)

Definition count (p : event -> bool) (tr : list event) : nat :=
  length (List.filter p tr).

Definition is_resolve (w : nat) (e : event) : bool :=
  match e with EvResolve w' => bool_decide (w' = w) | _ => false end.

Definition is_notify (w : nat) (e : event) : bool :=
  match e with EvNotify w' => bool_decide (w' = w) | _ => false end.

Definition is_call (w : nat) (e : event) : bool :=
  match e with EvCall _ w' => bool_decide (w' = w) | _ => false end.

Definition is_call_of (lis : wire_listener) (w : nat) (e : event) : bool :=
  match e with
  | EvCall lis' w' => bool_decide (lis' = lis) && bool_decide (w' = w)
  | _ => false
  end.

(** How often [wire_update] has run on [w], how often
    [wire_call_listeners] has, and how often a listener of [w] was
    called. *)
Definition resolutions (w : nat) (s : World) : nat := count (is_resolve w) (trace s).
Definition notifications (w : nat) (s : World) : nat := count (is_notify w) (trace s).
Definition calls (w : nat) (s : World) : nat := count (is_call w) (trace s).
Definition calls_of (lis : wire_listener) (w : nat) (s : World) : nat :=
  count (is_call_of lis w) (trace s).

(** *** The wires a batch touches *)

(** The wires of the drivers that carry [changed] among the drivers of a
    batch: the wires the second and third loops walk. *)
Definition batch_wires (drives : list struct_qemu_wire_drive) (s : World) : list nat :=
  flat_map
    (fun wd =>
       match wd_driver wd with
       | Some d =>
           if d_changed (driver_at s d) then d_wires (driver_at s d) else []
       | None => []
       end) drives.

(** [w] is attached to a driver whose state the batch changes: some
    descriptor found its driver in another state when the first loop
    reached it. *)
Definition affected (drives : list struct_qemu_wire_drive) (s : World) (w : nat) : bool :=
  bool_decide (w ∈ batch_wires drives (multi_drive_apply drives s)).

(** The fuel that lets the third loop finish when no callback makes a
    [wires] vector grow. *)
Definition enough_fuel (fuel : nat) (drives : list struct_qemu_wire_drive)
    (s : World) : bool :=
  forallb
    (fun wd =>
       match wd_driver wd with
       | Some d => (length (d_wires (driver_at s d)) <? fuel)%nat
       | None => true
       end) drives.

(** ** The callbacks of tests/test-wire.c *)

Module TestWire.

Local Open Scope string_scope.

(** [strength_code[8] = "zsmw\0\0\0\v"] *)
Definition strength_code (strength : Z) : string :=
  match strength with
  | 0%Z => "z"
  | 1%Z => "s"
  | 2%Z => "m"
  | 3%Z => "w"
  | 7%Z => String (ascii_of_nat 11) EmptyString
  | _ => EmptyString
  end.

(** Appending to the string at [opaque]. *)
Definition buf_append (opaque : nat) (t : string) (s : World) : World :=
  put_user (<[opaque := default EmptyString (user s !! opaque) ++ t]> (user s)) s.

(** [recorder_handler] *)
Definition recorder_handler (opaque wire : nat) (s : World) : World :=
  let '(value, strength) := qemu_wire_sense (Some wire) s in
  let c := if qemu_wire_sense_conflicted (Some wire) s then "C" else EmptyString in
  let v :=
    if negb (strength =? STRENGTH_HI_Z)%Z then (if value then "1" else "0")
    else EmptyString in
  let k := if (strength >? STRENGTH_MAX)%Z then "?" else strength_code strength in
  buf_append opaque (c ++ v ++ k) s.

(** The loop of [recorder_multi_handler], [for (i = n; i--;)]. *)
Fixpoint recorder_multi_wires (s : World) (ws : list (option nat)) (i : nat) : string :=
  match i with
  | O => EmptyString
  | S i' =>
      let wire := default None (ws !! i') in
      let c :=
        if qemu_wire_sense_conflicted wire s then "C"
        else
          let '(value, strength) := qemu_wire_sense wire s in
          if (strength =? STRENGTH_HI_Z)%Z then "z"
          else if value then "1" else "0" in
      c ++ recorder_multi_wires s ws i'
  end.

(** [recorder_multi_handler] *)
Definition recorder_multi_handler (opaque : nat) (value weakest : Z)
    (ws : list (option nat)) (s : World) : World :=
  buf_append opaque
    ("<" ++ recorder_multi_wires s ws (length ws) ++ ">" ++ strength_code weakest) s.

(** Every handler address is a recorder. *)
Definition recorders : handlers :=
  {| call_wire_handler := fun _ => recorder_handler;
     call_multi_handler := fun _ => recorder_multi_handler |}.

Definition and_then (r : result) (k : World -> result) : result :=
  match r with
  | Ok s => k s
  | r => r
  end.

Definition buffer (r : result) (opaque : nat) : option string :=
  match r with
  | Ok s => user s !! opaque
  | _ => None
  end.

Definition drive_of (d : nat) (value strength : Z) (mode : value_mode) :
    struct_qemu_wire_drive :=
  {| wd_driver := Some d; wd_value := value; wd_strength := strength;
     wd_value_mode := mode |}.

(** [test_wire_listen] up to its assertion: wire 0, drivers 1 and 2, the
    buffer at 100. *)
Definition test_wire_listen : result :=
  let r := Ok (qemu_wire_listen (Some 0%nat) (fn_user 0) 100 empty_world) in
  let r := and_then r (qemu_wire_attach (Some 0%nat) (Some 1%nat)) in
  let r := and_then r (qemu_wire_attach (Some 0%nat) (Some 2%nat)) in
  let r := and_then r (qemu_wire_drive recorders 8 (Some 1%nat) STRENGTH_DEFAULT true) in
  let r := and_then r (qemu_wire_drive recorders 8 (Some 1%nat) STRENGTH_DEFAULT false) in
  and_then r (qemu_wire_drive_z recorders 8 (Some 1%nat)).

(** [test_wire_multi] up to its assertions: wires 0 and 1, drivers 1 and
    2, buffers at 100, 101 and 102, the composite listener at 50. *)
Definition test_wire_multi : result :=
  let r := qemu_wire_attach (Some 0%nat) (Some 1%nat) empty_world in
  let r := and_then r (qemu_wire_attach (Some 1%nat) (Some 1%nat)) in
  let r := and_then r (qemu_wire_attach (Some 1%nat) (Some 2%nat)) in
  let r := and_then r (fun s => Ok (qemu_wire_listen (Some 0%nat) (fn_user 0) 100 s)) in
  let r := and_then r (fun s => Ok (qemu_wire_listen (Some 1%nat) (fn_user 0) 101 s)) in
  let r :=
    and_then r
      (fun s => Ok (fst (qemu_wire_multi_listen [Some 0%nat; Some 1%nat] 0 102 50 s))) in
  let r :=
    and_then r
      (qemu_wire_multi_drive recorders 8
         [drive_of 1 1 STRENGTH_WEAK VALUE_MODE_D;
          drive_of 2 0 STRENGTH_STRONG VALUE_MODE_D]) in
  let r := and_then r (qemu_wire_drive_z recorders 8 (Some 2%nat)) in
  and_then r
    (qemu_wire_multi_drive recorders 8
       [drive_of 1 0 STRENGTH_HI_Z VALUE_MODE_D;
        drive_of 2 1 STRENGTH_DEFAULT VALUE_MODE_D]).

(** What [qemu_wire_sense] returns for wire 0 after each step. *)
Fixpoint sensed_after (steps : list (World -> result)) (s : World) : list (bool * Z) :=
  match steps with
  | [] => []
  | step :: rest =>
      match step s with
      | Ok s' => qemu_wire_sense (Some 0%nat) s' :: sensed_after rest s'
      | _ => []
      end
  end.

(** The steps of [test_wire_digital]: wire 0, drivers 1 and 2. *)
Definition test_wire_digital : list (World -> result) :=
  [qemu_wire_attach (Some 0%nat) (Some 1%nat);
   qemu_wire_drive recorders 8 (Some 1%nat) STRENGTH_DEFAULT true;
   qemu_wire_drive recorders 8 (Some 1%nat) STRENGTH_HI_Z true;
   qemu_wire_attach (Some 0%nat) (Some 2%nat);
   qemu_wire_drive recorders 8 (Some 2%nat) STRENGTH_DEFAULT true;
   qemu_wire_drive recorders 8 (Some 1%nat) STRENGTH_WEAK false;
   qemu_wire_drive recorders 8 (Some 1%nat) STRENGTH_STRONG false].

(** The worlds of [test_wire_mixed] at its assertions: wire 0, the
    analogue driver 1 and the digital driver 2. *)
Definition test_wire_mixed_1 : result :=
  let r := qemu_wire_attach (Some 0%nat) (Some 1%nat) empty_world in
  let r := and_then r (qemu_wire_attach (Some 0%nat) (Some 2%nat)) in
  and_then r (qemu_wire_drive_a recorders 8 (Some 1%nat) STRENGTH_DEFAULT 12345).

Definition test_wire_mixed_2 : result :=
  and_then test_wire_mixed_1
    (qemu_wire_drive recorders 8 (Some 2%nat) STRENGTH_DEFAULT false).

Definition test_wire_mixed_3 : result :=
  and_then test_wire_mixed_2 (qemu_wire_drive_z recorders 8 (Some 1%nat)).

Definition test_wire_mixed_4 : result :=
  and_then test_wire_mixed_3
    (qemu_wire_drive recorders 8 (Some 2%nat) STRENGTH_DEFAULT true).

(** The values [f] reads in the world of [r]. *)
Definition observe {A : Type} (f : World -> A) (r : result) : option A :=
  match r with
  | Ok s => Some (f s)
  | _ => None
  end.

End TestWire.

(** ** Worlds used in examples *)

Module Scenario.

Import TestWire.

Definition world_of (r : result) : World :=
  match r with
  | Ok s => s
  | _ => empty_world
  end.

(** Wire 0 with drivers 1 and 2 attached in this order, then driver 1
    driven to a pulled 1 and driver 2 to a pulled 0. *)
Definition tied_12 : World :=
  let r := qemu_wire_attach (Some 0%nat) (Some 1%nat) empty_world in
  let r := and_then r (qemu_wire_attach (Some 0%nat) (Some 2%nat)) in
  let r := and_then r (qemu_wire_drive recorders 8 (Some 1%nat) STRENGTH_PULL true) in
  world_of (and_then r (qemu_wire_drive recorders 8 (Some 2%nat) STRENGTH_PULL false)).

(** The same with the drivers attached in the other order. *)
Definition tied_21 : World :=
  let r := qemu_wire_attach (Some 0%nat) (Some 2%nat) empty_world in
  let r := and_then r (qemu_wire_attach (Some 0%nat) (Some 1%nat)) in
  let r := and_then r (qemu_wire_drive recorders 8 (Some 1%nat) STRENGTH_PULL true) in
  world_of (and_then r (qemu_wire_drive recorders 8 (Some 2%nat) STRENGTH_PULL false)).

(** Wire 0 with a recorder and drivers 1 and 2; driver 1 drives a strong
    1, driver 2 is still HI_Z. *)
Definition shadowed : World :=
  let r := Ok (qemu_wire_listen (Some 0%nat) (fn_user 0) 100 empty_world) in
  let r := and_then r (qemu_wire_attach (Some 0%nat) (Some 1%nat)) in
  let r := and_then r (qemu_wire_attach (Some 0%nat) (Some 2%nat)) in
  world_of (and_then r (qemu_wire_drive recorders 8 (Some 1%nat) STRENGTH_STRONG true)).

(** A batch that drives driver 2 to a weak 0. *)
Definition weak_low : list struct_qemu_wire_drive :=
  [drive_of 2 0 STRENGTH_WEAK VALUE_MODE_D].

(** Callbacks of a caller whose handler 7 detaches driver 1 from wire 0
    and whose other handlers are recorders.  The call of
    [qemu_wire_detach] inside the handler can only reach the listeners of
    wire 0. *)
Definition detaching : handlers :=
  {| call_wire_handler :=
       fun f opaque wire s =>
         match f with
         | 7%nat => world_of (qemu_wire_detach recorders (Some 0%nat) (Some 1%nat) s)
         | _ => recorder_handler opaque wire s
         end;
     call_multi_handler := fun _ => recorder_multi_handler |}.

(** Driver 1 attached to wires 0, 1 and 2; wire 1 has the detaching
    listener, wire 2 a recorder, wire 0 no listener. *)
Definition fan_out : World :=
  let r := qemu_wire_attach (Some 0%nat) (Some 1%nat) empty_world in
  let r := and_then r (qemu_wire_attach (Some 1%nat) (Some 1%nat)) in
  let r := and_then r (qemu_wire_attach (Some 2%nat) (Some 1%nat)) in
  let r := and_then r (fun s => Ok (qemu_wire_listen (Some 1%nat) (fn_user 7) 0 s)) in
  world_of (and_then r (fun s => Ok (qemu_wire_listen (Some 2%nat) (fn_user 0) 100 s))).

(** A composite listener at 50 over wires 0 and 1 whose snapshot records
    a conflict, while wire 1 is in conflict: drivers 1 and 2 pull wire 1
    to different values. *)
Definition in_conflict : World :=
  let r := qemu_wire_attach (Some 1%nat) (Some 1%nat) empty_world in
  let r := and_then r (qemu_wire_attach (Some 1%nat) (Some 2%nat)) in
  let r :=
    and_then r
      (fun s => Ok (fst (qemu_wire_multi_listen [Some 0%nat; Some 1%nat] 0 102 50 s))) in
  let r := and_then r (qemu_wire_drive recorders 8 (Some 1%nat) STRENGTH_PULL true) in
  world_of (and_then r (qemu_wire_drive recorders 8 (Some 2%nat) STRENGTH_PULL false)).

(** Wire 0 with a recorder and driver 1, which drives a pulled 1. *)
Definition pulled_high : World :=
  world_of
    (and_then
       (and_then
          (Ok (qemu_wire_listen (Some 0%nat) (fn_user 0) 100 empty_world))
          (qemu_wire_attach (Some 0%nat) (Some 1%nat)))
       (qemu_wire_drive recorders 8 (Some 1%nat) STRENGTH_PULL true)).

(** A batch that steps driver 1 to a strong 1. *)
Definition strong_high : list struct_qemu_wire_drive :=
  [drive_of 1 1 STRENGTH_STRONG VALUE_MODE_D].

(** The wires, drivers and listeners of [test_wire_multi] before its first
    batch: driver 1 feeds wires 0 and 1, driver 2 feeds wire 1. *)
Definition two_feeders : World :=
  let r := qemu_wire_attach (Some 0%nat) (Some 1%nat) empty_world in
  let r := and_then r (qemu_wire_attach (Some 1%nat) (Some 1%nat)) in
  let r := and_then r (qemu_wire_attach (Some 1%nat) (Some 2%nat)) in
  let r := and_then r (fun s => Ok (qemu_wire_listen (Some 0%nat) (fn_user 0) 100 s)) in
  let r := and_then r (fun s => Ok (qemu_wire_listen (Some 1%nat) (fn_user 0) 101 s)) in
  world_of
    (and_then r
       (fun s => Ok (fst (qemu_wire_multi_listen [Some 0%nat; Some 1%nat] 0 102 50 s)))).

(** The first batch of [test_wire_multi]: both drivers change. *)
Definition both_change : list struct_qemu_wire_drive :=
  [drive_of 1 1 STRENGTH_WEAK VALUE_MODE_D; drive_of 2 0 STRENGTH_STRONG VALUE_MODE_D].

End Scenario.

(** *** What a visit of a wire does *)

(** Predicates on events that ignore what a composite listener and the
    re-entry message record. *)
Definition wire_event (p : event -> bool) : Prop :=
  (forall h opaque value weakest ws, p (EvMultiCall h opaque value weakest ws) = false)
  ∧ (forall w, p (EvReentry w) = false).

(** Predicates on events that select events of wire [w] only. *)
Definition about (w : nat) (p : event -> bool) : Prop :=
  wire_event p
  ∧ (forall w', w' ≠ w ->
       p (EvResolve w') = false ∧ p (EvNotify w') = false
       ∧ forall lis, p (EvCall lis w') = false).

(** The wire after [wire_notify_if_changed] when the callbacks do not
    re-enter, and the events of that call. *)
Definition notified (x : WireState) : WireState :=
  if w_changed x then set_w_in_callback false (set_w_changed false x) else x.

Definition notify_events (w : nat) (x : WireState) : list event :=
  if w_changed x then EvNotify w :: map (fun lis => EvCall lis w) (w_listeners x)
  else [].

(** The wire after the body of the second loop, for the drivers of
    [s0], and the events of that body. *)
Definition updated (s0 : World) (x : WireState) : WireState :=
  if w_driver_changed x then
    let acc := wire_resolve s0 (w_attachments x) in
    set_w_driver_changed false
      (set_w_resolved (fst acc) (snd acc)
         (if w_changed x then true else wire_differs x (fst acc) (snd acc)) x)
  else x.

Definition update_events (w : nat) (x : WireState) : list event :=
  if w_driver_changed x then [EvResolve w] else [].

(** The wire a batch leaves when it touches the wire, and the events of
    the batch on a wire: [s1] is the world after the first loop. *)
Definition driven (s1 : World) (x : WireState) : WireState :=
  let acc := wire_resolve s1 (w_attachments x) in
  set_w_resolved (fst acc) (snd acc) false x.

Definition batch_events (s1 : World) (w : nat) (x : WireState) : list event :=
  let acc := wire_resolve s1 (w_attachments x) in
  EvResolve w
  :: (if wire_differs x (fst acc) (snd acc) then
        EvNotify w :: map (fun lis => EvCall lis w) (w_listeners x)
      else []).

(** The operations that dereference a [NULL] driver. *)
Definition null_driver_fault (op : operation) : bool :=
  match op with
  | OpAttach (Some _) None | OpDetach (Some _) None => true
  | _ => false
  end.

(** Enough fuel for the third loop of the operations that drive. *)
Definition op_fuel (fuel : nat) (op : operation) (s : World) : bool :=
  match op with
  | OpDrive (Some d) _ _ | OpDriveA (Some d) _ _ | OpDriveZ (Some d) =>
      (length (d_wires (driver_at s d)) <? fuel)%nat
  | OpMultiDrive drives => enough_fuel fuel drives s
  | _ => true
  end.

(** How often the listener [lis] is in a listener vector. *)
Definition entries (lis : wire_listener) (ls : list wire_listener) : nat :=
  length (List.filter (fun l => bool_decide (l = lis)) ls).


(** Two states of the loop that agree on everything the order of the
    attachments cannot influence: the strength, the conflict and, when
    there is no conflict, the mode and the value. *)
Definition agree (a b : struct_qemu_wire_drive * bool) : Prop :=
  wd_strength (fst a) = wd_strength (fst b)
  ∧ snd a = snd b
  ∧ wd_driver (fst a) = wd_driver (fst b)
  ∧ (snd a = false -> a = b).

(** ** Vectors: util/vector.c and include/qemu/vector.h

    The array behind [base] is a list with one entry per element slot: the
    slots of one allocation, [None] for a slot that was never written.
    [unsigned] values are natural numbers; the one computation that can
    wrap, in [vector_grow], is written over [Z] modulo [2^32].
    [g_realloc] never fails. *)

Module Vector.

Section Vector.

Context {A : Type}.

(** [struct vector] *)
Record vector : Type := {
  base : list (option A);
  len : nat;
  alloc : nat
}.

(** [vector_init] *)
Definition vector_init : vector := {| base := []; len := 0; alloc := 0 |}.

(** [vector_free] *)
Definition vector_free (v : vector) : vector := vector_init.

(** [(n + 127) & ~127] over [unsigned]. *)
Definition grow_alloc (n : Z) : Z :=
  Z.land ((n + 127) mod 2 ^ 32) (Z.lnot 127 mod 2 ^ 32).

(** [g_realloc] to [k] slots: the old slots that fit, then new ones. *)
Definition realloc (l : list (option A)) (k : nat) : list (option A) :=
  take k l ++ replicate (k - length l) None.

(** [vector_grow(v, n, elemsz)] and what it returns.  When the rounded
    size wraps to 0, [g_realloc] frees the array and returns [NULL]: the
    call returns 0 and leaves the fields as they are, the array gone. *)
Definition vector_grow (v : vector) (n : Z) : vector * bool :=
  if n >? Z.of_nat (alloc v) then
    let newalloc := grow_alloc n in
    if newalloc =? 0 then
      ({| base := []; len := len v; alloc := alloc v |}, false)
    else
      ({| base := realloc (base v) (Z.to_nat newalloc); len := len v;
          alloc := Z.to_nat newalloc |}, true)
  else (v, true).

(** [memmove] of [n] slots from index [src] to index [dst], for a move
    inside the array. *)
Definition memmove (dst src n : nat) (l : list (option A)) : list (option A) :=
  take dst l ++ take n (drop src l) ++ drop (dst + n) l.

(** [vector_del] *)
Definition vector_del (v : vector) (i : nat) : vector :=
  if (i <? len v)%nat then
    {| base := memmove i (i + 1) (len v - i - 1) (base v); len := len v - 1;
       alloc := alloc v |}
  else v.

(** [vector_ins] and the index it returns. *)
Definition vector_ins (v : vector) (i : nat) : vector * nat :=
  (if (i <=? len v)%nat then
     {| base := memmove (i + 1) i (len v - i) (base v); len := len v + 1;
        alloc := alloc v |}
   else v, i).

(** [VECTOR_AT(v, i)] read: the slot, if it is in the array and was
    written. *)
Definition VECTOR_AT (v : vector) (i : nat) : option A :=
  base v !! i ≫= id.

(** [(v).elem[i] = e] for a slot of the allocation.  Behind the
    allocation the store of the C code is out of bounds; the model writes
    nothing there, and no property below reaches that case. *)
Definition store (v : vector) (i : nat) (e : A) : vector :=
  {| base := <[i := Some e]> (base v); len := len v; alloc := alloc v |}.

(** [VECTOR_APPEND(v, e)] and its value. *)
Definition VECTOR_APPEND (v : vector) (e : A) : vector * bool :=
  let '(v, ok) := vector_grow v ((Z.of_nat (len v) + 1) mod 2 ^ 32) in
  if ok then
    ({| base := <[len v := Some e]> (base v); len := len v + 1; alloc := alloc v |},
     true)
  else (v, false).

(** [VECTOR_INSERT(v, i, e)] and its value. *)
Definition VECTOR_INSERT (v : vector) (i : nat) (e : A) : vector * bool :=
  let '(v, ok) := vector_grow v ((Z.of_nat (len v) + 1) mod 2 ^ 32) in
  if ok then
    let '(v, j) := vector_ins v i in (store v j e, true)
  else (v, false).

(** [VECTOR_POP(v)] for a vector that is not empty: the vector and the
    element read. *)
Definition VECTOR_POP (v : vector) : option (vector * option A) :=
  match len v with
  | O => None
  | S n =>
      let v := {| base := base v; len := n; alloc := alloc v |} in
      Some (v, VECTOR_AT v n)
  end.

(** The elements of the vector: the slots below [len]. *)
Definition elems (v : vector) : list A := omap id (take (len v) (base v)).

(** [alloc] counts the slots, [len] of them are in use and written. *)
Definition wf (v : vector) : Prop :=
  alloc v = length (base v)
  ∧ (len v <= alloc v)%nat
  ∧ take (len v) (base v) = Some <$> elems v.

End Vector.

Arguments vector : clear implicits.

(** [test_vector] of tests/test-vector.c up to the last [VECTOR_POP]: the
    lengths, the elements read by [VECTOR_AT] and the values popped. *)
Definition test_vector : option (list (list Z) * list (option Z)) :=
  let v0 : vector Z := vector_init in
  let v1 := fst (VECTOR_APPEND v0 8) in
  let v2 := fst (VECTOR_APPEND v1 9) in
  let v3 := fst (VECTOR_INSERT v2 0 7) in
  let v4 := vector_del v3 1 in
  '(v5, i5) ← VECTOR_POP v4;
  '(v6, i6) ← VECTOR_POP v5;
  let v7 := fst (VECTOR_INSERT v6 0 6) in
  Some ([elems v0; elems v1; elems v2; elems v3; elems v4; elems v5; elems v6;
         elems v7], [i5; i6]).

End Vector.

(** ** Attachments seen from both sides *)

(** How often the address [n] is in a vector of addresses. *)
Definition occurrences (n : nat) (l : list nat) : nat :=
  length (List.filter (fun m => bool_decide (m = n)) l).

(** A driver is in the attachments of a wire as often as the wire is in
    the wires of the driver. *)
Definition consistent (s : World) : Prop :=
  forall w d,
    occurrences d (w_attachments (wire_at s w))
    = occurrences w (d_wires (driver_at s d)).

(** The second world has the attachments, the listeners and the intrinsic
    values of the first. *)
Definition same_topology (s s' : World) : Prop :=
  (forall w,
     w_attachments (wire_at s' w) = w_attachments (wire_at s w)
     ∧ w_listeners (wire_at s' w) = w_listeners (wire_at s w)
     ∧ w_intrinsic (wire_at s' w) = w_intrinsic (wire_at s w))
  ∧ (forall d, d_wires (driver_at s' d) = d_wires (driver_at s d)).

(** The world [qemu_wire_detach] has made when it calls [wire_update]:
    the two vectors searched backwards and cut. *)
Definition detached (w d : nat) (s : World) : World :=
  put_wire w
    (set_w_attachments
       (delete_from_end (fun d' => bool_decide (d' = d)) (w_attachments (wire_at s w)))
       (wire_at s w))
    (put_driver d
       (set_d_wires
          (delete_from_end (fun w' => bool_decide (w' = w)) (d_wires (driver_at s d)))
          (driver_at s d))
       s).

(** The world of [Scenario.pulled_high] with a composite listener at 50
    over 33 wires, all of them wire 0. *)
Definition wide_listener : World :=
  fst (qemu_wire_multi_listen (replicate 33 (Some 0%nat)) 0 102 50 Scenario.pulled_high).

(** ** IRQ helpers *)

Section Irq.

Variable E : handlers.

(** [qemu_wire_driver_irq_handler(opaque, n, level)]; [opaque] is the
    driver. *)
Definition qemu_wire_driver_irq_handler (fuel : nat) (opaque : option nat)
    (n level : Z) (s : World) : result :=
  qemu_wire_drive E fuel opaque STRENGTH_DEFAULT (negb (level =? 0)) s.

End Irq.

(** What [qemu_wire_irq_handler] does: nothing, a message on stderr, or a
    call of [qemu_set_irq]. *)
Inductive irq_effect : Set :=
| IrqIgnored
| IrqHiZMessage
| IrqSet (irq : nat) (level : bool).

(** [qemu_wire_irq_handler(opaque, wire)]; [irq] is [*irqp], what the
    pointer [opaque] points to. *)
Definition qemu_wire_irq_handler (irq : option nat) (wire : option nat) (s : World) :
    irq_effect :=
  match irq with
  | None => IrqIgnored
  | Some q =>
      if qemu_wire_sense_strength wire s =? STRENGTH_HI_Z then IrqHiZMessage
      else IrqSet q (fst (qemu_wire_sense wire s))
  end.

(** ** Allocating and releasing wires and drivers

    Reference counts belong to the object system and are not part of the
    model: [object_unref] is left out, and with it the finalizers that run
    when the last reference goes. *)

(** [qemu_allocate_wiredriver(wire)]; [d] is the address
    [object_new_with_type] returns. *)
Definition qemu_allocate_wiredriver (wire : option nat) (d : nat) (s : World) : result :=
  qemu_wire_attach wire (Some d) (put_driver d new_wiredriver s).

Section Release.

Variable E : handlers.

(** The loop of [wiredriver_clear],
    [for (i = VECTOR_LEN(driver->wires); i--; )], from index [i] down.
    [qemu_wire_detach] changes the vector and runs callbacks, so the vector
    is read again on every turn.  A read behind the end of the vector finds
    what an earlier [VECTOR_DEL] left there; the model keeps no such slot
    and stops. *)
Fixpoint wiredriver_clear_from (d : nat) (i : nat) (s : World) : result :=
  match i with
  | O => Ok s
  | S i' =>
      match d_wires (driver_at s d) !! i' with
      | Some w =>
          match qemu_wire_detach E (Some w) (Some d) s with
          | Ok s' => wiredriver_clear_from d i' s'
          | r => r
          end
      | None => Fault
      end
  end.

(** [wiredriver_clear] *)
Definition wiredriver_clear (d : nat) (s : World) : result :=
  wiredriver_clear_from d (length (d_wires (driver_at s d))) s.

(** [qemu_free_wiredriver] *)
Definition qemu_free_wiredriver (driver : option nat) (s : World) : result :=
  match driver with
  | None => Ok s
  | Some d => wiredriver_clear d s
  end.

(** The first loop of [wire_clear],
    [while (VECTOR_LEN(wire->attachments))]; [fuel] bounds the number of
    turns. *)
Fixpoint wire_clear_attachments (fuel : nat) (w : nat) (s : World) : result :=
  match fuel with
  | O => OutOfFuel
  | S fuel' =>
      match last (w_attachments (wire_at s w)) with
      | None => Ok s
      | Some d =>
          match qemu_wire_detach E (Some w) (Some d) s with
          | Ok s' => wire_clear_attachments fuel' w s'
          | r => r
          end
      end
  end.

(** The second loop of [wire_clear], [while (VECTOR_LEN(wire->listeners))]. *)
Fixpoint wire_clear_listeners (fuel : nat) (w : nat) (s : World) : result :=
  match fuel with
  | O => OutOfFuel
  | S fuel' =>
      match last (w_listeners (wire_at s w)) with
      | None => Ok s
      | Some lis =>
          wire_clear_listeners fuel' w
            (qemu_wire_unlisten (Some w) (lis_handler lis) (lis_opaque lis) s)
      end
  end.

(** [wire_clear] *)
Definition wire_clear (fuel : nat) (w : nat) (s : World) : result :=
  match wire_clear_attachments fuel w s with
  | Ok s' => wire_clear_listeners fuel w s'
  | r => r
  end.

(** [qemu_free_wire] *)
Definition qemu_free_wire (fuel : nat) (wire : option nat) (s : World) : result :=
  match wire with
  | None => Ok s
  | Some w => wire_clear fuel w s
  end.

End Release.

(** The addresses of a vector other than [n], in their order. *)
Definition without (n : nat) (l : list nat) : list nat :=
  List.filter (fun m => negb (bool_decide (m = n))) l.

(** The callbacks of wire listeners in the trace, most recent first. *)
Definition is_callback (e : event) : bool :=
  match e with EvCall _ _ => true | _ => false end.

Definition callbacks (s : World) : list event := List.filter is_callback (trace s).

(** The vector [atts] holds a driver whose strength, mode and value are
    those of [best], and no driver after it in the vector has that
    strength: the loop of [wire_update], which walks the vector last to
    first, met it before any other driver of that strength. *)
Definition decided_by_first_visited (s : World) (atts : list nat)
    (best : struct_qemu_wire_drive) : Prop :=
  exists l1 d l2,
    atts = l1 ++ d :: l2
    ∧ d_strength (driver_at s d) = wd_strength best
    ∧ (forall d', d' ∈ l2 -> d_strength (driver_at s d') ≠ wd_strength best)
    ∧ d_value_mode (driver_at s d) = wd_value_mode best
    ∧ d_value (driver_at s d) = wd_value best.

(** The descriptor names a driver. *)
Definition has_driver (wd : struct_qemu_wire_drive) : bool :=
  match wd_driver wd with Some _ => true | None => false end.

(** * Properties *)

(** ** The scenarios of tests/test-wire.c *)

(** The model runs the scenarios of tests/test-wire.c to the strings the
    tests assert. *)
Example test_wire_listen_buffer :
  TestWire.buffer TestWire.test_wire_listen 100 = Some "10z"%string.
Proof. vm_compute. reflexivity. Qed.

Example test_wire_multi_buffers :
  TestWire.buffer TestWire.test_wire_multi 100 = Some "1wz"%string
  ∧ TestWire.buffer TestWire.test_wire_multi 101 = Some "01w"%string
  ∧ TestWire.buffer TestWire.test_wire_multi 102 = Some "<01>w<11>w<1z>z"%string.
Proof. vm_compute. repeat split; reflexivity. Qed.

Example test_wire_digital_senses :
  TestWire.sensed_after TestWire.test_wire_digital empty_world
  = [(false, STRENGTH_HI_Z); (true, STRENGTH_DEFAULT); (false, STRENGTH_HI_Z);
     (false, STRENGTH_HI_Z); (true, STRENGTH_DEFAULT); (true, STRENGTH_DEFAULT);
     (false, STRENGTH_STRONG)].
Proof. vm_compute. reflexivity. Qed.

Example test_wire_mixed_senses :
  TestWire.observe
    (fun s => (qemu_wire_sense_conflicted (Some 0%nat) s,
               qemu_wire_sense_a (Some 0%nat) s, qemu_wire_sense (Some 0%nat) s))
    TestWire.test_wire_mixed_1
  = Some (false, (12345, STRENGTH_DEFAULT), (false, STRENGTH_DEFAULT))
  ∧ TestWire.observe (qemu_wire_sense_conflicted (Some 0%nat)) TestWire.test_wire_mixed_2
    = Some true
  ∧ TestWire.observe
      (fun s => (qemu_wire_sense_conflicted (Some 0%nat) s,
                 fst (qemu_wire_sense_a (Some 0%nat) s),
                 fst (qemu_wire_sense (Some 0%nat) s)))
      TestWire.test_wire_mixed_3
    = Some (false, 0, false)
  ∧ TestWire.observe
      (fun s => (qemu_wire_sense_conflicted (Some 0%nat) s,
                 fst (qemu_wire_sense_a (Some 0%nat) s),
                 fst (qemu_wire_sense (Some 0%nat) s)))
      TestWire.test_wire_mixed_4
    = Some (false, WIRE_INTRINSIC_DEFAULT, true).
Proof. vm_compute. repeat split; reflexivity. Qed.

(** Scenario S4: wire 1 is fed by two drivers that change in one batch; it
    is resolved once and notified once, and the composite listener is
    called once. *)
Example batch_of_two_feeders :
  exists s',
    qemu_wire_multi_drive TestWire.recorders 8 Scenario.both_change Scenario.two_feeders
    = Ok s'
    ∧ trace Scenario.two_feeders = []
    ∧ (resolutions 0 s', notifications 0 s') = (1, 1)%nat
    ∧ (resolutions 1 s', notifications 1 s') = (1, 1)%nat
    ∧ qemu_wire_multi_sense [Some 0%nat; Some 1%nat] s' = (1, STRENGTH_WEAK)
    ∧ TestWire.buffer (Ok s') 102 = Some "<01>w"%string.
Proof. eexists. vm_compute. repeat split; reflexivity. Qed.

(** ** The heap *)

Lemma wire_at_put_wire (w : nat) (x : WireState) (s : World) (w' : nat) :
  wire_at (put_wire w x s) w' = if decide (w' = w) then x else wire_at s w'.
Proof.
  unfold wire_at, put_wire; simpl.
  destruct (decide (w' = w)) as [->|Hne].
  - by rewrite lookup_insert_eq.
  - by rewrite lookup_insert_ne.
Qed.

Lemma wire_at_put_wire_eq (w : nat) (x : WireState) (s : World) :
  wire_at (put_wire w x s) w = x.
Proof. rewrite wire_at_put_wire. by rewrite decide_True. Qed.

Lemma wire_at_put_wire_ne (w : nat) (x : WireState) (s : World) (w' : nat) :
  w' ≠ w -> wire_at (put_wire w x s) w' = wire_at s w'.
Proof. intros H. rewrite wire_at_put_wire. by rewrite decide_False. Qed.

Lemma driver_at_put_driver (d : nat) (y : WireDriverState) (s : World) (d' : nat) :
  driver_at (put_driver d y s) d' = if decide (d' = d) then y else driver_at s d'.
Proof.
  unfold driver_at, put_driver; simpl.
  destruct (decide (d' = d)) as [->|Hne].
  - by rewrite lookup_insert_eq.
  - by rewrite lookup_insert_ne.
Qed.

(** Two worlds with the same drivers resolve alike. *)
Lemma wire_update_walk_drivers (s s' : World) (atts : list nat) (i : nat)
    (acc : struct_qemu_wire_drive * bool) :
  drivers s' = drivers s ->
  wire_update_walk s' atts i acc = wire_update_walk s atts i acc.
Proof.
  intros Hd. revert acc. induction i as [|i IH]; intros acc; simpl; [done|].
  destruct (atts !! i) as [d|]; [|apply IH].
  unfold driver_at. rewrite Hd. apply IH.
Qed.

Lemma wire_resolve_drivers (s s' : World) (atts : list nat) :
  drivers s' = drivers s -> wire_resolve s' atts = wire_resolve s atts.
Proof. intros H. by apply wire_update_walk_drivers. Qed.

(** ** The resolver *)

(** The backwards loop treats the attachments last to first. *)
Lemma wire_update_walk_foldr (s : World) (atts : list nat) (i : nat)
    (acc : struct_qemu_wire_drive * bool) :
  (i <= length atts)%nat ->
  wire_update_walk s atts i acc
  = foldr (fun d a => wire_update_body (driver_at s d) a) acc (take i atts).
Proof.
  revert acc. induction i as [|i IH]; intros acc Hi; simpl.
  - done.
  - destruct (lookup_lt_is_Some_2 atts i) as [d Hd]; [lia|].
    rewrite Hd. rewrite (take_S_r _ _ _ Hd), foldr_app. simpl.
    apply IH. lia.
Qed.

Lemma wire_resolve_foldr (s : World) (atts : list nat) :
  wire_resolve s atts
  = foldr (fun d a => wire_update_body (driver_at s d) a) (best_init, false) atts.
Proof.
  unfold wire_resolve. rewrite wire_update_walk_foldr by lia.
  by rewrite firstn_all.
Qed.

(** One turn of the loop is one step of the reference algorithm. *)
Lemma wire_update_body_step (A : WireDriverState)
    (acc : struct_qemu_wire_drive * bool) :
  resolved_of (wire_update_body A acc) = spec_resolver_step (resolved_of acc) A.
Proof.
  destruct acc as [best c].
  unfold wire_update_body, spec_resolver_step, resolved_of, STRENGTH_HI_Z; simpl.
  destruct (Z.eqb_spec (d_strength A) 0) as [H0|H0]; simpl.
  { by rewrite bool_decide_eq_true_2. }
  rewrite (bool_decide_eq_false_2 _ H0).
  destruct (Z.gtb_spec (wd_strength best) (d_strength A)) as [Hlt|Hge].
  { by rewrite (bool_decide_eq_true_2 (d_strength A < wd_strength best)). }
  rewrite (bool_decide_eq_false_2 (d_strength A < wd_strength best)) by lia.
  destruct (Z.eqb_spec (d_strength A) (wd_strength best)) as [He|He].
  - rewrite (bool_decide_eq_true_2 _ He).
    destruct c; [done|].
    destruct (decide (wd_value_mode best = d_value_mode A)) as [Hm|Hm].
    + rewrite (bool_decide_eq_true_2 _ Hm); simpl.
      destruct (Z.eqb_spec (wd_value best) (d_value A)) as [Hv|Hv]; simpl.
      * rewrite bool_decide_eq_false_2; [done|]. intros [?|?]; congruence.
      * rewrite bool_decide_eq_true_2; [done|]. right; congruence.
    + rewrite (bool_decide_eq_false_2 _ Hm); simpl.
      rewrite bool_decide_eq_true_2; [done|]. left; congruence.
  - by rewrite (bool_decide_eq_false_2 _ He).
Qed.

Lemma wire_resolve_spec (s : World) (atts : list nat) :
  resolved_of (wire_resolve s atts) = spec_resolver (rev (map (driver_at s) atts)).
Proof.
  rewrite wire_resolve_foldr. unfold spec_resolver.
  rewrite <- fold_left_rev_right, rev_involutive.
  change spec_resolver_init with (resolved_of (best_init, false)).
  generalize (best_init, false).
  induction atts as [|d atts IH]; intros acc; simpl; [done|].
  by rewrite wire_update_body_step, IH.
Qed.

(** What [wire_update] leaves in the wire. *)
Lemma wire_at_wire_update (w : nat) (s : World) :
  wire_at (wire_update w s) w
  = let wire := wire_at s w in
    let acc := wire_resolve s (w_attachments wire) in
    set_w_resolved (fst acc) (snd acc)
      (if w_changed wire then true else wire_differs wire (fst acc) (snd acc)) wire.
Proof.
  unfold wire_update.
  destruct (wire_resolve s (w_attachments (wire_at s w))) as [best c] eqn:Hr.
  simpl. unfold log, wire_at at 1; simpl.
  by rewrite lookup_insert_eq.
Qed.

Lemma wire_at_wire_update_ne (w w' : nat) (s : World) :
  w' ≠ w -> wire_at (wire_update w s) w' = wire_at s w'.
Proof.
  intros Hne. unfold wire_update.
  destruct (wire_resolve s (w_attachments (wire_at s w))) as [best c].
  unfold log, wire_at at 1; simpl. by rewrite lookup_insert_ne.
Qed.

Lemma drivers_wire_update (w : nat) (s : World) :
  drivers (wire_update w s) = drivers s.
Proof.
  unfold wire_update.
  by destruct (wire_resolve s (w_attachments (wire_at s w))).
Qed.

Lemma trace_wire_update (w : nat) (s : World) :
  trace (wire_update w s) = EvResolve w :: trace s.
Proof.
  unfold wire_update.
  by destruct (wire_resolve s (w_attachments (wire_at s w))).
Qed.

Lemma cached_wire_update (w : nat) (s : World) :
  cached (wire_at (wire_update w s) w)
  = resolved_of (wire_resolve s (w_attachments (wire_at s w))).
Proof. by rewrite wire_at_wire_update. Qed.

(** C1.  [wire_update] leaves in the wire the tuple (strength, mode,
    value, conflict) that the reference algorithm of section 4.1 computes
    over the drivers attached to the wire, taken last to first: HI_Z
    attachments are skipped, a strictly stronger one replaces [best] and
    clears the conflict, an equally strong one that differs in mode or value
    sets the conflict, an equally strong identical one changes nothing.
    Without attachments the loop ends with (HI_Z, Digital, 0) and no
    conflict. *)
Theorem wire_update_computes_spec_resolver (s : World) (w : nat) :
  cached (wire_at (wire_update w s) w)
  = spec_resolver (rev (map (driver_at s) (w_attachments (wire_at s w))))
  ∧ resolved_of (wire_resolve s [])
    = {| r_strength := STRENGTH_HI_Z; r_mode := VALUE_MODE_D; r_value := 0;
         r_conflict := false |}.
Proof.
  split; [|done].
  by rewrite cached_wire_update, wire_resolve_spec.
Qed.

(** The boolean the code assigns is the predicate of the specification. *)
Lemma wire_differs_spec (wire : WireState) (acc : struct_qemu_wire_drive * bool) :
  wire_differs wire (fst acc) (snd acc)
  = bool_decide (spec_changed false (cached wire) (resolved_of acc)).
Proof.
  destruct acc as [best c]. unfold wire_differs.
  cbn [fst snd].
  destruct (Z.eqb_spec (wd_strength best) 0) as [Hb|Hb];
    destruct (Z.eqb_spec (w_strength wire) 0) as [Hw|Hw];
    destruct (Z.eqb_spec (wd_value best) (w_value wire)) as [Hv|Hv];
    destruct (bool_decide_reflect (wd_value_mode best = w_value_mode wire)) as [Hm|Hm];
    destruct c eqn:Hc, (w_is_conflict wire) eqn:Hk; simpl; symmetry;
    first [ apply bool_decide_eq_true_2 | apply bool_decide_eq_false_2 ];
    unfold spec_changed, STRENGTH_HI_Z; simpl; rewrite ?Hk; intuition congruence.
Qed.

(** C2.  [wire_update] leaves in the wire the tuple that the resolver
    finds over its attachments, and sets the flag [changed] exactly when
    the predicate of section 4.1 holds of the flag before, the tuple
    cached before and that newly resolved tuple; a flag that was set stays
    set. *)
Theorem wire_update_sets_changed (s : World) (w : nat) :
  let old := wire_at s w in
  let new := wire_at (wire_update w s) w in
  let resolved :=
    spec_resolver (rev (map (driver_at s) (w_attachments old))) in
  cached new = resolved
  ∧ w_changed new = bool_decide (spec_changed (w_changed old) (cached old) resolved)
  ∧ implb (w_changed old) (w_changed new) = true.
Proof.
  cbv zeta. rewrite <- wire_resolve_spec, wire_at_wire_update. cbv zeta.
  set (acc := wire_resolve s (w_attachments (wire_at s w))).
  change (cached (set_w_resolved (fst acc) (snd acc) _ (wire_at s w)))
    with (resolved_of acc).
  split; [done|]. cbn [w_changed set_w_resolved].
  destruct (w_changed (wire_at s w)) eqn:Hc.
  - split; [|done]. symmetry. apply bool_decide_eq_true_2. by left.
  - split; [|by destruct (wire_differs _ _ _)]. rewrite wire_differs_spec.
    apply bool_decide_ext. unfold spec_changed. intuition congruence.
Qed.

(** ** Order of the attachments *)

Lemma agree_refl (a : struct_qemu_wire_drive * bool) : agree a a.
Proof. by unfold agree. Qed.

Lemma agree_trans (a b c : struct_qemu_wire_drive * bool) :
  agree a b -> agree b c -> agree a c.
Proof.
  unfold agree. intros (H1 & H2 & H3 & H4) (H5 & H6 & H7 & H8).
  repeat split; try congruence.
  intros Ha. rewrite (H4 Ha). apply H8. congruence.
Qed.

Ltac split_body :=
  repeat (simpl; match goal with
    | |- context [Z.eqb ?x ?y] => destruct (Z.eqb_spec x y); try (exfalso; lia)
    | |- context [Z.gtb ?x ?y] => destruct (Z.gtb_spec x y); try (exfalso; lia)
    | |- context [bool_decide ?P] =>
        destruct (bool_decide_reflect P); try (exfalso; congruence)
    | |- context [if ?c then _ else _] => destruct c
    end).

Lemma wire_update_body_agree (A : WireDriverState)
    (a b : struct_qemu_wire_drive * bool) :
  agree a b -> agree (wire_update_body A a) (wire_update_body A b).
Proof.
  destruct a as [ba ca], b as [bb cb].
  unfold agree; simpl. intros (Hs & Hc & Hd & He). subst cb.
  destruct ca.
  - unfold wire_update_body. rewrite <- Hs, <- Hd.
    split_body; repeat split; simpl; try done; try lia.
  - specialize (He eq_refl). injection He as ->. by repeat split.
Qed.

Lemma wire_update_body_swap (A B : WireDriverState)
    (a : struct_qemu_wire_drive * bool) :
  agree (wire_update_body A (wire_update_body B a))
        (wire_update_body B (wire_update_body A a)).
Proof.
  destruct a as [[dr v st m] c], A as [wa va sa ma ca], B as [wb vb sb mb cb].
  unfold wire_update_body, agree.
  split_body; repeat split; simpl; try done; try lia; try congruence.
Qed.

Lemma foldr_wire_update_body_perm (s : World) (a1 a2 : list nat)
    (acc : struct_qemu_wire_drive * bool) :
  a1 ≡ₚ a2 ->
  agree (foldr (fun d a => wire_update_body (driver_at s d) a) acc a1)
        (foldr (fun d a => wire_update_body (driver_at s d) a) acc a2).
Proof.
  induction 1 as [|d l1 l2 _ IH|d1 d2 l|l1 l2 l3 _ IH1 _ IH2]; simpl.
  - apply agree_refl.
  - by apply wire_update_body_agree.
  - apply wire_update_body_swap.
  - by eapply agree_trans.
Qed.

(** The loop keeps the mode and the value of the strongest driver it met
    first: no driver visited before it has the strength the loop ends
    with.  The strength is never below HI_Z, and a conflict needs a
    driver that drives. *)
Lemma wire_resolve_first_visited (s : World) (atts : list nat) :
  let best := fst (wire_resolve s atts) in
  0 <= wd_strength best
  ∧ (forall d, d ∈ atts -> d_strength (driver_at s d) <= wd_strength best)
  ∧ (snd (wire_resolve s atts) = true -> wd_strength best ≠ 0)
  ∧ (wd_strength best ≠ 0 -> decided_by_first_visited s atts best).
Proof.
  cbv zeta. rewrite wire_resolve_foldr.
  induction atts as [|a atts IH].
  { simpl. unfold STRENGTH_HI_Z. split; [lia|].
    split; [by intros d ?%not_elem_of_nil|]. split; done. }
  simpl. destruct IH as (H0 & Hle & Hc & Hfirst).
  set (A := driver_at s a) in *.
  destruct (foldr _ _ atts) as [best c] eqn:Hacc. cbn [fst snd] in *.
  assert (Hkeep :
      (d_strength A <= wd_strength best) ->
      0 <= wd_strength best
      ∧ (forall d, d ∈ a :: atts -> d_strength (driver_at s d) <= wd_strength best)
      ∧ (wd_strength best ≠ 0 -> decided_by_first_visited s (a :: atts) best)).
  { intros HA. split; [done|]. split.
    { intros d [->|Hd]%elem_of_cons; [done|by apply Hle]. }
    intros Hne. destruct (Hfirst Hne) as (l1 & d & l2 & -> & Hrest).
    by exists (a :: l1), d, l2. }
  unfold wire_update_body.
  destruct (Z.eqb_spec (d_strength A) 0) as [HA0|HA0]; cbn [orb].
  { destruct Hkeep as (K0 & K1 & K2); [lia|]. cbn [fst snd]. done. }
  destruct (Z.gtb_spec (wd_strength best) (d_strength A)) as [Hgt|Hngt].
  { destruct Hkeep as (K0 & K1 & K2); [lia|]. cbn [fst snd]. done. }
  destruct (Z.eqb_spec (d_strength A) (wd_strength best)) as [Heq|Hneq].
  - destruct Hkeep as (K0 & K1 & K2); [lia|].
    assert (Hnz : wd_strength best ≠ 0) by lia.
    destruct c; [done|].
    destruct (negb (bool_decide (wd_value_mode best = d_value_mode A))); [done|].
    destruct (negb (wd_value best =? d_value A)); done.
  - cbn [fst snd wd_strength wd_value_mode wd_value].
    split; [lia|]. split.
    { intros d [->|Hd]%elem_of_cons; [fold A; lia|]. specialize (Hle d Hd). lia. }
    split; [done|]. intros _. exists [], a, atts. fold A.
    split; [done|]. split; [done|]. split; [|done].
    intros d' Hd'. specialize (Hle d' Hd'). cbn [wd_strength]. lia.
Qed.

(** C4, as the code has it.  Over a permutation of the attachments the
    loop of [wire_update] ends with the same strength and the same
    conflict flag, and when it ends without conflict with the same mode and
    value as well.  When it ends in conflict, the mode and the value are,
    for each order, those of the strongest driver that the loop visited
    first: the one after which, in the vector, no driver has the
    strength the loop ends with. *)
Theorem wire_resolve_permutation (s : World) (a1 a2 : list nat) :
  a1 ≡ₚ a2 ->
  r_strength (resolved_of (wire_resolve s a1)) = r_strength (resolved_of (wire_resolve s a2))
  ∧ r_conflict (resolved_of (wire_resolve s a1)) = r_conflict (resolved_of (wire_resolve s a2))
  ∧ (r_conflict (resolved_of (wire_resolve s a1)) = false ->
     resolved_of (wire_resolve s a1) = resolved_of (wire_resolve s a2))
  ∧ (r_conflict (resolved_of (wire_resolve s a1)) = true ->
     decided_by_first_visited s a1 (fst (wire_resolve s a1))
     ∧ decided_by_first_visited s a2 (fst (wire_resolve s a2))).
Proof.
  intros Hp.
  assert (Hperm :
    r_strength (resolved_of (wire_resolve s a1)) = r_strength (resolved_of (wire_resolve s a2))
    ∧ r_conflict (resolved_of (wire_resolve s a1))
      = r_conflict (resolved_of (wire_resolve s a2))
    ∧ (r_conflict (resolved_of (wire_resolve s a1)) = false ->
       resolved_of (wire_resolve s a1) = resolved_of (wire_resolve s a2))).
  { rewrite !wire_resolve_foldr.
    destruct (foldr_wire_update_body_perm s a1 a2 (best_init, false) Hp)
      as (Hs & Hc & _ & He).
    repeat split; simpl; try done.
    intros Hk. by rewrite (He Hk). }
  destruct Hperm as (Hs & Hc & He).
  split; [done|]. split; [done|]. split; [done|].
  intros Hk.
  destruct (wire_resolve_first_visited s a1) as (_ & _ & Hn1 & Hf1).
  destruct (wire_resolve_first_visited s a2) as (_ & _ & Hn2 & Hf2).
  split.
  - apply Hf1, Hn1, Hk.
  - apply Hf2, Hn2. rewrite Hc in Hk. exact Hk.
Qed.

Lemma wire_resolve_permutation_witness :
  r_conflict (resolved_of (wire_resolve Scenario.shadowed [1; 2]%nat)) = false
  ∧ resolved_of (wire_resolve Scenario.shadowed [1; 2]%nat)
    = resolved_of (wire_resolve Scenario.shadowed [2; 1]%nat).
Proof.
  assert (Hp : [1; 2]%nat ≡ₚ [2; 1]%nat) by apply perm_swap.
  destruct (wire_resolve_permutation Scenario.shadowed _ _ Hp) as (_ & _ & He & _).
  assert (Hk : r_conflict (resolved_of (wire_resolve Scenario.shadowed [1; 2]%nat)) = false)
    by (vm_compute; reflexivity).
  split; [exact Hk | exact (He Hk)].
Defined.

(** C4 as stated fails: wire 0 with the drivers 1 (pulled 1) and 2 (pulled
    0) attached in the two possible orders caches two different tuples. *)
Lemma wire_resolve_order_dependent :
  w_attachments (wire_at Scenario.tied_12 0) ≡ₚ w_attachments (wire_at Scenario.tied_21 0)
  ∧ drivers Scenario.tied_12 = drivers Scenario.tied_21
  ∧ cached (wire_at (wire_update 0 Scenario.tied_12) 0)
    ≠ cached (wire_at (wire_update 0 Scenario.tied_21) 0)
  ∧ cached (wire_at Scenario.tied_12 0) ≠ cached (wire_at Scenario.tied_21 0).
Proof.
  split; [|split; [|split]].
  - vm_compute. apply perm_swap.
  - vm_compute. reflexivity.
  - vm_compute. discriminate.
  - vm_compute. discriminate.
Qed.

(** ** Sensing *)

Lemma geb_bool_decide (x y : Z) : (x >=? y) = bool_decide (x >= y).
Proof.
  destruct (Z.geb_spec x y); symmetry;
    [apply bool_decide_eq_true_2 | apply bool_decide_eq_false_2]; lia.
Qed.

Lemma nonzero_bool_decide (x : Z) : negb (x =? 0) = bool_decide (x ≠ 0).
Proof.
  destruct (Z.eqb_spec x 0); simpl; symmetry;
    [apply bool_decide_eq_false_2 | apply bool_decide_eq_true_2]; tauto.
Qed.

(** C7.  For a wire that is not [NULL], [qemu_wire_sense] returns
    [value >= intrinsic / 2] (C's division of [int]) in analogue mode and
    [value != 0] in digital mode, [qemu_wire_sense_a] returns the value in
    analogue mode and, in digital mode, the intrinsic value when the value
    is not zero and 0 otherwise; both report the cached strength.  For
    [NULL] they return (false, HI_Z) and (0, HI_Z). *)
Theorem sense_converts_by_intrinsic (s : World) (w : nat) :
  let W := wire_at s w in
  qemu_wire_sense (Some w) s
  = (match w_value_mode W with
     | VALUE_MODE_A => bool_decide (w_value W >= w_intrinsic W ÷ 2)
     | VALUE_MODE_D => bool_decide (w_value W ≠ 0)
     end, w_strength W)
  ∧ qemu_wire_sense_a (Some w) s
    = (match w_value_mode W with
       | VALUE_MODE_A => w_value W
       | VALUE_MODE_D => if bool_decide (w_value W ≠ 0) then w_intrinsic W else 0
       end, w_strength W)
  ∧ qemu_wire_sense None s = (false, STRENGTH_HI_Z)
  ∧ qemu_wire_sense_a None s = (0, STRENGTH_HI_Z).
Proof.
  simpl. unfold qemu_wire_sense, qemu_wire_sense_a.
  rewrite geb_bool_decide, nonzero_bool_decide. by repeat split.
Qed.

(** ** The composite listener *)

Lemma multi_in_conflict_true (s : World) (ws : list (option nat)) (n i w : nat) :
  (i < n)%nat -> ws !! i = Some (Some w) -> w_is_conflict (wire_at s w) = true ->
  multi_in_conflict s ws n = true.
Proof.
  induction n as [|n IH]; intros Hi Hw Hc; [lia|]. simpl.
  destruct (decide (i = n)) as [->|Hne].
  - by rewrite Hw, Hc.
  - destruct (ws !! n) as [[w'|]|]; try (apply IH; [lia|done..]).
    destruct (w_is_conflict (wire_at s w')); [done|]. apply IH; [lia|done..].
Qed.

(** C9.  When the snapshot of a composite listener records a conflict and
    one of its wires is in conflict, [multi_handler] returns the world it
    was given: the snapshot is not written and the handler of the caller is
    not called. *)
Theorem multi_handler_keeps_still_in_conflict (E : handlers) (s : World)
    (ml wire i w : nat) :
  ml_in_conflict (multi_at s ml) = true ->
  ml_wires (multi_at s ml) !! i = Some (Some w) ->
  w_is_conflict (wire_at s w) = true ->
  multi_handler E ml wire s = s.
Proof.
  intros Hml Hw Hc. unfold multi_handler.
  rewrite (multi_in_conflict_true s _ _ i w); [by rewrite Hml| |done..].
  by eapply lookup_lt_Some.
Qed.

Lemma multi_handler_keeps_still_in_conflict_witness :
  multi_handler TestWire.recorders 50 1 Scenario.in_conflict = Scenario.in_conflict.
Proof.
  apply (multi_handler_keeps_still_in_conflict TestWire.recorders
           Scenario.in_conflict 50 1 1 1); vm_compute; reflexivity.
Defined.

(** ** NULL arguments *)

(** C5 as stated fails: with a wire and a [NULL] driver, attach and detach
    dereference the driver. *)
Lemma attach_detach_null_driver_fault :
  qemu_wire_attach (Some 0%nat) None empty_world = Fault
  ∧ qemu_wire_detach TestWire.recorders (Some 0%nat) None empty_world = Fault.
Proof. split; reflexivity. Qed.

(** ** Counting events *)

Lemma count_cons (p : event -> bool) (e : event) (tr : list event) :
  count p (e :: tr) = ((if p e then 1 else 0) + count p tr)%nat.
Proof. unfold count; simpl. by destruct (p e). Qed.

Lemma count_app (p : event -> bool) (tr1 tr2 : list event) :
  count p (tr1 ++ tr2) = (count p tr1 + count p tr2)%nat.
Proof. unfold count. by rewrite List.filter_app, length_app. Qed.

Lemma count_nil (p : event -> bool) : count p [] = 0%nat.
Proof. done. Qed.

Lemma about_wire_event (w : nat) (p : event -> bool) : about w p -> wire_event p.
Proof. by intros [H _]. Qed.

Lemma about_is_resolve (w : nat) : about w (is_resolve w).
Proof.
  repeat split; try done. simpl. intros. by apply bool_decide_eq_false_2.
Qed.

Lemma about_is_notify (w : nat) : about w (is_notify w).
Proof.
  repeat split; try done. simpl. intros. by apply bool_decide_eq_false_2.
Qed.


Lemma about_is_call_of (lis : wire_listener) (w : nat) : about w (is_call_of lis w).
Proof.
  repeat split; try done. simpl. intros.
  rewrite (bool_decide_eq_false_2 (w' = w)) by done. apply andb_false_r.
Qed.

Lemma count_calls_about (w w' : nat) (p : event -> bool) (ls : list wire_listener) :
  about w' p -> w ≠ w' -> count p (map (fun lis => EvCall lis w) ls) = 0%nat.
Proof.
  intros [_ Hp] Hne. induction ls as [|lis ls IH]; [done|]. simpl.
  rewrite count_cons, IH. destruct (Hp w Hne) as (_ & _ & Hc). by rewrite Hc.
Qed.

Lemma count_is_call_map (w : nat) (ls : list wire_listener) :
  count (is_call w) (map (fun lis => EvCall lis w) ls) = length ls.
Proof.
  induction ls as [|lis ls IH]; [done|]. simpl.
  rewrite count_cons, IH. simpl. by rewrite bool_decide_eq_true_2.
Qed.

Lemma count_is_call_of_map (lis : wire_listener) (w : nat) (ls : list wire_listener) :
  count (is_call_of lis w) (map (fun l => EvCall l w) ls) = entries lis ls.
Proof.
  unfold entries. induction ls as [|l ls IH]; [done|]. simpl.
  rewrite count_cons, IH. simpl. rewrite (bool_decide_eq_true_2 (w = w)) by done.
  rewrite andb_true_r. by destruct (bool_decide (l = lis)).
Qed.

(** ** Callbacks that do not re-enter *)

Lemma frames_wires (f : World -> World) (s : World) :
  frames f -> wires (f s) = wires s.
Proof. intros H. by rewrite (H s). Qed.

Lemma frames_drivers (f : World -> World) (s : World) :
  frames f -> drivers (f s) = drivers s.
Proof. intros H. by rewrite (H s). Qed.

Lemma frames_trace (f : World -> World) (s : World) :
  frames f -> trace (f s) = trace s.
Proof. intros H. by rewrite (H s). Qed.

Lemma wire_at_wires (s s' : World) (w : nat) :
  wires s' = wires s -> wire_at s' w = wire_at s w.
Proof. unfold wire_at. by intros ->. Qed.

Lemma driver_at_drivers (s s' : World) (d : nat) :
  drivers s' = drivers s -> driver_at s' d = driver_at s d.
Proof. unfold driver_at. by intros ->. Qed.

Section Quiet.

Variable E : handlers.
Hypothesis E_quiet : quiet E.

Lemma multi_handler_quiet (opaque wire : nat) (s : World) :
  wires (multi_handler E opaque wire s) = wires s
  ∧ drivers (multi_handler E opaque wire s) = drivers s
  ∧ forall p, wire_event p ->
      count p (trace (multi_handler E opaque wire s)) = count p (trace s).
Proof.
  destruct E_quiet as [_ Hm]. unfold multi_handler.
  destruct (multi_in_conflict s _ _ && _); [done|].
  destruct (qemu_wire_multi_sense _ s) as [value weakest].
  destruct (multi_differs _ _ _ _); [|done].
  rewrite frames_wires, frames_drivers, frames_trace by apply Hm.
  repeat split. intros p [Hp _]. simpl. by rewrite count_cons, Hp.
Qed.

Lemma call_listener_quiet (lis : wire_listener) (w : nat) (s : World) :
  wires (call_listener E lis w s) = wires s
  ∧ drivers (call_listener E lis w s) = drivers s
  ∧ forall p, wire_event p ->
      count p (trace (call_listener E lis w s)) = count p (EvCall lis w :: trace s).
Proof.
  unfold call_listener. destruct (lis_handler lis) as [|f].
  - destruct (multi_handler_quiet (lis_opaque lis) w (log (EvCall lis w) s))
      as (Hw & Hd & Ht).
    by rewrite Hw, Hd.
  - destruct E_quiet as [Hu _].
    by rewrite frames_wires, frames_drivers, frames_trace by apply Hu.
Qed.

Lemma call_listeners_from_quiet (w : nat) (i : nat) (s : World) :
  (i <= length (w_listeners (wire_at s w)))%nat ->
  wires (call_listeners_from E w i s) = wires s
  ∧ drivers (call_listeners_from E w i s) = drivers s
  ∧ forall p, wire_event p ->
      count p (trace (call_listeners_from E w i s))
      = (count p (map (fun lis => EvCall lis w) (take i (w_listeners (wire_at s w))))
         + count p (trace s))%nat.
Proof.
  revert s. induction i as [|i IH]; intros s Hi; simpl.
  - done.
  - destruct (lookup_lt_is_Some_2 (w_listeners (wire_at s w)) i) as [lis Hl]; [lia|].
    rewrite Hl.
    destruct (call_listener_quiet lis w s) as (Hw & Hd & Ht).
    assert (Hx : wire_at (call_listener E lis w s) w = wire_at s w)
      by by apply wire_at_wires.
    destruct (IH (call_listener E lis w s)) as (Hw' & Hd' & Ht').
    { rewrite Hx. lia. }
    rewrite Hw', Hd', Hw, Hd. repeat split.
    intros p Hp. rewrite (Ht' p Hp), (Ht p Hp), Hx.
    rewrite (take_S_r _ _ _ Hl), map_app, count_app, count_cons. simpl.
    rewrite count_cons, count_nil. lia.
Qed.

(** [wire_notify_if_changed] clears [changed] and [in_callback] of the
    wire, leaves everything else in the heap of wires and drivers, and
    calls each listener of the wire once. *)
Lemma wire_notify_if_changed_quiet (w : nat) (s : World) :
  drivers (wire_notify_if_changed E w s) = drivers s
  ∧ (forall w',
       wire_at (wire_notify_if_changed E w s) w'
       = if decide (w' = w) then notified (wire_at s w) else wire_at s w')
  ∧ forall p, wire_event p ->
      count p (trace (wire_notify_if_changed E w s))
      = (count p (notify_events w (wire_at s w)) + count p (trace s))%nat.
Proof.
  unfold wire_notify_if_changed, notified, notify_events.
  destruct (w_changed (wire_at s w)) eqn:Hc.
  2:{ repeat split. intros w'. by destruct (decide (w' = w)) as [->|]. }
  unfold wire_call_listeners.
  set (s1 := log (EvNotify w) (put_wire w (set_w_changed false (wire_at s w)) s)).
  set (s2 := if w_in_callback (wire_at s1 w) then log (EvReentry w) s1 else s1).
  set (s3 := put_wire w (set_w_in_callback true (wire_at s2 w)) s2).
  assert (H2 : wires s2 = wires s1 ∧ drivers s2 = drivers s1
               ∧ forall p, wire_event p -> count p (trace s2) = count p (trace s1)).
  { unfold s2. destruct (w_in_callback (wire_at s1 w)); [|done].
    repeat split. intros p [_ Hp]. simpl. by rewrite count_cons, Hp. }
  destruct H2 as (Hw2 & Hd2 & Ht2).
  assert (Hx1 : wire_at s1 w = set_w_changed false (wire_at s w)).
  { unfold s1, log, wire_at at 1; simpl. by rewrite lookup_insert_eq. }
  assert (Hx3 : wire_at s3 w
                = set_w_in_callback true (set_w_changed false (wire_at s w))).
  { unfold s3. rewrite wire_at_put_wire_eq, (wire_at_wires s1 s2) by done.
    by rewrite Hx1. }
  destruct (call_listeners_from_quiet w (length (w_listeners (wire_at s3 w))) s3)
    as (Hw4 & Hd4 & Ht4); [lia|].
  set (s4 := call_listeners_from E w (length (w_listeners (wire_at s3 w))) s3) in *.
  split; [|split].
  - simpl. rewrite Hd4. unfold s3; simpl. by rewrite Hd2.
  - intros w'. rewrite wire_at_put_wire.
    destruct (decide (w' = w)) as [->|Hne].
    + rewrite (wire_at_wires s3 s4) by done. by rewrite Hx3.
    + rewrite (wire_at_wires s3 s4) by done.
      unfold s3. rewrite wire_at_put_wire_ne by done.
      rewrite (wire_at_wires s1 s2) by done.
      unfold s1, log, wire_at at 1; simpl. by rewrite lookup_insert_ne.
  - intros p Hp. simpl. rewrite (Ht4 p Hp), firstn_all, Hx3. simpl.
    change (trace s3) with (trace s2). rewrite (Ht2 p Hp).
    unfold s1; simpl. rewrite !count_cons. lia.
Qed.

End Quiet.

(** ** Loops that visit wires *)

(** A loop body that touches only the wire it visits, and touches it the
    same way however often it comes by. *)
Section Visits.

Variable visit : World -> nat -> World.
Variable eff : WireState -> WireState.
Variable evs : nat -> WireState -> list event.
Variable Inv : World -> Prop.

Hypothesis visit_inv : forall s w, Inv s -> Inv (visit s w).
Hypothesis visit_drivers : forall s w, Inv s -> drivers (visit s w) = drivers s.
Hypothesis visit_wire : forall s w w', Inv s ->
  wire_at (visit s w) w' = if decide (w' = w) then eff (wire_at s w) else wire_at s w'.
Hypothesis visit_trace : forall s w p, Inv s -> wire_event p ->
  count p (trace (visit s w)) = (count p (evs w (wire_at s w)) + count p (trace s))%nat.
Hypothesis eff_idem : forall x, eff (eff x) = eff x.
Hypothesis evs_idem : forall w x, evs w (eff x) = [].
Hypothesis evs_about : forall w w' x p, about w' p -> w ≠ w' -> count p (evs w x) = 0%nat.

Lemma visits_inv (L : list nat) (s : World) : Inv s -> Inv (fold_left visit L s).
Proof. revert s. induction L as [|w0 L IH]; intros s Hs; simpl; auto. Qed.

Lemma visits_drivers (L : list nat) (s : World) :
  Inv s -> drivers (fold_left visit L s) = drivers s.
Proof.
  revert s. induction L as [|w0 L IH]; intros s Hs; simpl; [done|].
  rewrite IH by auto. auto.
Qed.

Lemma visits_wire (L : list nat) (s : World) (w : nat) :
  Inv s ->
  wire_at (fold_left visit L s) w
  = if bool_decide (w ∈ L) then eff (wire_at s w) else wire_at s w.
Proof.
  revert s. induction L as [|w0 L IH]; intros s Hs; cbn [fold_left].
  - rewrite bool_decide_eq_false_2; [done|]. apply not_elem_of_nil.
  - rewrite IH, visit_wire by auto.
    destruct (decide (w = w0)) as [->|Hne].
    + rewrite (bool_decide_eq_true_2 (w0 ∈ w0 :: L)) by apply list_elem_of_here.
      rewrite eff_idem. by destruct (bool_decide (w0 ∈ L)).
    + rewrite (bool_decide_ext (w ∈ w0 :: L) (w ∈ L)); [done|].
      rewrite elem_of_cons. intuition congruence.
Qed.

Lemma visits_trace (L : list nat) (s : World) (w : nat) (p : event -> bool) :
  Inv s -> about w p ->
  count p (trace (fold_left visit L s))
  = ((if bool_decide (w ∈ L) then count p (evs w (wire_at s w)) else 0)
     + count p (trace s))%nat.
Proof.
  intros Hs Hp. revert s Hs. induction L as [|w0 L IH]; intros s Hs; cbn [fold_left].
  - rewrite bool_decide_eq_false_2; [done|]. apply not_elem_of_nil.
  - rewrite IH, visit_trace, visit_wire by eauto using about_wire_event.
    destruct (decide (w = w0)) as [->|Hne].
    + rewrite (bool_decide_eq_true_2 (w0 ∈ w0 :: L)) by apply list_elem_of_here.
      rewrite evs_idem, count_nil. by destruct (bool_decide (w0 ∈ L)).
    + rewrite (evs_about w0 w _ p Hp) by done.
      rewrite (bool_decide_ext (w ∈ w0 :: L) (w ∈ L)); [lia|].
      rewrite elem_of_cons. intuition congruence.
Qed.

End Visits.

(** ** Settled worlds *)

Lemma settled_spec (s : World) :
  settled s = true
  <-> (forall w, wire_settled (wire_at s w) = true)
      ∧ (forall d, d_changed (driver_at s d) = false).
Proof.
  unfold settled. rewrite andb_true_iff, !bool_decide_eq_true.
  unfold map_Forall, wire_at, driver_at. split.
  - intros [Hw Hd]. split.
    + intros w. destruct (wires s !! w) eqn:Hl; simpl; eauto.
    + intros d. destruct (drivers s !! d) eqn:Hl; simpl; eauto.
  - intros [Hw Hd]. split.
    + intros w x Hl. specialize (Hw w). by rewrite Hl in Hw.
    + intros d y Hl. specialize (Hd d). by rewrite Hl in Hd.
Qed.

Lemma settled_wire (s : World) (w : nat) :
  settled s = true -> wire_settled (wire_at s w) = true.
Proof. by intros [Hw _]%settled_spec. Qed.

Lemma settled_driver (s : World) (d : nat) :
  settled s = true -> d_changed (driver_at s d) = false.
Proof. by intros [_ Hd]%settled_spec. Qed.

Lemma wire_settled_flags (x : WireState) :
  wire_settled x = true
  <-> w_changed x = false ∧ w_in_callback x = false ∧ w_driver_changed x = false.
Proof.
  unfold wire_settled.
  destruct (w_changed x), (w_in_callback x), (w_driver_changed x); simpl;
    intuition congruence.
Qed.

Lemma set_w_driver_changed_id (x : WireState) :
  set_w_driver_changed (w_driver_changed x) x = x.
Proof. by destruct x. Qed.

Lemma set_d_changed_id (y : WireDriverState) : set_d_changed (d_changed y) y = y.
Proof. by destruct y. Qed.

(** ** The first loop of [qemu_wire_multi_drive] *)

Lemma elem_of_batch_wires (drives : list struct_qemu_wire_drive) (s : World) (w : nat) :
  w ∈ batch_wires drives s
  <-> exists d, Some d ∈ map wd_driver drives
                ∧ d_changed (driver_at s d) = true
                ∧ w ∈ d_wires (driver_at s d).
Proof.
  induction drives as [|wd drives IH].
  - simpl. split; [by intros ?%not_elem_of_nil|].
    by intros (d & ?%not_elem_of_nil & _).
  - change (batch_wires (wd :: drives) s)
      with ((match wd_driver wd with
             | Some d =>
                 if d_changed (driver_at s d) then d_wires (driver_at s d) else []
             | None => []
             end) ++ batch_wires drives s).
    rewrite elem_of_app, IH. simpl. split.
    + intros [Hw|(d & Hd & Hc & Hw)].
      * destruct (wd_driver wd) as [d|]; [|by apply not_elem_of_nil in Hw].
        destruct (d_changed (driver_at s d)) eqn:Hc;
          [|by apply not_elem_of_nil in Hw].
        exists d. split; [apply list_elem_of_here|done].
      * exists d. split; [by apply list_elem_of_further|done].
    + intros (d & Hd & Hc & Hw). apply elem_of_cons in Hd as [Hd|Hd].
      * left. by rewrite <- Hd, Hc.
      * right. by exists d.
Qed.

Lemma batch_wires_drivers (drives : list struct_qemu_wire_drive) (s s' : World) :
  drivers s' = drivers s -> batch_wires drives s' = batch_wires drives s.
Proof. intros H. unfold batch_wires, driver_at. by rewrite H. Qed.

Lemma enough_fuel_elem (fuel : nat) (drives : list struct_qemu_wire_drive)
    (s : World) (d : nat) :
  enough_fuel fuel drives s = true -> Some d ∈ map wd_driver drives ->
  (length (d_wires (driver_at s d)) < fuel)%nat.
Proof.
  unfold enough_fuel. rewrite forallb_forall.
  intros Hf (wd & Hwd & Hin)%list_elem_of_fmap.
  specialize (Hf wd). rewrite <- list_elem_of_In in Hf. specialize (Hf Hin).
  rewrite <- Hwd in Hf. by apply Nat.ltb_lt.
Qed.

(** Some fuel is always enough. *)
Lemma enough_fuel_exists (drives : list struct_qemu_wire_drive) (s : World) :
  exists fuel, forall fuel', (fuel <= fuel')%nat -> enough_fuel fuel' drives s = true.
Proof.
  induction drives as [|wd rest [fuel IH]].
  - by exists 0%nat.
  - destruct (wd_driver wd) as [d|] eqn:Hd.
    + exists (S (length (d_wires (driver_at s d))) `max` fuel)%nat.
      intros fuel' Hf. unfold enough_fuel in *. simpl. rewrite Hd.
      rewrite IH by lia. rewrite andb_true_r. apply Nat.ltb_lt. lia.
    + exists fuel. intros fuel' Hf. unfold enough_fuel in *. simpl.
      rewrite Hd. by apply IH.
Qed.

Lemma mark_wires_spec (L : list nat) (s : World) :
  drivers (mark_wires L s) = drivers s
  ∧ trace (mark_wires L s) = trace s
  ∧ forall w,
      wire_at (mark_wires L s) w
      = if bool_decide (w ∈ L) then set_w_driver_changed true (wire_at s w)
        else wire_at s w.
Proof.
  unfold mark_wires.
  set (visit := fun s w => put_wire w (set_w_driver_changed true (wire_at s w)) s).
  split; [|split].
  - revert s. induction L as [|w0 L IH]; intros s; simpl; [done|]. by rewrite IH.
  - revert s. induction L as [|w0 L IH]; intros s; simpl; [done|]. by rewrite IH.
  - intros w.
    apply (visits_wire visit (set_w_driver_changed true) (fun _ => True)); try done.
    intros s' w0 w' _. unfold visit. apply wire_at_put_wire.
Qed.

(** What the first loop leaves, from a settled world: it writes drivers of
    the batch only and keeps their [wires]; on the wires it sets
    [driver_changed], exactly on those of the drivers it flagged. *)
Lemma multi_drive_apply_spec (drives : list struct_qemu_wire_drive) (s0 : World) :
  settled s0 = true ->
  let s1 := multi_drive_apply drives s0 in
  trace s1 = trace s0
  ∧ (forall d, d_wires (driver_at s1 d) = d_wires (driver_at s0 d))
  ∧ (forall d, d_changed (driver_at s1 d) = true -> Some d ∈ map wd_driver drives)
  ∧ (forall w,
       wire_at s1 w
       = set_w_driver_changed (bool_decide (w ∈ batch_wires drives s1)) (wire_at s0 w)).
Proof.
  intros Hs0. apply settled_spec in Hs0 as [Hw0 Hd0].
  induction drives as [|wd l IH] using rev_ind.
  - simpl. repeat split; try done.
    + intros d. by rewrite Hd0.
    + intros w. specialize (Hw0 w). apply wire_settled_flags in Hw0 as (_ & _ & Hf).
      rewrite <- Hf at 1. by rewrite set_w_driver_changed_id.
  - unfold multi_drive_apply in *. rewrite fold_left_app. simpl.
    set (s := fold_left drive_apply l s0) in *. simpl in IH.
    destruct IH as (Ht & Hwi & Hfl & Hwr).
    assert (Hsub : forall d, Some d ∈ map wd_driver l ->
                             Some d ∈ map wd_driver (l ++ [wd])).
    { intros d Hd. rewrite map_app. apply elem_of_app. by left. }
    assert (Hlast : forall d, wd_driver wd = Some d ->
                              Some d ∈ map wd_driver (l ++ [wd])).
    { intros d Hd. rewrite map_app. apply elem_of_app. right. simpl.
      rewrite Hd. apply list_elem_of_here. }
    assert (Hsplit : forall d, Some d ∈ map wd_driver (l ++ [wd]) ->
                               Some d ∈ map wd_driver l ∨ wd_driver wd = Some d).
    { intros d Hd. rewrite map_app in Hd. apply elem_of_app in Hd as [Hd|Hd];
        [by left|]. right. simpl in Hd. by apply list_elem_of_singleton in Hd. }
    destruct (wd_driver wd) as [d|] eqn:Hdr.
    2:{ assert (Heq : drive_apply s wd = s) by (unfold drive_apply; by rewrite Hdr).
        rewrite Heq. repeat split; try done; [by auto|].
        intros w. rewrite Hwr. f_equal. apply bool_decide_ext.
        rewrite !elem_of_batch_wires. split.
        - intros (d & Hd & Hr). exists d. split; [by apply Hsub|done].
        - intros (d & Hd & Hr). exists d. split; [|done].
          by destruct (Hsplit d Hd). }
    destruct (drive_differs (driver_at s d) wd) eqn:Hdf.
    2:{ assert (Heq : drive_apply s wd = s)
          by (unfold drive_apply; by rewrite Hdr, Hdf).
        rewrite Heq. repeat split; try done; [by auto|].
        intros w. rewrite Hwr. f_equal. apply bool_decide_ext.
        rewrite !elem_of_batch_wires. split.
        - intros (d' & Hd & Hr). exists d'. split; [by apply Hsub|done].
        - intros (d' & Hd & Hc & Hr). exists d'. split; [|done].
          destruct (Hsplit d' Hd) as [?|Heq']; [done|].
          injection Heq' as <-. auto. }
    assert (Heq : drive_apply s wd
                  = mark_wires (d_wires (driver_at s d))
                      (put_driver d (set_d_drive wd (driver_at s d)) s))
      by (unfold drive_apply; by rewrite Hdr, Hdf).
    rewrite Heq. clear Heq.
    set (y := driver_at s d).
    set (sd := put_driver d (set_d_drive wd y) s).
    destruct (mark_wires_spec (d_wires y) sd) as (Hmd & Hmt & Hmw).
    set (s1 := mark_wires (d_wires y) sd) in *.
    assert (Hdrv : forall d', driver_at s1 d'
                     = if decide (d' = d) then set_d_drive wd y else driver_at s d').
    { intros d'. rewrite (driver_at_drivers sd s1) by done.
      apply driver_at_put_driver. }
    split; [|split; [|split]].
    + by rewrite Hmt.
    + intros d'. rewrite Hdrv. destruct (decide (d' = d)) as [->|]; [|done].
      simpl. apply Hwi.
    + intros d'. rewrite Hdrv. destruct (decide (d' = d)) as [->|]; [by auto|].
      auto.
    + intros w. rewrite Hmw.
      assert (Hx : wire_at sd w = wire_at s w) by done.
      rewrite Hx, Hwr.
      assert (Hiff : w ∈ batch_wires (l ++ [wd]) s1
                     <-> w ∈ d_wires y ∨ w ∈ batch_wires l s).
      { rewrite !elem_of_batch_wires. split.
        - intros (d' & Hd & Hc & Hr). rewrite Hdrv in Hc, Hr.
          destruct (decide (d' = d)) as [->|Hne]; [by left|].
          right. exists d'. split; [|done].
          destruct (Hsplit d' Hd) as [?|Heq]; [done|congruence].
        - intros [Hr|(d' & Hd & Hc & Hr)].
          + exists d. rewrite Hdrv, decide_True by done. auto.
          + exists d'. rewrite Hdrv.
            destruct (decide (d' = d)) as [->|Hne]; [by auto|]. auto. }
      destruct (bool_decide_reflect (w ∈ d_wires y)) as [Hin|Hin].
      * rewrite (bool_decide_eq_true_2 (w ∈ batch_wires (l ++ [wd]) s1));
          [done|]. apply Hiff. by left.
      * f_equal. apply bool_decide_ext. rewrite Hiff. intuition.
Qed.

(** ** The drivers a batch changes *)

Lemma drive_apply_changed (s : World) (wd : struct_qemu_wire_drive) (d : nat) :
  d_changed (driver_at (drive_apply s wd) d)
  = d_changed (driver_at s d)
    || (bool_decide (wd_driver wd = Some d) && drive_differs (driver_at s d) wd).
Proof.
  unfold drive_apply. destruct (wd_driver wd) as [d'|] eqn:Hd.
  2:{ rewrite bool_decide_eq_false_2 by done. by rewrite orb_false_r. }
  destruct (decide (d' = d)) as [->|Hne].
  - rewrite bool_decide_eq_true_2 by done. simpl.
    destruct (drive_differs (driver_at s d) wd) eqn:Hdf.
    + destruct (mark_wires_spec (d_wires (driver_at s d))
                  (put_driver d (set_d_drive wd (driver_at s d)) s)) as (Hm & _).
      rewrite (driver_at_drivers _ _ d Hm), driver_at_put_driver, decide_True by done.
      by rewrite orb_true_r.
    + by rewrite orb_false_r.
  - rewrite (bool_decide_eq_false_2 (Some d' = Some d)) by congruence.
    rewrite orb_false_r.
    destruct (drive_differs (driver_at s d') wd); [|done].
    destruct (mark_wires_spec (d_wires (driver_at s d'))
                (put_driver d' (set_d_drive wd (driver_at s d')) s)) as (Hm & _).
    rewrite (driver_at_drivers _ _ d Hm), driver_at_put_driver.
    by rewrite decide_False by done.
Qed.

(** The first loop flags a driver exactly when one of the descriptors
    finds the driver in another state at its turn. *)
Lemma multi_drive_apply_changed (drives : list struct_qemu_wire_drive) (s : World)
    (d : nat) :
  settled s = true ->
  d_changed (driver_at (multi_drive_apply drives s) d) = true
  <-> exists pre wd post,
        drives = pre ++ wd :: post
        ∧ wd_driver wd = Some d
        ∧ drive_differs (driver_at (multi_drive_apply pre s) d) wd = true.
Proof.
  intros Hs. induction drives as [|wd0 l IH] using rev_ind.
  - simpl. rewrite (settled_driver s d Hs). split; [done|].
    intros (pre & wd & post & Heq & _). by destruct pre.
  - unfold multi_drive_apply in *. rewrite fold_left_app. simpl.
    rewrite drive_apply_changed, orb_true_iff, andb_true_iff, bool_decide_eq_true.
    rewrite IH. split.
    + intros [(pre & wd & post & -> & Hd & Hdf)|[Hd Hdf]].
      * exists pre, wd, (post ++ [wd0]). by rewrite <- app_assoc.
      * exists l, wd0, []. done.
    + intros (pre & wd & post & Heq & Hd & Hdf).
      destruct post as [|wd' post _] using rev_ind.
      * apply app_inj_tail in Heq as [-> ->]. by right.
      * rewrite app_comm_cons, app_assoc in Heq.
        apply app_inj_tail in Heq as [-> ->].
        left. by exists pre, wd, post.
Qed.

(** [affected] holds of the wires of the drivers the first loop flags. *)
Lemma affected_changed_driver (drives : list struct_qemu_wire_drive) (s : World)
    (w : nat) :
  settled s = true ->
  affected drives s w = true
  <-> exists d pre wd post,
        drives = pre ++ wd :: post
        ∧ wd_driver wd = Some d
        ∧ drive_differs (driver_at (multi_drive_apply pre s) d) wd = true
        ∧ w ∈ d_wires (driver_at s d).
Proof.
  intros Hs. unfold affected. rewrite bool_decide_eq_true, elem_of_batch_wires.
  destruct (multi_drive_apply_spec drives s Hs) as (_ & Hwi & Hfl & _).
  split.
  - intros (d & _ & Hc & Hw). rewrite Hwi in Hw.
    apply (multi_drive_apply_changed drives s d Hs) in Hc
      as (pre & wd & post & Heq & Hd & Hdf).
    by exists d, pre, wd, post.
  - intros (d & pre & wd & post & Heq & Hd & Hdf & Hw).
    assert (Hc : d_changed (driver_at (multi_drive_apply drives s) d) = true).
    { apply (multi_drive_apply_changed drives s d Hs). by exists pre, wd, post. }
    exists d. rewrite Hwi. split; [by apply Hfl|done].
Qed.

(** ** The second loop *)

Lemma update_if_driver_changed_spec (s0 s : World) (w : nat) :
  drivers s = drivers s0 ->
  drivers (update_if_driver_changed s w) = drivers s
  ∧ (forall w',
       wire_at (update_if_driver_changed s w) w'
       = if decide (w' = w) then updated s0 (wire_at s w) else wire_at s w')
  ∧ forall p,
      count p (trace (update_if_driver_changed s w))
      = (count p (update_events w (wire_at s w)) + count p (trace s))%nat.
Proof.
  intros Hd. unfold update_if_driver_changed, updated, update_events.
  destruct (w_driver_changed (wire_at s w)) eqn:Hf.
  2:{ repeat split. intros w'. by destruct (decide (w' = w)) as [->|]. }
  split; [|split].
  - simpl. apply drivers_wire_update.
  - intros w'. rewrite wire_at_put_wire.
    destruct (decide (w' = w)) as [->|Hne].
    + rewrite wire_at_wire_update. simpl.
      by rewrite (wire_resolve_drivers s0 s).
    + by apply wire_at_wire_update_ne.
  - intros p. simpl. rewrite trace_wire_update, !count_cons, count_nil. lia.
Qed.

Lemma updated_idem (s0 : World) (x : WireState) :
  updated s0 (updated s0 x) = updated s0 x.
Proof.
  unfold updated. destruct (w_driver_changed x) eqn:Hf; simpl; [done|].
  by rewrite Hf.
Qed.

Lemma update_events_updated (s0 : World) (w : nat) (x : WireState) :
  update_events w (updated s0 x) = [].
Proof.
  unfold update_events, updated. destruct (w_driver_changed x) eqn:Hf; [done|].
  by rewrite Hf.
Qed.

Lemma update_events_about (w w' : nat) (x : WireState) (p : event -> bool) :
  about w' p -> w ≠ w' -> count p (update_events w x) = 0%nat.
Proof.
  intros [_ Hp] Hne. unfold update_events.
  destruct (w_driver_changed x); [|done].
  rewrite count_cons. destruct (Hp w Hne) as (Hr & _). by rewrite Hr.
Qed.

Lemma updates_drivers (s : World) (L : list nat) :
  drivers (fold_left update_if_driver_changed L s) = drivers s.
Proof.
  apply (visits_drivers update_if_driver_changed (fun s' => drivers s' = drivers s));
    [| |done].
  - intros s' w Hs'.
    destruct (update_if_driver_changed_spec s s' w Hs') as (Hd & _). congruence.
  - intros s' w Hs'. by destruct (update_if_driver_changed_spec s s' w Hs').
Qed.

Lemma multi_drive_update_fold (drives : list struct_qemu_wire_drive) (s : World) :
  multi_drive_update drives s
  = fold_left update_if_driver_changed (batch_wires drives s) s.
Proof.
  unfold multi_drive_update. revert s.
  induction drives as [|wd rest IH]; intros s; [done|].
  change (batch_wires (wd :: rest) s)
    with ((match wd_driver wd with
           | Some d =>
               if d_changed (driver_at s d) then d_wires (driver_at s d) else []
           | None => []
           end) ++ batch_wires rest s).
  rewrite fold_left_app. cbn [fold_left].
  assert (Hstep : drive_update s wd
                  = fold_left update_if_driver_changed
                      (match wd_driver wd with
                       | Some d =>
                           if d_changed (driver_at s d) then d_wires (driver_at s d)
                           else []
                       | None => []
                       end) s).
  { unfold drive_update. destruct (wd_driver wd) as [d|]; [|done].
    by destruct (d_changed (driver_at s d)). }
  rewrite IH, Hstep. f_equal. apply batch_wires_drivers, updates_drivers.
Qed.

Lemma multi_drive_update_spec (drives : list struct_qemu_wire_drive) (s : World) :
  let s2 := multi_drive_update drives s in
  drivers s2 = drivers s
  ∧ (forall w,
       wire_at s2 w
       = if bool_decide (w ∈ batch_wires drives s) then updated s (wire_at s w)
         else wire_at s w)
  ∧ forall w p, about w p ->
      count p (trace s2)
      = ((if bool_decide (w ∈ batch_wires drives s)
          then count p (update_events w (wire_at s w)) else 0)
         + count p (trace s))%nat.
Proof.
  simpl. rewrite multi_drive_update_fold.
  assert (Hinv : forall s' w, drivers s' = drivers s ->
                   drivers (update_if_driver_changed s' w) = drivers s).
  { intros s' w Hs'.
    destruct (update_if_driver_changed_spec s s' w Hs') as (Hd & _). congruence. }
  assert (Hwire : forall s' w w', drivers s' = drivers s ->
                    wire_at (update_if_driver_changed s' w) w'
                    = if decide (w' = w) then updated s (wire_at s' w)
                      else wire_at s' w').
  { intros s' w w' Hs'.
    by destruct (update_if_driver_changed_spec s s' w Hs') as (_ & H & _). }
  assert (Htrace : forall s' w (p : event -> bool), drivers s' = drivers s ->
                     wire_event p ->
                     count p (trace (update_if_driver_changed s' w))
                     = (count p (update_events w (wire_at s' w))
                        + count p (trace s'))%nat).
  { intros s' w p Hs' _.
    by destruct (update_if_driver_changed_spec s s' w Hs') as (_ & _ & H). }
  split; [apply updates_drivers|split].
  - intros w.
    by apply (visits_wire update_if_driver_changed (updated s)
                (fun s' => drivers s' = drivers s) Hinv Hwire (updated_idem s)).
  - intros w p Hp.
    by apply (visits_trace update_if_driver_changed (updated s) update_events
                (fun s' => drivers s' = drivers s) Hinv Hwire Htrace
                (update_events_updated s) update_events_about).
Qed.

(** ** The third loop *)

Lemma notified_idem (x : WireState) : notified (notified x) = notified x.
Proof. unfold notified. by destruct (w_changed x) eqn:Hc; simpl; rewrite ?Hc. Qed.

Lemma notify_events_notified (w : nat) (x : WireState) :
  notify_events w (notified x) = [].
Proof.
  unfold notify_events, notified. by destruct (w_changed x) eqn:Hc; simpl; rewrite ?Hc.
Qed.

Lemma notify_events_about (w w' : nat) (x : WireState) (p : event -> bool) :
  about w' p -> w ≠ w' -> count p (notify_events w x) = 0%nat.
Proof.
  intros Hp Hne. unfold notify_events. destruct (w_changed x); [|done].
  rewrite count_cons, (count_calls_about w w') by done.
  destruct Hp as [_ Hp]. destruct (Hp w Hne) as (_ & Hn & _). by rewrite Hn.
Qed.

Lemma enough_fuel_wires (fuel : nat) (drives : list struct_qemu_wire_drive)
    (s s' : World) :
  (forall d, d_wires (driver_at s' d) = d_wires (driver_at s d)) ->
  enough_fuel fuel drives s' = enough_fuel fuel drives s.
Proof.
  intros H. unfold enough_fuel.
  induction drives as [|wd rest IH]; [done|]. simpl. rewrite IH. f_equal.
  destruct (wd_driver wd); [|done]. by rewrite H.
Qed.

Section QuietDrive.

Variable E : handlers.
Hypothesis E_quiet : quiet E.

Let notify (s : World) (w : nat) : World := wire_notify_if_changed E w s.

Lemma notify_drivers (s : World) (w : nat) : drivers (notify s w) = drivers s.
Proof. by destruct (wire_notify_if_changed_quiet E E_quiet w s). Qed.

Lemma notify_wire (s : World) (w w' : nat) :
  wire_at (notify s w) w'
  = if decide (w' = w) then notified (wire_at s w) else wire_at s w'.
Proof. by destruct (wire_notify_if_changed_quiet E E_quiet w s) as (_ & H & _). Qed.

Lemma notify_trace (s : World) (w : nat) (p : event -> bool) :
  wire_event p ->
  count p (trace (notify s w))
  = (count p (notify_events w (wire_at s w)) + count p (trace s))%nat.
Proof.
  destruct (wire_notify_if_changed_quiet E E_quiet w s) as (_ & _ & H). apply H.
Qed.

Lemma notifies_drivers (L : list nat) (s : World) :
  drivers (fold_left notify L s) = drivers s.
Proof.
  by apply (visits_drivers notify (fun _ => True) (fun _ _ _ => I)
              (fun s w _ => notify_drivers s w)).
Qed.

Lemma notifies_wire (L : list nat) (s : World) (w : nat) :
  wire_at (fold_left notify L s) w
  = if bool_decide (w ∈ L) then notified (wire_at s w) else wire_at s w.
Proof.
  by apply (visits_wire notify notified (fun _ => True) (fun _ _ _ => I)
              (fun s w w' _ => notify_wire s w w') notified_idem).
Qed.

Lemma notifies_trace (L : list nat) (s : World) (w : nat) (p : event -> bool) :
  about w p ->
  count p (trace (fold_left notify L s))
  = ((if bool_decide (w ∈ L) then count p (notify_events w (wire_at s w)) else 0)
     + count p (trace s))%nat.
Proof.
  intros Hp.
  by apply (visits_trace notify notified notify_events (fun _ => True)
              (fun _ _ _ => I) (fun s w w' _ => notify_wire s w w')
              (fun s w p _ => notify_trace s w p)
              notify_events_notified notify_events_about).
Qed.

(** With enough fuel the inner loop of the third phase visits the wires
    of the driver from index [i] on. *)
Lemma notify_wires_quiet (fuel d i : nat) (s : World) :
  (i <= length (d_wires (driver_at s d)))%nat ->
  (length (d_wires (driver_at s d)) < fuel + i)%nat ->
  notify_wires E fuel d i s
  = Ok (fold_left notify (drop i (d_wires (driver_at s d))) s).
Proof.
  revert i s. induction fuel as [|fuel IH]; intros i s Hi Hf; [lia|]. simpl.
  destruct (d_wires (driver_at s d) !! i) as [w|] eqn:Hl.
  - rewrite (drop_S _ _ _ Hl). cbn [fold_left].
    assert (Hd : drivers (notify s w) = drivers s) by apply notify_drivers.
    apply lookup_lt_Some in Hl.
    rewrite <- (driver_at_drivers _ _ d Hd).
    apply IH; rewrite (driver_at_drivers _ _ d Hd); lia.
  - apply lookup_ge_None in Hl. by rewrite drop_ge.
Qed.

End QuietDrive.

Section QuietBatch.

Variable E : handlers.
Hypothesis E_quiet : quiet E.

(** The third loop, for callbacks that do not re-enter: it returns, clears
    the flag of every driver of the batch, and visits the wires of the
    flagged ones. *)
Lemma multi_drive_notify_spec (fuel : nat) (drives : list struct_qemu_wire_drive)
    (s : World) :
  enough_fuel fuel drives s = true ->
  exists s3,
    multi_drive_notify E fuel drives s = Ok s3
    ∧ (forall d,
         driver_at s3 d
         = if bool_decide (Some d ∈ map wd_driver drives)
           then set_d_changed false (driver_at s d) else driver_at s d)
    ∧ (forall w,
         wire_at s3 w
         = if bool_decide (w ∈ batch_wires drives s) then notified (wire_at s w)
           else wire_at s w)
    ∧ forall w p, about w p ->
        count p (trace s3)
        = ((if bool_decide (w ∈ batch_wires drives s)
            then count p (notify_events w (wire_at s w)) else 0)
           + count p (trace s))%nat.
Proof.
  revert s. induction drives as [|wd rest IH]; intros s Hf.
  { exists s. simpl. repeat split; done. }
  assert (Hf' : enough_fuel fuel rest s = true).
  { unfold enough_fuel in *. simpl in Hf. by apply andb_true_iff in Hf as [_ ?]. }
  cbn [multi_drive_notify].
  destruct (wd_driver wd) as [d|] eqn:Hdr.
  2:{ destruct (IH s Hf') as (s3 & Hr & Hd & Hw & Ht). exists s3.
      assert (Hbw : batch_wires (wd :: rest) s = batch_wires rest s)
        by (unfold batch_wires; simpl; by rewrite Hdr).
      rewrite Hbw. repeat split; try done.
      intros d. rewrite Hd. cbn [map]. rewrite Hdr.
      rewrite (bool_decide_ext (Some d ∈ None :: map wd_driver rest)
                 (Some d ∈ map wd_driver rest)); [done|].
      rewrite elem_of_cons. intuition congruence. }
  destruct (d_changed (driver_at s d)) eqn:Hc.
  2:{ destruct (IH s Hf') as (s3 & Hr & Hd & Hw & Ht). exists s3.
      assert (Hbw : batch_wires (wd :: rest) s = batch_wires rest s)
        by (unfold batch_wires; simpl; by rewrite Hdr, Hc).
      rewrite Hbw. repeat split; try done.
      intros d'. rewrite Hd. cbn [map]. rewrite Hdr.
      destruct (decide (d' = d)) as [->|Hne].
      - rewrite (bool_decide_eq_true_2 (Some d ∈ Some d :: map wd_driver rest))
          by apply list_elem_of_here.
        rewrite <- Hc at 2. rewrite set_d_changed_id.
        destruct (bool_decide (Some d ∈ map wd_driver rest)); [|done].
        rewrite <- Hc. by rewrite set_d_changed_id.
      - rewrite (bool_decide_ext (Some d' ∈ Some d :: map wd_driver rest)
                   (Some d' ∈ map wd_driver rest)); [done|].
        rewrite elem_of_cons. intuition congruence. }
  set (y := driver_at s d) in *.
  set (sa := put_driver d (set_d_changed false y) s).
  assert (Hya : driver_at sa d = set_d_changed false y).
  { unfold sa. rewrite driver_at_put_driver. by rewrite decide_True. }
  assert (Hlen : (length (d_wires y) < fuel)%nat).
  { apply (enough_fuel_elem fuel (wd :: rest) s d Hf). cbn [map]. rewrite Hdr.
    apply list_elem_of_here. }
  rewrite (notify_wires_quiet E E_quiet fuel d 0 sa); rewrite Hya; simpl; try lia.
  set (sb := fold_left (fun s w => wire_notify_if_changed E w s) (d_wires y) sa).
  assert (Hdb : forall d', driver_at sb d'
                  = if decide (d' = d) then set_d_changed false y else driver_at s d').
  { intros d'. unfold sb.
    rewrite (driver_at_drivers sa _ d' (notifies_drivers E E_quiet _ sa)).
    apply driver_at_put_driver. }
  assert (Hwb : forall w, wire_at sb w
                  = if bool_decide (w ∈ d_wires y) then notified (wire_at s w)
                    else wire_at s w).
  { intros w. unfold sb. by rewrite (notifies_wire E E_quiet). }
  assert (Htb : forall w p, about w p ->
                  count p (trace sb)
                  = ((if bool_decide (w ∈ d_wires y)
                      then count p (notify_events w (wire_at s w)) else 0)
                     + count p (trace s))%nat).
  { intros w p Hp. unfold sb. by rewrite (notifies_trace E E_quiet _ _ w p Hp). }
  destruct (IH sb) as (s3 & Hr & Hd & Hw & Ht).
  { rewrite (enough_fuel_wires fuel rest s sb); [done|].
    intros d'. rewrite Hdb. by destruct (decide (d' = d)) as [->|]. }
  exists s3. split; [done|].
  assert (Hiff : forall w, w ∈ batch_wires (wd :: rest) s
                           <-> w ∈ d_wires y ∨ w ∈ batch_wires rest sb).
  { intros w. rewrite !elem_of_batch_wires. split.
    - intros (d' & Hin & Hc' & Hw').
      destruct (decide (d' = d)) as [->|Hne]; [by left|].
      right. exists d'. rewrite Hdb, decide_False by done.
      split; [|done]. cbn [map] in Hin. rewrite Hdr in Hin.
      apply elem_of_cons in Hin as [Hin|Hin]; [congruence|done].
    - intros [Hw'|(d' & Hin & Hc' & Hw')].
      + exists d. split; [|done]. cbn [map]. rewrite Hdr. apply list_elem_of_here.
      + rewrite Hdb in Hc', Hw'.
        destruct (decide (d' = d)) as [->|Hne]; [done|].
        exists d'. split; [|done]. cbn [map]. by apply list_elem_of_further. }
  split; [|split].
  - intros d'. rewrite Hd, Hdb. cbn [map]. rewrite Hdr.
    destruct (decide (d' = d)) as [->|Hne].
    + rewrite (bool_decide_eq_true_2 (Some d ∈ Some d :: map wd_driver rest))
        by apply list_elem_of_here.
      by destruct (bool_decide (Some d ∈ map wd_driver rest)).
    + rewrite (bool_decide_ext (Some d' ∈ Some d :: map wd_driver rest)
                 (Some d' ∈ map wd_driver rest)); [done|].
      rewrite elem_of_cons. intuition congruence.
  - intros w. rewrite Hw, Hwb.
    destruct (bool_decide_reflect (w ∈ d_wires y)) as [Hin|Hin].
    + rewrite (bool_decide_eq_true_2 (w ∈ batch_wires (wd :: rest) s))
        by (apply Hiff; by left).
      rewrite notified_idem. by destruct (bool_decide (w ∈ batch_wires rest sb)).
    + rewrite (bool_decide_ext (w ∈ batch_wires (wd :: rest) s)
                 (w ∈ batch_wires rest sb)); [done|].
      rewrite Hiff. intuition.
  - intros w p Hp. rewrite (Ht w p Hp), (Htb w p Hp), Hwb.
    destruct (bool_decide_reflect (w ∈ d_wires y)) as [Hin|Hin].
    + rewrite (bool_decide_eq_true_2 (w ∈ batch_wires (wd :: rest) s))
        by (apply Hiff; by left).
      rewrite notify_events_notified, count_nil.
      by destruct (bool_decide (w ∈ batch_wires rest sb)).
    + rewrite (bool_decide_ext (w ∈ batch_wires (wd :: rest) s)
                 (w ∈ batch_wires rest sb)); [lia|].
      rewrite Hiff. intuition.
Qed.

End QuietBatch.

(** ** The whole of [qemu_wire_multi_drive] *)

Lemma multi_drive_apply_wires (drives : list struct_qemu_wire_drive) (s : World) (d : nat) :
  d_wires (driver_at (multi_drive_apply drives s) d) = d_wires (driver_at s d).
Proof.
  unfold multi_drive_apply. revert s.
  induction drives as [|wd rest IH]; intros s; [done|]. simpl. rewrite IH.
  unfold drive_apply. destruct (wd_driver wd) as [d'|]; [|done].
  destruct (drive_differs (driver_at s d') wd); [|done].
  destruct (mark_wires_spec (d_wires (driver_at s d'))
              (put_driver d' (set_d_drive wd (driver_at s d')) s)) as (Hd & _).
  rewrite (driver_at_drivers _ _ d Hd), driver_at_put_driver.
  by destruct (decide (d = d')) as [->|].
Qed.

Lemma updated_marked (s1 : World) (x : WireState) :
  w_changed x = false -> w_driver_changed x = false ->
  updated s1 (set_w_driver_changed true x)
  = let acc := wire_resolve s1 (w_attachments x) in
    set_w_resolved (fst acc) (snd acc) (wire_differs x (fst acc) (snd acc)) x.
Proof.
  intros Hc Hf. unfold updated. simpl. rewrite Hc.
  destruct x; simpl in *; subst. reflexivity.
Qed.

Lemma notified_resolved (best : struct_qemu_wire_drive) (c changed : bool)
    (x : WireState) :
  w_in_callback x = false ->
  notified (set_w_resolved best c changed x) = set_w_resolved best c false x.
Proof.
  intros Hi. unfold notified. simpl.
  destruct x; simpl in *; subst. by destruct changed.
Qed.

Section QuietMultiDrive.

Variable E : handlers.
Hypothesis E_quiet : quiet E.

(** The drivers after a batch, from any world. *)
Lemma qemu_wire_multi_drive_drivers (fuel : nat)
    (drives : list struct_qemu_wire_drive) (s0 : World) :
  enough_fuel fuel drives s0 = true ->
  exists s3,
    qemu_wire_multi_drive E fuel drives s0 = Ok s3
    ∧ forall d,
        driver_at s3 d
        = if bool_decide (Some d ∈ map wd_driver drives)
          then set_d_changed false (driver_at (multi_drive_apply drives s0) d)
          else driver_at (multi_drive_apply drives s0) d.
Proof.
  intros Hf. unfold qemu_wire_multi_drive.
  set (s1 := multi_drive_apply drives s0).
  destruct (multi_drive_update_spec drives s1) as (Hd2 & _).
  set (s2 := multi_drive_update drives s1) in *.
  destruct (multi_drive_notify_spec E E_quiet fuel drives s2) as (s3 & Hr & Hd3 & _).
  { rewrite (enough_fuel_wires fuel drives s0 s2); [done|].
    intros d. rewrite (driver_at_drivers s1 s2) by done.
    apply multi_drive_apply_wires. }
  exists s3. split; [done|].
  intros d. rewrite Hd3. by rewrite (driver_at_drivers s1 s2).
Qed.

(** A batch from a settled world, for callbacks that do not re-enter: the
    call returns; a wire the batch touches caches the tuple resolved from
    the drivers as the first loop leaves them, and has its flags clear;
    [wire_update] ran on it once, and its listeners were called once when
    the tuple differs from the one cached before; nothing else in the heap
    of wires changes. *)
Lemma qemu_wire_multi_drive_spec (fuel : nat)
    (drives : list struct_qemu_wire_drive) (s0 : World) :
  settled s0 = true ->
  enough_fuel fuel drives s0 = true ->
  exists s3,
    qemu_wire_multi_drive E fuel drives s0 = Ok s3
    ∧ (forall d,
         driver_at s3 d = set_d_changed false (driver_at (multi_drive_apply drives s0) d))
    ∧ (forall w,
         wire_at s3 w
         = if affected drives s0 w
           then driven (multi_drive_apply drives s0) (wire_at s0 w)
           else wire_at s0 w)
    ∧ forall w p, about w p ->
        count p (trace s3)
        = ((if affected drives s0 w
            then count p (batch_events (multi_drive_apply drives s0) w (wire_at s0 w))
            else 0)
           + count p (trace s0))%nat.
Proof.
  intros Hs0 Hf.
  destruct (multi_drive_apply_spec drives s0 Hs0) as (Ht1 & Hwi1 & Hfl1 & Hw1).
  apply settled_spec in Hs0 as [Hw0 Hd0].
  unfold qemu_wire_multi_drive, affected.
  set (s1 := multi_drive_apply drives s0) in *.
  destruct (multi_drive_update_spec drives s1) as (Hd2 & Hw2 & Ht2).
  set (s2 := multi_drive_update drives s1) in *.
  destruct (multi_drive_notify_spec E E_quiet fuel drives s2)
    as (s3 & Hr & Hd3 & Hw3 & Ht3).
  { rewrite (enough_fuel_wires fuel drives s0 s2); [done|].
    intros d. rewrite (driver_at_drivers s1 s2) by done. apply Hwi1. }
  rewrite (batch_wires_drivers drives s1 s2 Hd2) in Hw3, Ht3.
  exists s3. split; [done|]. split; [|split].
  - intros d. rewrite Hd3, (driver_at_drivers s1 s2) by done.
    destruct (bool_decide_reflect (Some d ∈ map wd_driver drives)) as [Hin|Hin];
      [done|].
    destruct (d_changed (driver_at s1 d)) eqn:Hc; [by apply Hfl1 in Hc|].
    rewrite <- Hc. by rewrite set_d_changed_id.
  - intros w. rewrite Hw3, Hw2, Hw1.
    specialize (Hw0 w). apply wire_settled_flags in Hw0 as (Hc & Hi & Hdc).
    destruct (bool_decide (w ∈ batch_wires drives s1)).
    + rewrite updated_marked by done. simpl.
      by rewrite notified_resolved.
    + rewrite <- Hdc at 1. by rewrite set_w_driver_changed_id.
  - intros w p Hp. rewrite (Ht3 w p Hp), (Ht2 w p Hp), Hw2, Hw1, Ht1.
    specialize (Hw0 w). apply wire_settled_flags in Hw0 as (Hc & Hi & Hdc).
    destruct (bool_decide (w ∈ batch_wires drives s1)); [|lia].
    rewrite updated_marked by done. unfold batch_events, update_events.
    cbn [w_driver_changed set_w_driver_changed].
    unfold notify_events. simpl.
    rewrite (count_cons p (EvResolve w) (if wire_differs _ _ _ then _ else _)).
    rewrite (count_cons p (EvResolve w) []), count_nil. lia.
Qed.

End QuietMultiDrive.

(** ** Batches: resolved once, notified at most once *)

Lemma recorders_quiet : quiet TestWire.recorders.
Proof.
  split.
  - intros f opaque wire s.
    change (call_wire_handler TestWire.recorders f opaque wire s)
      with (TestWire.recorder_handler opaque wire s).
    unfold TestWire.recorder_handler.
    destruct (qemu_wire_sense (Some wire) s). reflexivity.
  - intros h opaque value weakest ws s. reflexivity.
Qed.

Lemma spec_changed_same (r : resolved) : ¬ spec_changed false r r.
Proof. unfold spec_changed. intuition congruence. Qed.

Lemma count_calls_none (p : event -> bool) (w : nat) (ls : list wire_listener) :
  (forall lis, p (EvCall lis w) = false) ->
  count p (map (fun lis => EvCall lis w) ls) = 0%nat.
Proof.
  intros Hp. induction ls as [|lis ls IH]; [done|]. simpl.
  by rewrite count_cons, IH, Hp.
Qed.

(** The events of a batch on a wire, counted. *)
Lemma count_batch_events (s1 : World) (w : nat) (x : WireState) :
  let differs :=
    bool_decide (spec_changed false (cached x) (cached (driven s1 x))) in
  count (is_resolve w) (batch_events s1 w x) = 1%nat
  ∧ count (is_notify w) (batch_events s1 w x) = (if differs then 1 else 0)%nat
  ∧ count (is_call w) (batch_events s1 w x)
    = (if differs then length (w_listeners x) else 0)%nat
  ∧ forall lis,
      count (is_call_of lis w) (batch_events s1 w x)
      = (if differs then entries lis (w_listeners x) else 0)%nat.
Proof.
  simpl. unfold batch_events, driven.
  change (cached (set_w_resolved ?b ?c false x)) with (resolved_of (b, c)).
  rewrite <- surjective_pairing, <- wire_differs_spec.
  assert (Hw : bool_decide (w = w) = true) by by apply bool_decide_eq_true_2.
  destruct (wire_differs x _ _).
  - split; [|split; [|split]].
    + rewrite !count_cons, count_calls_none by done. simpl. by rewrite Hw.
    + rewrite !count_cons, count_calls_none by done. simpl. by rewrite Hw.
    + rewrite !count_cons, count_is_call_map. done.
    + intros lis. rewrite !count_cons, count_is_call_of_map. done.
  - split; [|split; [|split]].
    + rewrite count_cons, count_nil. simpl. by rewrite Hw.
    + by rewrite count_cons, count_nil.
    + by rewrite count_cons, count_nil.
    + intros lis. by rewrite count_cons, count_nil.
Qed.

(** C3, as the code has it.  From a settled world and with callbacks that
    do not re-enter, [qemu_wire_multi_drive] returns, and for every wire:
    [wire_update] runs on it once when it is attached to a driver the batch
    changes and not at all otherwise; its listeners are notified once when
    the tuple it caches after the batch differs, by the predicate of
    section 4.1, from the tuple it cached before, and not at all otherwise,
    each listener being called once per entry in the listener vector; a
    wire that is attached to no driver the batch changes is left as it
    is. *)
Theorem batch_drive_resolves_once_notifies_on_change (E : handlers) (fuel : nat)
    (drives : list struct_qemu_wire_drive) (s : World) :
  quiet E ->
  settled s = true ->
  enough_fuel fuel drives s = true ->
  exists s',
    qemu_wire_multi_drive E fuel drives s = Ok s'
    ∧ forall w,
        let differs :=
          bool_decide (spec_changed false (cached (wire_at s w)) (cached (wire_at s' w))) in
        resolutions w s' = (resolutions w s + (if affected drives s w then 1 else 0))%nat
        ∧ notifications w s' = (notifications w s + (if differs then 1 else 0))%nat
        ∧ (forall lis,
             calls_of lis w s'
             = (calls_of lis w s
                + (if differs then entries lis (w_listeners (wire_at s w)) else 0))%nat)
        ∧ (affected drives s w = false -> wire_at s' w = wire_at s w).
Proof.
  intros HE Hs Hf.
  destruct (qemu_wire_multi_drive_spec E HE fuel drives s Hs Hf)
    as (s' & Hr & _ & Hw & Ht).
  exists s'. split; [done|]. intros w. simpl.
  unfold resolutions, notifications, calls_of.
  rewrite (Ht w _ (about_is_resolve w)), (Ht w _ (about_is_notify w)), Hw.
  destruct (count_batch_events (multi_drive_apply drives s) w (wire_at s w))
    as (Hres & Hnot & _ & Hof).
  simpl in Hnot, Hof.
  destruct (affected drives s w) eqn:Ha.
  - rewrite Hres, Hnot. split; [lia|]. split; [lia|]. split; [|done].
    intros lis. rewrite (Ht w _ (about_is_call_of lis w)), Ha, Hof. lia.
  - rewrite (bool_decide_eq_false_2 _ (spec_changed_same _)).
    split; [lia|]. split; [lia|]. split; [|done].
    intros lis. rewrite (Ht w _ (about_is_call_of lis w)), Ha. lia.
Qed.

Lemma batch_drive_resolves_once_notifies_on_change_witness :
  exists s',
    qemu_wire_multi_drive TestWire.recorders 8 Scenario.strong_high Scenario.pulled_high
    = Ok s'
    ∧ resolutions 0 s' = (resolutions 0 Scenario.pulled_high + 1)%nat
    ∧ notifications 0 s' = notifications 0 Scenario.pulled_high.
Proof.
  destruct (batch_drive_resolves_once_notifies_on_change TestWire.recorders 8
              Scenario.strong_high Scenario.pulled_high recorders_quiet)
    as (s' & Hr & Hw); [vm_compute; reflexivity..|].
  exists s'. split; [exact Hr|].
  destruct (Hw 0%nat) as (Hres & Hnot & _).
  assert (Hs' : Ok s'
                = qemu_wire_multi_drive TestWire.recorders 8 Scenario.strong_high
                    Scenario.pulled_high) by (symmetry; exact Hr).
  vm_compute in Hs'. injection Hs' as ->.
  split; [exact Hres | exact Hnot].
Defined.

(** C3 as stated fails: driver 2 is attached to wire 0 and the batch
    changes it from HI_Z to a weak 0 under the strong 1 of driver 1;
    [wire_update] runs on wire 0, and its listener is not called. *)
Lemma changed_driver_without_notification :
  exists s',
    qemu_wire_multi_drive TestWire.recorders 8 Scenario.weak_low Scenario.shadowed = Ok s'
    ∧ settled Scenario.shadowed = true
    ∧ d_wires (driver_at Scenario.shadowed 2) = [0%nat]
    ∧ forallb (fun wd => drive_differs (driver_at Scenario.shadowed 2) wd)
        Scenario.weak_low = true
    ∧ d_strength (driver_at s' 2) = STRENGTH_WEAK
    ∧ resolutions 0 s' = (resolutions 0 Scenario.shadowed + 1)%nat
    ∧ notifications 0 s' = notifications 0 Scenario.shadowed
    ∧ calls 0 s' = calls 0 Scenario.shadowed.
Proof. eexists. vm_compute. repeat split; reflexivity. Qed.

(** Whatever the callbacks: when [wire_update] finds [changed] clear and
    changes nothing but a strength that is and stays other than HI_Z,
    [changed] stays clear and [wire_notify_if_changed] does nothing. *)
Lemma wire_update_strength_only_silent (E : handlers) (s : World) (w : nat) :
  let old := wire_at s w in
  let new := wire_at (wire_update w s) w in
  w_changed old = false ->
  w_strength old ≠ STRENGTH_HI_Z -> w_strength new ≠ STRENGTH_HI_Z ->
  w_value_mode new = w_value_mode old -> w_value new = w_value old ->
  w_is_conflict new = w_is_conflict old ->
  wire_notify_if_changed E w (wire_update w s) = wire_update w s.
Proof.
  simpl. intros Hc H0 H1 Hm Hv Hk. unfold wire_notify_if_changed.
  rewrite wire_at_wire_update in *. simpl in *. rewrite Hc.
  rewrite wire_differs_spec, bool_decide_eq_false_2; [done|].
  unfold spec_changed, cached, resolved_of; simpl. intuition congruence.
Qed.



(** ** The 3-bit strength *)

Lemma drive_apply_strength (s : World) (wd : struct_qemu_wire_drive) (d : nat) :
  wd_driver wd = Some d ->
  d_strength (driver_at (drive_apply s wd) d) = wd_strength wd.
Proof.
  intros Hd. unfold drive_apply. rewrite Hd.
  destruct (drive_differs (driver_at s d) wd) eqn:Hdf.
  - destruct (mark_wires_spec (d_wires (driver_at s d))
                (put_driver d (set_d_drive wd (driver_at s d)) s)) as (Hm & _).
    rewrite (driver_at_drivers _ _ d Hm), driver_at_put_driver.
    by rewrite decide_True.
  - unfold drive_differs in Hdf. apply negb_false_iff in Hdf.
    apply andb_true_iff in Hdf as [Hdf _]. apply andb_true_iff in Hdf as [Hdf _].
    by apply Z.eqb_eq in Hdf.
Qed.

(** Driving with strength 8 leaves the wire undriven: the recorder of
    wire 0 appends "z". *)
Example drive_strength_8_is_hi_z :
  exists s',
    qemu_wire_drive TestWire.recorders 8 (Some 1%nat) 8 true Scenario.pulled_high = Ok s'
    ∧ qemu_wire_sense (Some 0%nat) s' = (false, STRENGTH_HI_Z)
    ∧ TestWire.buffer (Ok s') 100 = Some "1z"%string.
Proof. eexists. vm_compute. repeat split; reflexivity. Qed.

(** ** Transient flags across the public operations *)

Lemma settled_put_wire (w : nat) (x : WireState) (s : World) :
  settled s = true -> wire_settled x = true -> settled (put_wire w x s) = true.
Proof.
  intros [Hw Hd]%settled_spec Hx. apply settled_spec. split; [|done].
  intros w'. rewrite wire_at_put_wire. by destruct (decide (w' = w)).
Qed.

Lemma settled_put_driver (d : nat) (y : WireDriverState) (s : World) :
  settled s = true -> d_changed y = false -> settled (put_driver d y s) = true.
Proof.
  intros [Hw Hd]%settled_spec Hy. apply settled_spec. split; [done|].
  intros d'. rewrite driver_at_put_driver. by destruct (decide (d' = d)).
Qed.

Lemma settled_listen (wire : option nat) (h : handler) (opaque : nat) (s : World) :
  settled s = true -> settled (qemu_wire_listen wire h opaque s) = true.
Proof.
  intros Hs. destruct wire as [w|]; [|done]. simpl.
  apply settled_put_wire; [done|]. apply (settled_wire s w Hs).
Qed.

Lemma settled_unlisten (wire : option nat) (h : handler) (opaque : nat) (s : World) :
  settled s = true -> settled (qemu_wire_unlisten wire h opaque s) = true.
Proof.
  intros Hs. destruct wire as [w|]; [|done]. simpl.
  apply settled_put_wire; [done|]. apply (settled_wire s w Hs).
Qed.

Lemma settled_fold_wires (f : World -> option nat -> World) (ws : list (option nat))
    (s : World) :
  (forall s wire, settled s = true -> settled (f s wire) = true) ->
  settled s = true -> settled (fold_left f ws s) = true.
Proof.
  intros Hf. revert s. induction ws as [|wire ws IH]; intros s Hs; simpl; auto.
Qed.

Section QuietOperations.

Variable E : handlers.
Hypothesis E_quiet : quiet E.

Lemma settled_multi_drive (fuel : nat) (drives : list struct_qemu_wire_drive)
    (s : World) :
  settled s = true -> enough_fuel fuel drives s = true ->
  exists s', qemu_wire_multi_drive E fuel drives s = Ok s' ∧ settled s' = true.
Proof.
  intros Hs Hf.
  destruct (qemu_wire_multi_drive_spec E E_quiet fuel drives s Hs Hf)
    as (s' & Hr & Hd & Hw & _).
  exists s'. split; [done|]. apply settled_spec. split.
  - intros w. rewrite Hw. pose proof (settled_wire s w Hs) as Hx.
    destruct (affected drives s w); [|done].
    apply wire_settled_flags in Hx as (_ & Hi & Hdc).
    apply wire_settled_flags. by unfold driven.
  - intros d. by rewrite Hd.
Qed.

Lemma settled_detach (w d : nat) (s : World) :
  settled s = true ->
  exists s', qemu_wire_detach E (Some w) (Some d) s = Ok s' ∧ settled s' = true.
Proof.
  intros Hs. unfold qemu_wire_detach.
  set (sa := put_driver d _ s).
  set (sb := put_wire w _ sa).
  assert (Hsb : settled sb = true).
  { apply settled_put_wire; [apply settled_put_driver; [done|]|].
    - apply (settled_driver s d Hs).
    - apply (settled_wire sa w). apply settled_put_driver; [done|].
      apply (settled_driver s d Hs). }
  eexists. split; [reflexivity|].
  destruct (wire_notify_if_changed_quiet E E_quiet w (wire_update w sb))
    as (Hd & Hw & _).
  apply settled_spec. split.
  - intros w'. rewrite Hw. destruct (decide (w' = w)) as [->|Hne].
    + rewrite wire_at_wire_update. simpl.
      pose proof (settled_wire sb w Hsb) as Hx.
      apply wire_settled_flags in Hx as (_ & Hi & Hdc).
      rewrite notified_resolved by done. by apply wire_settled_flags.
    + rewrite wire_at_wire_update_ne by done. apply (settled_wire sb w' Hsb).
  - intros d'. rewrite (driver_at_drivers (wire_update w sb)) by done.
    rewrite (driver_at_drivers sb) by apply drivers_wire_update.
    apply (settled_driver sb d' Hsb).
Qed.

End QuietOperations.

(** X28.  From a world in which all transient flags are clear, and with
    callbacks that do not re-enter the library, every public operation
    other than attach or detach of a [NULL] driver returns and leaves
    [changed], [in_callback] and [driver_changed] clear on every wire and
    [changed] clear on every driver. *)
Theorem operations_leave_flags_clear (E : handlers) (fuel : nat) (op : operation)
    (s : World) :
  quiet E ->
  settled s = true ->
  op_fuel fuel op s = true ->
  null_driver_fault op = false ->
  exists s', run E fuel op s = Ok s' ∧ settled s' = true.
Proof.
  intros HE Hs Hf Hn.
  assert (Hdrive : forall wd d, wd_driver wd = Some d ->
            (length (d_wires (driver_at s d)) <? fuel)%nat = true ->
            exists s', qemu_wire_multi_drive E fuel [wd] s = Ok s' ∧ settled s' = true).
  { intros wd d Hd Hl. apply (settled_multi_drive E HE); [done|].
    unfold enough_fuel. simpl. by rewrite Hd, Hl. }
  destruct op as [wire driver|wire driver|wire v|driver strength dval
                 |driver strength aval|driver|drives|wire h opaque|wire h opaque
                 |wire|wire|wire|wire|ws|ws h opaque ml|token];
    simpl in *; try (by exists s).
  - destruct wire as [w|]; [|by exists s]. destruct driver as [d|]; [|done].
    eexists. split; [reflexivity|].
    set (sa := put_wire w _ s).
    assert (Hsa : settled sa = true)
      by (apply settled_put_wire; [done | apply (settled_wire s w Hs)]).
    apply settled_put_driver; [done|]. apply (settled_driver sa d Hsa).
  - destruct wire as [w|]; [|by exists s]. destruct driver as [d|]; [|done].
    by apply settled_detach.
  - eexists. split; [reflexivity|]. destruct wire as [w|]; [|done]. simpl.
    apply settled_put_wire; [done|]. apply (settled_wire s w Hs).
  - destruct driver as [d|]; [|by exists s]. by apply (Hdrive _ d).
  - destruct driver as [d|]; [|by exists s]. by apply (Hdrive _ d).
  - destruct driver as [d|]; [|by exists s]. by apply (Hdrive _ d).
  - by apply (settled_multi_drive E HE).
  - eexists. split; [reflexivity|]. by apply settled_listen.
  - eexists. split; [reflexivity|]. by apply settled_unlisten.
  - eexists. split; [reflexivity|]. unfold qemu_wire_multi_listen.
    destruct ws as [|wire ws]; [done|]. cbn [fst].
    apply settled_fold_wires; [|done].
    intros s0 wire0. apply settled_listen.
  - eexists. split; [reflexivity|]. destruct token as [ml|]; [|done]. simpl.
    apply settled_fold_wires; [|done].
    intros s0 wire0. apply settled_unlisten.
Qed.

Lemma operations_leave_flags_clear_witness :
  exists s',
    run TestWire.recorders 8 (OpDetach (Some 0%nat) (Some 1%nat)) Scenario.pulled_high
    = Ok s'
    ∧ settled s' = true.
Proof.
  apply (operations_leave_flags_clear TestWire.recorders 8
           (OpDetach (Some 0%nat) (Some 1%nat)) Scenario.pulled_high recorders_quiet);
    vm_compute; reflexivity.
Defined.

(** C6.  The code at a failing input: driver 1 feeds wires 0, 1 and 2,
    and the listener of wire 1 detaches driver 1 from wire 0.  Driving
    driver 1 from the settled world notifies wires 0 and 1; the detachment
    moves wire 2 to the index the third loop of [qemu_wire_multi_drive] has
    just left, the loop ends, and the call returns with [changed] set on
    wire 2, whose listener was not called, although the wire went from
    HI_Z to a pulled 1. *)
Lemma detaching_listener_leaves_changed :
  exists s',
    run Scenario.detaching 8 (OpDrive (Some 1%nat) STRENGTH_PULL true) Scenario.fan_out
    = Ok s'
    ∧ settled Scenario.fan_out = true
    ∧ d_wires (driver_at Scenario.fan_out 1) = [0; 1; 2]%nat
    ∧ d_wires (driver_at s' 1) = [1; 2]%nat
    ∧ w_changed (wire_at s' 2) = true
    ∧ calls 2 s' = 0%nat
    ∧ settled s' = false.
Proof. eexists. vm_compute. repeat split; reflexivity. Qed.

(** * Further properties *)

(** ** Vectors *)

Example test_vector_asserts :
  Vector.test_vector
  = Some ([[]; [8]; [8; 9]; [7; 8; 9]; [7; 9]; [7]; []; [6]], [Some 9; Some 7]).
Proof. vm_compute. reflexivity. Qed.


Lemma omap_id_fmap_Some {A : Type} (E : list A) : omap id (Some <$> E) = E.
Proof. induction E as [|x E IH]; csimpl; [done|]. by rewrite IH. Qed.

(** A well-formed vector is its elements followed by unused slots. *)
Lemma vector_wf_inv {A : Type} (v : Vector.vector A) :
  Vector.wf v ->
  exists rest,
    Vector.base v = (Some <$> Vector.elems v) ++ rest
    ∧ Vector.len v = length (Vector.elems v)
    ∧ Vector.alloc v = length (Vector.base v).
Proof.
  intros (Ha & Hl & Ht). exists (drop (Vector.len v) (Vector.base v)).
  split; [|split; [|done]].
  - by rewrite <- Ht, take_drop.
  - assert (Hlen : length (take (Vector.len v) (Vector.base v)) = Vector.len v)
      by (rewrite length_take; lia).
    rewrite Ht, length_fmap in Hlen. done.
Qed.

Lemma vector_wf_intro {A : Type} (E : list A) (rest : list (option A)) (n k : nat) :
  n = length E -> k = length ((Some <$> E) ++ rest) ->
  let v := {| Vector.base := (Some <$> E) ++ rest; Vector.len := n; Vector.alloc := k |} in
  Vector.wf v ∧ Vector.elems v = E.
Proof.
  intros -> ->. simpl.
  assert (Ht : take (length E) ((Some <$> E) ++ rest) = Some <$> E).
  { rewrite take_app_length'; [done|]. by rewrite length_fmap. }
  assert (He : Vector.elems
                 {| Vector.base := (Some <$> E) ++ rest; Vector.len := length E;
                    Vector.alloc := length ((Some <$> E) ++ rest) |} = E).
  { unfold Vector.elems. simpl. by rewrite Ht, omap_id_fmap_Some. }
  split; [|done]. split; [done|]. split.
  - simpl. rewrite length_app, length_fmap. lia.
  - rewrite He. done.
Qed.

Lemma grow_alloc_round (n : Z) :
  0 <= n < 2 ^ 32 ->
  Vector.grow_alloc n = 128 * (((n + 127) mod 2 ^ 32) / 128).
Proof.
  intros Hn. unfold Vector.grow_alloc.
  set (x := (n + 127) mod 2 ^ 32).
  assert (Hx : 0 <= x < 2 ^ 32) by (apply Z.mod_pos_bound; lia).
  rewrite <- (Z.land_ones (Z.lnot 127) 32) by lia.
  rewrite Z.land_assoc, (Z.land_comm x), <- Z.land_assoc.
  rewrite (Z.land_ones x 32) by lia. rewrite (Z.mod_small x) by lia.
  rewrite Z.land_comm.
  change 127 with (Z.ones 7). rewrite <- Z.ldiff_land, Z.ldiff_ones_r by lia.
  rewrite Z.shiftr_div_pow2, Z.shiftl_mul_pow2 by lia.
  change (2 ^ 7) with 128. lia.
Qed.

Lemma delete_out_of_range {A : Type} (l : list A) (i : nat) :
  (length l <= i)%nat -> delete i l = l.
Proof.
  revert i. induction l as [|x l IH]; intros i Hi; [done|].
  destruct i as [|i]; simpl in *; [lia|]. f_equal. apply IH. lia.
Qed.

Lemma grow_alloc_bounds (n : Z) :
  0 <= n <= 2 ^ 32 - 128 ->
  n <= Vector.grow_alloc n < n + 128 ∧ Vector.grow_alloc n mod 128 = 0.
Proof.
  intros Hn. rewrite grow_alloc_round by lia.
  rewrite (Z.mod_small (n + 127)) by lia.
  split; [|by rewrite Z.mul_comm, Z.mod_mul].
  pose proof (Z.div_mod (n + 127) 128) as Hd.
  pose proof (Z.mod_pos_bound (n + 127) 128). lia.
Qed.

(** A request that does not wrap is granted and keeps the contents. *)
Lemma vector_grow_keeps {A : Type} (v : Vector.vector A) (n : Z) :
  Vector.wf v ->
  0 <= n <= 2 ^ 32 - 128 ->
  exists v',
    Vector.vector_grow v n = (v', true) ∧ Vector.wf v'
    ∧ Vector.elems v' = Vector.elems v ∧ Vector.len v' = Vector.len v
    ∧ n <= Z.of_nat (Vector.alloc v')
    ∧ (n <= Z.of_nat (Vector.alloc v) -> v' = v)
    ∧ (Z.of_nat (Vector.alloc v) < n ->
       Z.of_nat (Vector.alloc v') = Vector.grow_alloc n).
Proof.
  intros Hwf Hn. unfold Vector.vector_grow.
  destruct (Z.gtb_spec n (Z.of_nat (Vector.alloc v))) as [Hlt|Hge].
  2:{ exists v. split; [done|]. split; [done|]. split; [done|]. split; [done|].
      split; [lia|]. split; [done|]. intros; exfalso; lia. }
  destruct (grow_alloc_bounds n Hn) as [Hb Hm].
  destruct (Z.eqb_spec (Vector.grow_alloc n) 0) as [H0|H0]; [lia|].
  destruct (vector_wf_inv v Hwf) as (rest & Hbase & Hlen & Hal).
  set (k := Z.to_nat (Vector.grow_alloc n)).
  assert (Hk : (length (Vector.base v) <= k)%nat) by lia.
  assert (Hre : Vector.realloc (Vector.base v) k
                = (Some <$> Vector.elems v)
                  ++ (rest ++ replicate (k - length (Vector.base v)) None)).
  { unfold Vector.realloc. rewrite take_ge by done.
    rewrite Hbase at 1. by rewrite <- app_assoc. }
  rewrite Hre.
  destruct (vector_wf_intro (Vector.elems v)
              (rest ++ replicate (k - length (Vector.base v)) None)
              (Vector.len v) k Hlen) as [Hw He].
  { rewrite <- Hre. unfold Vector.realloc.
    rewrite length_app, length_take, length_replicate. lia. }
  eexists. split; [done|]. split; [done|]. split; [done|]. split; [done|].
  simpl. split; [lia|]. split; [intros; exfalso; lia|]. intros _. lia.
Qed.

(** X1.  [vector_grow] for a request of at most [2^32 - 128] elements
    succeeds, keeps the elements and the length, and leaves room for the
    request; when it reallocates, the new size is the request rounded up to
    a multiple of 128.  A larger request wraps the rounding to 0 and the
    call fails. *)
Theorem vector_grow_capacity {A : Type} (v : Vector.vector A) (n : Z) :
  Vector.wf v ->
  0 <= n < 2 ^ 32 ->
  let r := Vector.vector_grow v n in
  (n <= 2 ^ 32 - 128 ->
   snd r = true ∧ Vector.wf (fst r)
   ∧ Vector.elems (fst r) = Vector.elems v
   ∧ Vector.len (fst r) = Vector.len v
   ∧ n <= Z.of_nat (Vector.alloc (fst r))
   ∧ (Z.of_nat (Vector.alloc v) < n ->
      Z.of_nat (Vector.alloc (fst r)) < n + 128
      ∧ Z.of_nat (Vector.alloc (fst r)) mod 128 = 0))
  ∧ (2 ^ 32 - 128 < n -> Z.of_nat (Vector.alloc v) < n -> snd r = false).
Proof.
  intros Hwf Hn. simpl. split.
  - intros Hsmall.
    destruct (vector_grow_keeps v n Hwf) as (v' & -> & Hw & He & Hl & Ha & _ & Hr);
      [lia|]. simpl.
    split; [done|]. split; [done|]. split; [done|]. split; [done|].
    split; [done|]. intros Hlt. rewrite (Hr Hlt).
    destruct (grow_alloc_bounds n) as [Hb Hm]; [lia|]. split; [lia|done].
  - intros Hbig Hlt. unfold Vector.vector_grow.
    destruct (Z.gtb_spec n (Z.of_nat (Vector.alloc v))) as [_|Hge]; [|lia].
    pose proof (grow_alloc_round n Hn) as Hg.
    assert (Hx : (n + 127) mod 2 ^ 32 = n + 127 - 2 ^ 32).
    { symmetry. apply (Z.mod_unique _ _ 1); lia. }
    rewrite Hx in Hg. rewrite (Z.div_small (n + 127 - 2 ^ 32)) in Hg by lia.
    rewrite Hg. done.
Qed.

Lemma vector_grow_capacity_witness :
  Vector.elems (fst (Vector.vector_grow (fst (Vector.VECTOR_APPEND Vector.vector_init 8)) 200))
  = [8]
  ∧ Vector.alloc (fst (Vector.vector_grow (fst (Vector.VECTOR_APPEND Vector.vector_init 8)) 200))
    = 256%nat.
Proof.
  assert (Hwf : Vector.wf (fst (Vector.VECTOR_APPEND (A := Z) Vector.vector_init 8))).
  { split; [vm_compute; reflexivity|]. split; [vm_compute; lia|].
    vm_compute. reflexivity. }
  destruct (vector_grow_capacity _ 200 Hwf) as [H _]; [lia|].
  destruct H as (_ & _ & He & _); [lia|].
  split; [exact He | vm_compute; reflexivity].
Defined.

(** X2.  [vector_del] deletes the element at the index from the elements
    of the vector, and does nothing when the index is not below the
    length. *)
Theorem vector_del_elems {A : Type} (v : Vector.vector A) (i : nat) :
  Vector.wf v ->
  Vector.wf (Vector.vector_del v i)
  ∧ Vector.elems (Vector.vector_del v i) = delete i (Vector.elems v)
  ∧ Vector.alloc (Vector.vector_del v i) = Vector.alloc v.
Proof.
  intros Hwf. destruct (vector_wf_inv v Hwf) as (rest & Hbase & Hlen & Hal).
  unfold Vector.vector_del. destruct (Nat.ltb_spec i (Vector.len v)) as [Hi|Hi].
  2:{ split; [done|]. split; [|done]. symmetry. apply delete_out_of_range. lia. }
  set (E := Vector.elems v) in *.
  set (B := Vector.base v) in *.
  assert (Hsplit : E = take i E ++ drop i E) by by rewrite take_drop.
  destruct (drop i E) as [|x E2] eqn:Hdrop.
  { apply (f_equal length) in Hdrop. rewrite length_drop in Hdrop. simpl in Hdrop. lia. }
  set (E1 := take i E) in *.
  assert (HE1 : length E1 = i) by (unfold E1; rewrite length_take; lia).
  assert (HE2 : length E2 = (Vector.len v - i - 1)%nat).
  { apply (f_equal length) in Hsplit. rewrite length_app in Hsplit.
    simpl in Hsplit. lia. }
  assert (HB : B = (Some <$> E1) ++ Some x :: (Some <$> E2) ++ rest).
  { rewrite Hbase, Hsplit, fmap_app. simpl. by rewrite <- app_assoc. }
  assert (Hmove : Vector.memmove i (i + 1) (Vector.len v - i - 1) B
                  = (Some <$> (E1 ++ E2)) ++ drop (i + (Vector.len v - i - 1)) B).
  { unfold Vector.memmove. rewrite fmap_app, <- app_assoc. f_equal; [|f_equal].
    - rewrite HB. rewrite take_app_length'; [done|]. by rewrite length_fmap.
    - rewrite HB. rewrite (cons_middle (Some x)), app_assoc.
      rewrite drop_app_length'; [|rewrite length_app, length_fmap; simpl; lia].
      rewrite take_app_length'; [done|]. by rewrite length_fmap. }
  rewrite Hmove.
  destruct (vector_wf_intro (E1 ++ E2) (drop (i + (Vector.len v - i - 1)) B)
              (Vector.len v - 1) (Vector.alloc v)) as [Hw He].
  { rewrite length_app. lia. }
  { pose proof (proj1 (proj2 Hwf)) as Hle.
    rewrite length_app, length_fmap, length_app, length_drop. fold B in Hal. lia. }
  split; [done|]. split; [|done]. rewrite He, Hsplit.
  rewrite <- HE1 at 1. by rewrite delete_middle.
Qed.

Lemma vector_del_elems_witness :
  Vector.elems (Vector.vector_del (fst (Vector.VECTOR_APPEND Vector.vector_init 8)) 0) = [].
Proof.
  assert (Hwf : Vector.wf (fst (Vector.VECTOR_APPEND (A := Z) Vector.vector_init 8))).
  { split; [vm_compute; reflexivity|]. split; [vm_compute; lia|].
    vm_compute. reflexivity. }
  destruct (vector_del_elems _ 0%nat Hwf) as (_ & He & _).
  rewrite He. vm_compute. reflexivity.
Defined.

(** The array after [vector_ins] at [i] and the store of [e] there. *)
Lemma ins_store_list {A : Type} (B : list (option A)) (i n : nat) (e : A) :
  (i <= n)%nat -> (n < length B)%nat ->
  <[i := Some e]> (Vector.memmove (i + 1) i (n - i) B)
  = take i B ++ Some e :: take (n - i) (drop i B) ++ drop (n + 1) B.
Proof.
  intros Hi Hn. unfold Vector.memmove.
  destruct (lookup_lt_is_Some_2 B i) as [x Hx]; [lia|].
  replace (i + 1)%nat with (S i) by lia.
  rewrite (take_S_r _ _ _ Hx), <- app_assoc.
  rewrite insert_app_r_alt by (rewrite length_take; lia).
  rewrite length_take, Nat.min_l, Nat.sub_diag by lia. simpl.
  replace (S (i + (n - i))) with (n + 1)%nat by lia. done.
Qed.

(** X3.  [VECTOR_INSERT] at an index up to the length succeeds and puts
    the element in front of the one that was there, keeping the order of
    the others; at an index past the length but inside the allocation it
    reports success and stores the element in an unused slot, leaving the
    length and the elements as they were. *)
Theorem VECTOR_INSERT_elems {A : Type} (v : Vector.vector A) (i : nat) (e : A) :
  Vector.wf v ->
  Z.of_nat (Vector.len v) + 1 <= 2 ^ 32 - 128 ->
  let r := Vector.VECTOR_INSERT v i e in
  ((i <= Vector.len v)%nat ->
   snd r = true ∧ Vector.wf (fst r)
   ∧ Vector.elems (fst r) = take i (Vector.elems v) ++ e :: drop i (Vector.elems v))
  ∧ ((Vector.len v < i)%nat -> (i < Vector.alloc (fst r))%nat ->
     snd r = true ∧ Vector.wf (fst r)
     ∧ Vector.elems (fst r) = Vector.elems v
     ∧ Vector.VECTOR_AT (fst r) i = Some e).
Proof.
  intros Hwf Hn. simpl. unfold Vector.VECTOR_INSERT.
  rewrite Z.mod_small by lia.
  destruct (vector_grow_keeps v (Z.of_nat (Vector.len v) + 1) Hwf)
    as (v' & -> & Hw & He & Hl & Ha & _); [lia|].
  destruct (vector_wf_inv v' Hw) as (rest & Hbase & Hlen & Hal).
  rewrite <- He. rewrite <- Hl. rewrite <- Hl in Ha. clear He Hl Hn Hwf v.
  unfold Vector.vector_ins, Vector.store.
  destruct (Nat.leb_spec i (Vector.len v')) as [Hi|Hi]; simpl.
  - split; [|intros; exfalso; lia]. intros _.
    set (E := Vector.elems v') in *.
    assert (HB : <[i := Some e]>
                   (Vector.memmove (i + 1) i (Vector.len v' - i) (Vector.base v'))
                 = (Some <$> (take i E ++ e :: drop i E)) ++ drop 1 rest).
    { rewrite ins_store_list by lia.
      rewrite Hbase, fmap_app, fmap_cons, <- app_assoc. simpl.
      rewrite take_app_le by (rewrite length_fmap; lia).
      rewrite drop_app_le by (rewrite length_fmap; lia).
      rewrite <- fmap_take, <- fmap_drop.
      rewrite take_app_length' by (rewrite length_fmap, length_drop; lia).
      rewrite drop_app_ge by (rewrite length_fmap; lia).
      rewrite length_fmap. replace (Vector.len v' + 1 - length E)%nat with 1%nat by lia.
      done. }
    rewrite HB.
    destruct (vector_wf_intro (take i E ++ e :: drop i E) (drop 1 rest)
                (Vector.len v' + 1) (Vector.alloc v')) as [Hw' He'].
    { rewrite length_app, length_take. simpl. rewrite length_drop. lia. }
    { rewrite <- HB, length_insert. unfold Vector.memmove.
      rewrite !length_app, !length_take, !length_drop. lia. }
    split; [done|]. split; done.
  - split; [intros; exfalso; lia|]. intros _ Hin.
    assert (Ht : take (Vector.len v') (<[i := Some e]> (Vector.base v'))
                 = take (Vector.len v') (Vector.base v')).
    { apply take_insert_ge. lia. }
    assert (Hel : Vector.elems
                    {| Vector.base := <[i := Some e]> (Vector.base v');
                       Vector.len := Vector.len v'; Vector.alloc := Vector.alloc v' |}
                  = Vector.elems v').
    { unfold Vector.elems. simpl. by rewrite Ht. }
    split; [done|]. split; [|split; [done|]].
    + destruct Hw as (H1 & H2 & H3). split; [|split]; simpl.
      * by rewrite length_insert.
      * done.
      * rewrite Hel, Ht. done.
    + unfold Vector.VECTOR_AT. simpl.
      rewrite list_lookup_insert_eq by lia. done.
Qed.

Lemma VECTOR_INSERT_elems_witness :
  Vector.elems (fst (Vector.VECTOR_INSERT (fst (Vector.VECTOR_APPEND Vector.vector_init 8)) 0 7))
  = [7; 8].
Proof.
  assert (Hwf : Vector.wf (fst (Vector.VECTOR_APPEND (A := Z) Vector.vector_init 8))).
  { split; [vm_compute; reflexivity|]. split; [vm_compute; lia|].
    vm_compute. reflexivity. }
  destruct (VECTOR_INSERT_elems _ 0%nat 7 Hwf) as (H & _);
    [vm_compute; discriminate|].
  destruct H as (_ & _ & He); [vm_compute; lia|].
  rewrite He. vm_compute. reflexivity.
Defined.

(** What [VECTOR_POP] does to a vector that holds an element. *)
Lemma VECTOR_POP_spec {A : Type} (v : Vector.vector A) :
  Vector.wf v -> (0 < Vector.len v)%nat ->
  exists v' x,
    Vector.VECTOR_POP v = Some (v', Some x) ∧ Vector.wf v'
    ∧ Vector.elems v = Vector.elems v' ++ [x]
    ∧ Vector.alloc v' = Vector.alloc v.
Proof.
  intros Hwf Hpos. destruct (vector_wf_inv v Hwf) as (rest & Hbase & Hlen & Hal).
  unfold Vector.VECTOR_POP. destruct (Vector.len v) as [|n] eqn:Hn; [lia|].
  destruct (Vector.elems v) as [|x0 E0] eqn:HE using rev_ind; [simpl in Hlen; lia|].
  clear IHE0. rename x0 into x. rename E0 into E.
  rewrite length_app in Hlen. simpl in Hlen. assert (HnE : n = length E) by lia.
  assert (HB : Vector.base v = (Some <$> E) ++ (Some x :: rest)).
  { rewrite Hbase, fmap_app, <- app_assoc. done. }
  exists {| Vector.base := Vector.base v; Vector.len := n; Vector.alloc := Vector.alloc v |}, x.
  rewrite HB.
  destruct (vector_wf_intro E (Some x :: rest) n (Vector.alloc v) HnE) as [Hw He].
  { by rewrite <- HB. }
  split; [|split; [done|split; [by rewrite He|done]]].
  unfold Vector.VECTOR_AT. simpl.
  rewrite lookup_app_r by (rewrite length_fmap; lia).
  rewrite length_fmap, HnE, Nat.sub_diag. done.
Qed.

(** What [VECTOR_APPEND] does when the length does not wrap. *)
Lemma VECTOR_APPEND_spec {A : Type} (v : Vector.vector A) (e : A) :
  Vector.wf v ->
  Z.of_nat (Vector.len v) + 1 <= 2 ^ 32 - 128 ->
  exists v',
    Vector.VECTOR_APPEND v e = (v', true) ∧ Vector.wf v'
    ∧ Vector.elems v' = Vector.elems v ++ [e]
    ∧ Vector.len v' = (Vector.len v + 1)%nat.
Proof.
  intros Hwf Hn. unfold Vector.VECTOR_APPEND. rewrite Z.mod_small by lia.
  destruct (vector_grow_keeps v (Z.of_nat (Vector.len v) + 1) Hwf)
    as (v' & -> & Hw & He & Hl & Ha & _); [lia|].
  destruct (vector_wf_inv v' Hw) as (rest & Hbase & Hlen & Hal).
  rewrite <- He, <- Hl. rewrite <- Hl in Ha.
  set (E := Vector.elems v') in *.
  destruct rest as [|r rest].
  { rewrite Hbase, length_app, length_fmap in Hal. simpl in Hal. lia. }
  assert (HB : <[Vector.len v' := Some e]> (Vector.base v')
               = (Some <$> (E ++ [e])) ++ rest).
  { rewrite Hbase, insert_app_r_alt by (rewrite length_fmap; lia).
    rewrite length_fmap, Hlen, Nat.sub_diag, fmap_app, <- app_assoc. done. }
  rewrite HB.
  destruct (vector_wf_intro (E ++ [e]) rest (Vector.len v' + 1) (Vector.alloc v'))
    as [Hw' He'].
  { rewrite length_app. simpl. lia. }
  { rewrite <- HB, length_insert. done. }
  eexists. split; [done|]. split; [done|]. split; done.
Qed.

(** X4.  [VECTOR_APPEND] succeeds while the length stays below
    [2^32 - 128], and puts the element after the others; [VECTOR_POP]
    then returns that element and leaves the elements that were there
    before. *)
Theorem VECTOR_APPEND_POP {A : Type} (v : Vector.vector A) (e : A) :
  Vector.wf v ->
  Z.of_nat (Vector.len v) + 1 <= 2 ^ 32 - 128 ->
  let r := Vector.VECTOR_APPEND v e in
  snd r = true ∧ Vector.wf (fst r)
  ∧ Vector.elems (fst r) = Vector.elems v ++ [e]
  ∧ exists v',
      Vector.VECTOR_POP (fst r) = Some (v', Some e)
      ∧ Vector.wf v' ∧ Vector.elems v' = Vector.elems v.
Proof.
  intros Hwf Hn. simpl.
  destruct (VECTOR_APPEND_spec v e Hwf Hn) as (v1 & -> & Hw1 & He1 & Hl1). simpl.
  split; [done|]. split; [done|]. split; [done|].
  destruct (VECTOR_POP_spec v1 Hw1) as (v' & x & Hp & Hw' & He' & _); [lia|].
  rewrite He1 in He'. apply app_inj_tail in He' as [He' ->].
  exists v'. done.
Qed.

Lemma VECTOR_APPEND_POP_witness :
  exists v',
    Vector.VECTOR_POP (fst (Vector.VECTOR_APPEND Vector.vector_init 8)) = Some (v', Some 8)
    ∧ Vector.elems v' = [].
Proof.
  assert (Hwf : Vector.wf (Vector.vector_init (A := Z))).
  { split; [vm_compute; reflexivity|]. split; [vm_compute; lia|].
    vm_compute. reflexivity. }
  destruct (VECTOR_APPEND_POP _ 8 Hwf) as (_ & _ & _ & v' & Hp & _ & He);
    [vm_compute; discriminate|].
  exists v'. split; [exact Hp | exact He].
Defined.

(** X5.  [VECTOR_POP] of a vector that holds an element returns the last
    element and removes it, keeping the others and the allocation. *)
Theorem VECTOR_POP_last {A : Type} (v : Vector.vector A) :
  Vector.wf v -> (0 < Vector.len v)%nat ->
  exists v' x,
    Vector.VECTOR_POP v = Some (v', Some x)
    ∧ last (Vector.elems v) = Some x
    ∧ Vector.wf v'
    ∧ Vector.elems v' = take (Vector.len v - 1) (Vector.elems v)
    ∧ Vector.len v' = (Vector.len v - 1)%nat.
Proof.
  intros Hwf Hpos.
  destruct (VECTOR_POP_spec v Hwf Hpos) as (v' & x & Hp & Hw' & He & Ha).
  exists v', x. split; [done|]. split; [by rewrite He, last_snoc|].
  split; [done|].
  destruct (vector_wf_inv v Hwf) as (_ & _ & Hlen & _).
  destruct (vector_wf_inv v' Hw') as (_ & _ & Hlen' & _).
  rewrite He, length_app in Hlen. simpl in Hlen.
  split; [|lia]. rewrite He. rewrite take_app_length'; [done|lia].
Qed.

Lemma VECTOR_POP_last_witness :
  exists v',
    Vector.VECTOR_POP (fst (Vector.VECTOR_APPEND Vector.vector_init 8)) = Some (v', Some 8).
Proof.
  assert (Hwf : Vector.wf (fst (Vector.VECTOR_APPEND (A := Z) Vector.vector_init 8))).
  { split; [vm_compute; reflexivity|]. split; [vm_compute; lia|].
    vm_compute. reflexivity. }
  destruct (VECTOR_POP_last _ Hwf) as (v' & x & Hp & Hl & _); [vm_compute; lia|].
  vm_compute in Hl. injection Hl as <-. exists v'. exact Hp.
Defined.

(** ** Listener vectors *)

Lemma find_from_end_bound {A : Type} (p : A -> bool) (v : list A) (i j : nat) :
  find_from_end p v i = Some j -> (j < i)%nat ∧ exists x, v !! j = Some x ∧ p x = true.
Proof.
  induction i as [|i IH]; simpl; [done|].
  destruct (v !! i) as [x|] eqn:Hl.
  - destruct (p x) eqn:Hp.
    + intros [= <-]. split; [lia|]. by exists x.
    + intros H. destruct (IH H) as [? ?]. split; [lia|done].
  - intros H. destruct (IH H) as [? ?]. split; [lia|done].
Qed.

Lemma find_from_end_app {A : Type} (p : A -> bool) (v k : list A) (i : nat) :
  (i <= length v)%nat -> find_from_end p (v ++ k) i = find_from_end p v i.
Proof.
  induction i as [|i IH]; intros Hi; simpl; [done|].
  rewrite lookup_app_l by lia. rewrite IH by lia. done.
Qed.

(** The backwards search looks at the last element first. *)
Lemma delete_from_end_snoc {A : Type} (p : A -> bool) (v : list A) (y : A) :
  delete_from_end p (v ++ [y]) = if p y then v else delete_from_end p v ++ [y].
Proof.
  unfold delete_from_end. rewrite length_app, Nat.add_1_r. simpl.
  rewrite lookup_app_r, Nat.sub_diag by lia. simpl.
  destruct (p y).
  - by rewrite delete_middle, app_nil_r.
  - rewrite find_from_end_app by lia.
    destruct (find_from_end p v (length v)) as [j|] eqn:Hf; [|done].
    apply find_from_end_bound in Hf as [Hj _].
    destruct (lookup_lt_is_Some_2 v j Hj) as [x Hx].
    rewrite <- (take_drop_middle v j x Hx) at 1.
    rewrite <- app_assoc. simpl.
    assert (Hlen : length (take j v) = j) by (rewrite length_take; lia).
    rewrite <- Hlen at 1. rewrite delete_middle.
    rewrite <- (take_drop_middle v j x Hx) at 3.
    rewrite <- Hlen at 3. rewrite delete_middle. by rewrite <- app_assoc.
Qed.

Lemma delete_from_end_none {A : Type} (p : A -> bool) (v : list A) :
  (forall x, x ∈ v -> p x = false) -> delete_from_end p v = v.
Proof.
  induction v as [|y v IH] using rev_ind; intros Hp; [done|].
  rewrite delete_from_end_snoc, Hp by (apply elem_of_app; right; apply list_elem_of_here).
  rewrite IH; [done|]. intros x Hx. apply Hp, elem_of_app. by left.
Qed.

Lemma delete_from_end_last {A : Type} (p : A -> bool) (l1 l2 : list A) (x : A) :
  p x = true -> (forall y, y ∈ l2 -> p y = false) ->
  delete_from_end p (l1 ++ x :: l2) = l1 ++ l2.
Proof.
  intros Hx. induction l2 as [|y l2 IH] using rev_ind; intros Hp.
  - by rewrite delete_from_end_snoc, Hx, app_nil_r.
  - rewrite app_comm_cons, app_assoc, delete_from_end_snoc.
    rewrite Hp by (apply elem_of_app; right; apply list_elem_of_here).
    rewrite IH; [by rewrite <- app_assoc|].
    intros z Hz. apply Hp, elem_of_app. by left.
Qed.

(** The test of the loop of [qemu_wire_unlisten] holds of one listener
    only. *)
Lemma same_listener (h : handler) (opaque : nat) (lis : wire_listener) :
  bool_decide (lis_handler lis = h) && bool_decide (lis_opaque lis = opaque) = true
  <-> lis = {| lis_handler := h; lis_opaque := opaque |}.
Proof.
  rewrite andb_true_iff, !bool_decide_eq_true. destruct lis as [h' o']; simpl.
  split; [by intros [-> ->]|by intros [= -> ->]].
Qed.

Lemma same_listener_false (h : handler) (opaque : nat) (lis : wire_listener) :
  lis ≠ {| lis_handler := h; lis_opaque := opaque |} ->
  bool_decide (lis_handler lis = h) && bool_decide (lis_opaque lis = opaque) = false.
Proof.
  intros Hne. apply not_true_is_false. by intros ?%same_listener.
Qed.

Lemma wire_at_listen (w : nat) (h : handler) (opaque : nat) (s : World) (w' : nat) :
  wire_at (qemu_wire_listen (Some w) h opaque s) w'
  = if decide (w' = w)
    then set_w_listeners
           (w_listeners (wire_at s w) ++ [{| lis_handler := h; lis_opaque := opaque |}])
           (wire_at s w)
    else wire_at s w'.
Proof. apply wire_at_put_wire. Qed.

Lemma wire_at_unlisten (w : nat) (h : handler) (opaque : nat) (s : World) (w' : nat) :
  wire_at (qemu_wire_unlisten (Some w) h opaque s) w'
  = if decide (w' = w)
    then set_w_listeners
           (delete_from_end
              (fun lis => bool_decide (lis_handler lis = h)
                          && bool_decide (lis_opaque lis = opaque))
              (w_listeners (wire_at s w)))
           (wire_at s w)
    else wire_at s w'.
Proof. apply wire_at_put_wire. Qed.

Lemma set_w_listeners_id (x : WireState) : set_w_listeners (w_listeners x) x = x.
Proof. by destruct x. Qed.

Lemma set_w_listeners_twice (l l' : list wire_listener) (x : WireState) :
  set_w_listeners l (set_w_listeners l' x) = set_w_listeners l x.
Proof. done. Qed.

(** X6.  [qemu_wire_unlisten] removes the registration of the pair
    (handler, opaque) that was added last and keeps the order of the other
    listeners; when the pair is not registered the listeners stay as they
    are.  Nothing but the listener vector of the wire changes. *)
Theorem unlisten_removes_latest_registration (s : World) (w : nat) (h : handler)
    (opaque : nat) :
  let lis := {| lis_handler := h; lis_opaque := opaque |} in
  let s' := qemu_wire_unlisten (Some w) h opaque s in
  (forall l1 l2,
     w_listeners (wire_at s w) = l1 ++ lis :: l2 -> lis ∉ l2 ->
     wire_at s' w = set_w_listeners (l1 ++ l2) (wire_at s w))
  ∧ (lis ∉ w_listeners (wire_at s w) -> wire_at s' w = wire_at s w)
  ∧ (forall w', w' ≠ w -> wire_at s' w' = wire_at s w')
  ∧ drivers s' = drivers s ∧ multis s' = multis s ∧ trace s' = trace s.
Proof.
  cbv zeta. split; [|split; [|split; [|done]]].
  - intros l1 l2 Hl Hn. rewrite wire_at_unlisten, decide_True by done.
    rewrite Hl, delete_from_end_last; [done|by apply same_listener|].
    intros y Hy. apply same_listener_false. by intros ->.
  - intros Hn. rewrite wire_at_unlisten, decide_True by done.
    rewrite delete_from_end_none; [apply set_w_listeners_id|].
    intros y Hy. apply same_listener_false. by intros ->.
  - intros w' Hne. by rewrite wire_at_unlisten, decide_False.
Qed.

Lemma unlisten_removes_latest_registration_witness :
  w_listeners
    (wire_at (qemu_wire_unlisten (Some 1%nat) (fn_user 0) 101 Scenario.two_feeders) 1%nat)
  = [{| lis_handler := fn_multi_handler; lis_opaque := 50%nat |}].
Proof.
  destruct (unlisten_removes_latest_registration Scenario.two_feeders 1 (fn_user 0) 101)
    as (H & _).
  rewrite (H [] [{| lis_handler := fn_multi_handler; lis_opaque := 50%nat |}]).
  - reflexivity.
  - vm_compute. reflexivity.
  - vm_compute. intros Hin. inversion Hin as [|? ? ? Hin']; subst. inversion Hin'.
Defined.

(** X7.  [qemu_wire_unlisten] after [qemu_wire_listen] with the same wire,
    handler and opaque pointer leaves every wire as it was, whatever was
    registered before. *)
Theorem listen_unlisten_restores (s : World) (wire : option nat) (h : handler)
    (opaque : nat) :
  let s' := qemu_wire_unlisten wire h opaque (qemu_wire_listen wire h opaque s) in
  (forall w, wire_at s' w = wire_at s w)
  ∧ drivers s' = drivers s ∧ multis s' = multis s ∧ user s' = user s
  ∧ trace s' = trace s.
Proof.
  cbv zeta. destruct wire as [w0|]; [|done]. split; [|done].
  intros w. rewrite wire_at_unlisten, !wire_at_listen.
  destruct (decide (w = w0)) as [->|Hne]; [|done].
  rewrite decide_True by done. cbn [w_listeners set_w_listeners].
  rewrite delete_from_end_snoc. simpl. rewrite !bool_decide_eq_true_2 by done.
  simpl. by destruct (wire_at s w0).
Qed.

(** ** Composite listeners: registration *)

Lemma listens_wire (h : handler) (opaque : nat) (ws : list (option nat)) (s : World)
    (w : nat) :
  wire_at (fold_left (fun s wire => qemu_wire_listen wire h opaque s) ws s) w
  = set_w_listeners
      (w_listeners (wire_at s w)
       ++ replicate (length (List.filter (fun x => bool_decide (x = Some w)) ws))
            {| lis_handler := h; lis_opaque := opaque |})
      (wire_at s w).
Proof.
  revert s. induction ws as [|wire ws IH]; intros s; cbn [fold_left List.filter].
  - simpl. rewrite app_nil_r. by destruct (wire_at s w).
  - rewrite IH. destruct wire as [w0|].
    + rewrite wire_at_listen. destruct (decide (w = w0)) as [->|Hne].
      * rewrite bool_decide_eq_true_2 by done. simpl. by rewrite <- app_assoc.
      * rewrite bool_decide_eq_false_2 by congruence. done.
    + rewrite bool_decide_eq_false_2 by done. done.
Qed.

Lemma listens_frame (h : handler) (opaque : nat) (ws : list (option nat)) (s : World) :
  let s' := fold_left (fun s wire => qemu_wire_listen wire h opaque s) ws s in
  drivers s' = drivers s ∧ multis s' = multis s ∧ user s' = user s
  ∧ trace s' = trace s.
Proof.
  revert s. induction ws as [|wire ws IH]; intros s; simpl; [done|].
  destruct (IH (qemu_wire_listen wire h opaque s)) as (-> & -> & -> & ->).
  by destruct wire.
Qed.

Lemma unlistens_wire (h : handler) (opaque : nat) (ws : list (option nat)) (s : World)
    (w : nat) (l : list wire_listener) (k : nat) :
  w_listeners (wire_at s w)
  = l ++ replicate (length (List.filter (fun x => bool_decide (x = Some w)) ws) + k)
           {| lis_handler := h; lis_opaque := opaque |} ->
  wire_at (fold_left (fun s wire => qemu_wire_unlisten wire h opaque s) ws s) w
  = set_w_listeners (l ++ replicate k {| lis_handler := h; lis_opaque := opaque |})
      (wire_at s w).
Proof.
  revert s. induction ws as [|wire ws IH]; intros s Hl; cbn [fold_left List.filter] in *.
  - simpl in Hl. rewrite <- Hl. by destruct (wire_at s w).
  - destruct wire as [w0|].
    + destruct (decide (w = w0)) as [->|Hne].
      * rewrite bool_decide_eq_true_2 in Hl by done. simpl in Hl.
        rewrite replicate_cons_app, app_assoc in Hl.
        rewrite IH.
        -- rewrite wire_at_unlisten, decide_True by done. done.
        -- rewrite wire_at_unlisten, decide_True by done. cbn [w_listeners set_w_listeners].
           rewrite Hl, delete_from_end_snoc. simpl.
           by rewrite !bool_decide_eq_true_2.
      * rewrite bool_decide_eq_false_2 in Hl by congruence.
        rewrite IH; rewrite wire_at_unlisten, decide_False by done; done.
    + rewrite bool_decide_eq_false_2 in Hl by done. by apply IH.
Qed.

Lemma unlistens_frame (h : handler) (opaque : nat) (ws : list (option nat)) (s : World) :
  let s' := fold_left (fun s wire => qemu_wire_unlisten wire h opaque s) ws s in
  drivers s' = drivers s ∧ multis s' = multis s ∧ user s' = user s
  ∧ trace s' = trace s.
Proof.
  revert s. induction ws as [|wire ws IH]; intros s; simpl; [done|].
  destruct (IH (qemu_wire_unlisten wire h opaque s)) as (-> & -> & -> & ->).
  by destruct wire.
Qed.

(** X8.  [qemu_wire_multi_listen] returns [NULL] and changes nothing for
    an empty array.  Otherwise it returns the new block, stores the handler,
    the closure and the wires in it with a snapshot of HI_Z and no conflict,
    and appends [multi_handler] with the block as closure to the listeners
    of every wire of the array, once for each time the wire occurs in it;
    it calls nothing.  The field [value] of the block is not written and
    keeps what the memory held; the comparison of [multi_handler] on the new
    block comes out the same whatever the field holds. *)
Theorem multi_listen_registers (ws : list (option nat)) (h opaque ml : nat) (s : World) :
  let r := qemu_wire_multi_listen ws h opaque ml s in
  (ws = [] -> r = (s, None))
  ∧ (ws ≠ [] ->
     snd r = Some ml
     ∧ multi_at (fst r) ml
       = {| ml_handler := h; ml_opaque := opaque;
            ml_value := ml_value (multi_at s ml);
            ml_weakest_strength := STRENGTH_HI_Z; ml_in_conflict := false;
            ml_wires := ws |}
     ∧ (forall w,
          wire_at (fst r) w
          = set_w_listeners
              (w_listeners (wire_at s w)
               ++ replicate (length (List.filter (fun x => bool_decide (x = Some w)) ws))
                    {| lis_handler := fn_multi_handler; lis_opaque := ml |})
              (wire_at s w))
     ∧ drivers (fst r) = drivers s ∧ trace (fst r) = trace s
     ∧ forall in_conflict value weakest v,
         multi_differs (multi_at (fst r) ml) in_conflict value weakest
         = multi_differs
             {| ml_handler := h; ml_opaque := opaque; ml_value := v;
                ml_weakest_strength := STRENGTH_HI_Z; ml_in_conflict := false;
                ml_wires := ws |} in_conflict value weakest).
Proof.
  cbv zeta. split; [by intros ->|]. intros Hne.
  destruct ws as [|wire ws]; [done|]. unfold qemu_wire_multi_listen.
  cbn [fst snd]. set (s1 := put_multi ml _ s).
  destruct (listens_frame fn_multi_handler ml (wire :: ws) s1) as (Hd & Hm & _ & Ht).
  assert (Hml : multi_at
                  (fold_left (fun s0 wire0 => qemu_wire_listen wire0 fn_multi_handler ml s0)
                     (wire :: ws) s1) ml
                = {| ml_handler := h; ml_opaque := opaque;
                     ml_value := ml_value (multi_at s ml);
                     ml_weakest_strength := STRENGTH_HI_Z; ml_in_conflict := false;
                     ml_wires := wire :: ws |}).
  { unfold multi_at at 1. rewrite Hm. unfold s1; simpl. by rewrite lookup_insert_eq. }
  split; [done|]. split; [done|]. split; [|split; [by rewrite Hd|split; [by rewrite Ht|]]].
  - intros w. by rewrite listens_wire.
  - intros c value weakest v. rewrite Hml. unfold multi_differs, STRENGTH_HI_Z.
    cbn [ml_in_conflict ml_weakest_strength ml_value ml_wires].
    destruct c, (weakest =? 0); simpl; by rewrite ?orb_true_r.
Qed.

Lemma multi_listen_registers_witness :
  w_listeners (wire_at Scenario.two_feeders 1%nat)
  = [{| lis_handler := fn_user 0; lis_opaque := 101%nat |};
     {| lis_handler := fn_multi_handler; lis_opaque := 50%nat |}].
Proof.
  set (s := Scenario.world_of
              (TestWire.and_then
                 (TestWire.and_then
                    (TestWire.and_then
                       (TestWire.and_then
                          (qemu_wire_attach (Some 0%nat) (Some 1%nat) empty_world)
                          (qemu_wire_attach (Some 1%nat) (Some 1%nat)))
                       (qemu_wire_attach (Some 1%nat) (Some 2%nat)))
                    (fun s => Ok (qemu_wire_listen (Some 0%nat) (fn_user 0) 100 s)))
                 (fun s => Ok (qemu_wire_listen (Some 1%nat) (fn_user 0) 101 s)))).
  change Scenario.two_feeders
    with (fst (qemu_wire_multi_listen [Some 0%nat; Some 1%nat] 0 102 50 s)).
  destruct (multi_listen_registers [Some 0%nat; Some 1%nat] 0 102 50 s) as [_ H].
  destruct H as (_ & _ & Hw & _); [discriminate|].
  rewrite Hw. vm_compute. reflexivity.
Defined.

(** X9.  [qemu_wire_multi_unlisten] with the token of
    [qemu_wire_multi_listen] takes away what the registration added:
    every wire is as before the registration, also when a wire occurs
    several times in the array or had listeners of its own. *)
Theorem multi_listen_unlisten_restores (ws : list (option nat)) (h opaque ml : nat)
    (s : World) :
  let r := qemu_wire_multi_listen ws h opaque ml s in
  let s' := qemu_wire_multi_unlisten (snd r) (fst r) in
  (forall w, wire_at s' w = wire_at s w)
  ∧ drivers s' = drivers s ∧ user s' = user s ∧ trace s' = trace s.
Proof.
  cbv zeta. destruct ws as [|wire ws]; [done|].
  unfold qemu_wire_multi_listen. cbn [fst snd].
  set (s1 := put_multi ml _ s).
  set (s2 := fold_left _ (wire :: ws) s1).
  destruct (listens_frame fn_multi_handler ml (wire :: ws) s1) as (Hd & Hm & Hu & Ht).
  fold s2 in Hd, Hm, Hu, Ht.
  assert (Hml : ml_wires (multi_at s2 ml) = wire :: ws).
  { unfold multi_at. rewrite Hm. unfold s1; simpl. by rewrite lookup_insert_eq. }
  unfold qemu_wire_multi_unlisten. rewrite Hml.
  destruct (unlistens_frame fn_multi_handler ml (wire :: ws) s2) as (Hd' & _ & Hu' & Ht').
  split; [|by rewrite Hd', Hu', Ht', Hd, Hu, Ht].
  intros w.
  rewrite (unlistens_wire fn_multi_handler ml (wire :: ws) s2 w
             (w_listeners (wire_at s w)) 0).
  - unfold s2. rewrite listens_wire. simpl. rewrite app_nil_r.
    change (wire_at s1 w) with (wire_at s w). by destruct (wire_at s w).
  - unfold s2. rewrite listens_wire. simpl. by rewrite Nat.add_0_r.
Qed.

(** ** Attachments *)

Lemma occurrences_app (n : nat) (l k : list nat) :
  occurrences n (l ++ k) = (occurrences n l + occurrences n k)%nat.
Proof. unfold occurrences. by rewrite List.filter_app, length_app. Qed.

Lemma occurrences_singleton (n m : nat) :
  occurrences n [m] = if decide (m = n) then 1%nat else 0%nat.
Proof.
  unfold occurrences. simpl. destruct (decide (m = n)) as [->|Hne].
  - by rewrite bool_decide_eq_true_2.
  - by rewrite bool_decide_eq_false_2.
Qed.

Lemma occurrences_delete_from_end (n a : nat) (l : list nat) :
  occurrences n (delete_from_end (fun m => bool_decide (m = a)) l)
  = if decide (n = a) then pred (occurrences n l) else occurrences n l.
Proof.
  induction l as [|y l IH] using rev_ind.
  - by destruct (decide (n = a)).
  - rewrite delete_from_end_snoc. destruct (bool_decide_reflect (y = a)) as [->|Hy].
    + rewrite occurrences_app, occurrences_singleton.
      destruct (decide (n = a)) as [->|Hn].
      * rewrite decide_True by done. lia.
      * rewrite decide_False by congruence. lia.
    + rewrite !occurrences_app, IH, occurrences_singleton.
      destruct (decide (n = a)) as [->|Hn]; [|done].
      rewrite decide_False by done. lia.
Qed.

Lemma consistent_empty_world : consistent empty_world.
Proof. intros w d. reflexivity. Qed.

Lemma same_topology_refl (s : World) : same_topology s s.
Proof. by split. Qed.

Lemma same_topology_trans (s1 s2 s3 : World) :
  same_topology s1 s2 -> same_topology s2 s3 -> same_topology s1 s3.
Proof.
  intros [Hw Hd] [Hw' Hd']. split.
  - intros w. destruct (Hw w) as (<- & <- & <-). apply Hw'.
  - intros d. rewrite <- Hd. apply Hd'.
Qed.

Lemma same_topology_heap (s s' : World) :
  wires s' = wires s -> drivers s' = drivers s -> same_topology s s'.
Proof.
  intros Hw Hd. split.
  - intros w. by rewrite (wire_at_wires s s' w Hw).
  - intros d. by rewrite (driver_at_drivers s s' d Hd).
Qed.

Lemma same_topology_consistent (s s' : World) :
  same_topology s s' -> consistent s -> consistent s'.
Proof.
  intros [Hw Hd] Hc w d. destruct (Hw w) as (-> & _). rewrite Hd. apply Hc.
Qed.

(** *** The three loops of a batch keep the attachments *)

Lemma drive_apply_wire (s : World) (wd : struct_qemu_wire_drive) (w : nat) :
  exists b, wire_at (drive_apply s wd) w = set_w_driver_changed b (wire_at s w).
Proof.
  unfold drive_apply. destruct (wd_driver wd) as [d|].
  2:{ exists (w_driver_changed (wire_at s w)). by rewrite set_w_driver_changed_id. }
  destruct (drive_differs (driver_at s d) wd).
  2:{ exists (w_driver_changed (wire_at s w)). by rewrite set_w_driver_changed_id. }
  destruct (mark_wires_spec (d_wires (driver_at s d))
              (put_driver d (set_d_drive wd (driver_at s d)) s)) as (_ & _ & Hw).
  rewrite Hw. change (wire_at (put_driver _ _ s) w) with (wire_at s w).
  destruct (bool_decide (w ∈ d_wires (driver_at s d))).
  - by exists true.
  - exists (w_driver_changed (wire_at s w)). by rewrite set_w_driver_changed_id.
Qed.

Lemma multi_drive_apply_wire (drives : list struct_qemu_wire_drive) (s : World)
    (w : nat) :
  exists b, wire_at (multi_drive_apply drives s) w = set_w_driver_changed b (wire_at s w).
Proof.
  unfold multi_drive_apply. revert s.
  induction drives as [|wd rest IH]; intros s; simpl.
  - exists (w_driver_changed (wire_at s w)). by rewrite set_w_driver_changed_id.
  - destruct (IH (drive_apply s wd)) as [b ->].
    destruct (drive_apply_wire s wd w) as [b' ->]. by exists b.
Qed.

Section QuietTopology.

Variable E : handlers.
Hypothesis E_quiet : quiet E.

Lemma multi_drive_topology (fuel : nat) (drives : list struct_qemu_wire_drive)
    (s0 : World) :
  enough_fuel fuel drives s0 = true ->
  exists s3, qemu_wire_multi_drive E fuel drives s0 = Ok s3 ∧ same_topology s0 s3.
Proof.
  intros Hf. unfold qemu_wire_multi_drive.
  set (s1 := multi_drive_apply drives s0).
  destruct (multi_drive_update_spec drives s1) as (Hd2 & Hw2 & _).
  set (s2 := multi_drive_update drives s1) in *.
  destruct (multi_drive_notify_spec E E_quiet fuel drives s2) as (s3 & Hr & Hd3 & Hw3 & _).
  { rewrite (enough_fuel_wires fuel drives s0 s2); [done|].
    intros d. rewrite (driver_at_drivers s1 s2) by done.
    apply multi_drive_apply_wires. }
  exists s3. split; [done|]. split.
  - intros w. rewrite Hw3, Hw2.
    destruct (multi_drive_apply_wire drives s0 w) as [b Hb]. fold s1 in Hb.
    rewrite Hb.
    assert (Hu : forall x,
              w_attachments (updated s1 x) = w_attachments x
              ∧ w_listeners (updated s1 x) = w_listeners x
              ∧ w_intrinsic (updated s1 x) = w_intrinsic x).
    { intros x. unfold updated. by destruct (w_driver_changed x). }
    assert (Hn : forall x,
              w_attachments (notified x) = w_attachments x
              ∧ w_listeners (notified x) = w_listeners x
              ∧ w_intrinsic (notified x) = w_intrinsic x).
    { intros x. unfold notified. by destruct (w_changed x). }
    destruct (bool_decide (w ∈ batch_wires drives s2));
      destruct (bool_decide (w ∈ batch_wires drives s1));
      repeat match goal with
             | |- context [notified ?x] => destruct (Hn x) as (-> & -> & ->)
             | |- context [updated s1 ?x] => destruct (Hu x) as (-> & -> & ->)
             end; done.
  - intros d. rewrite Hd3, (driver_at_drivers s1 s2) by done.
    destruct (bool_decide (Some d ∈ map wd_driver drives)); simpl;
      apply multi_drive_apply_wires.
Qed.

(** [qemu_wire_detach]: the vectors are cut, the wire is resolved, and
    its listeners are told when the flag is set. *)
Lemma detach_quiet (w d : nat) (s : World) :
  let x := wire_at (wire_update w (detached w d s)) w in
  exists s',
    qemu_wire_detach E (Some w) (Some d) s = Ok s'
    ∧ drivers s' = drivers (detached w d s)
    ∧ (forall w',
         wire_at s' w' = if decide (w' = w) then notified x else wire_at s w')
    ∧ forall p, about w p ->
        count p (trace s')
        = (count p (EvResolve w :: notify_events w x) + count p (trace s))%nat.
Proof.
  cbv zeta. eexists. split; [reflexivity|].
  change (put_wire w _ (put_driver d _ s)) with (detached w d s).
  set (sb := detached w d s).
  destruct (wire_notify_if_changed_quiet E E_quiet w (wire_update w sb))
    as (Hd & Hw & Ht).
  split; [|split].
  - rewrite Hd. apply drivers_wire_update.
  - intros w'. rewrite Hw. destruct (decide (w' = w)) as [->|Hne]; [done|].
    rewrite wire_at_wire_update_ne by done. unfold sb, detached.
    by rewrite wire_at_put_wire_ne.
  - intros p Hp. rewrite (Ht p (about_wire_event w p Hp)).
    rewrite trace_wire_update, !count_cons.
    change (trace sb) with (trace s). lia.
Qed.

Lemma notified_fields (x : WireState) :
  w_attachments (notified x) = w_attachments x
  ∧ w_listeners (notified x) = w_listeners x
  ∧ w_intrinsic (notified x) = w_intrinsic x
  ∧ cached (notified x) = cached x.
Proof. unfold notified. by destruct (w_changed x). Qed.

(** What [qemu_wire_detach] does to the vectors. *)
Lemma detach_vectors (w d : nat) (s : World) :
  exists s',
    qemu_wire_detach E (Some w) (Some d) s = Ok s'
    ∧ (forall w',
         w_attachments (wire_at s' w')
         = (if decide (w' = w)
            then delete_from_end (fun d' => bool_decide (d' = d))
                   (w_attachments (wire_at s w))
            else w_attachments (wire_at s w'))
         ∧ w_listeners (wire_at s' w') = w_listeners (wire_at s w')
         ∧ w_intrinsic (wire_at s' w') = w_intrinsic (wire_at s w'))
    ∧ (forall d',
         d_wires (driver_at s' d')
         = if decide (d' = d)
           then delete_from_end (fun w' => bool_decide (w' = w))
                  (d_wires (driver_at s d))
           else d_wires (driver_at s d')).
Proof.
  destruct (detach_quiet w d s) as (s' & Hr & Hd & Hw & _).
  exists s'. split; [done|]. split.
  - intros w'. rewrite Hw. destruct (decide (w' = w)) as [->|Hne]; [|done].
    destruct (notified_fields (wire_at (wire_update w (detached w d s)) w))
      as (-> & -> & -> & _).
    rewrite wire_at_wire_update. unfold detached. by rewrite wire_at_put_wire_eq.
  - intros d'. rewrite (driver_at_drivers (detached w d s)) by done.
    unfold detached.
    change (driver_at (put_wire ?a ?b ?c) d') with (driver_at c d').
    rewrite driver_at_put_driver. by destruct (decide (d' = d)).
Qed.

End QuietTopology.

Lemma attach_vectors (w d : nat) (s : World) :
  exists s',
    qemu_wire_attach (Some w) (Some d) s = Ok s'
    ∧ (forall w',
         wire_at s' w'
         = if decide (w' = w)
           then set_w_attachments (w_attachments (wire_at s w) ++ [d]) (wire_at s w)
           else wire_at s w')
    ∧ (forall d',
         driver_at s' d'
         = if decide (d' = d)
           then set_d_wires (d_wires (driver_at s d) ++ [w]) (driver_at s d)
           else driver_at s d')
    ∧ multis s' = multis s ∧ user s' = user s ∧ trace s' = trace s.
Proof.
  eexists. split; [reflexivity|]. split; [|split; [|done]].
  - intros w'. change (wire_at (put_driver _ _ ?s0) w') with (wire_at s0 w').
    apply wire_at_put_wire.
  - intros d'. rewrite driver_at_put_driver. by destruct (decide (d' = d)).
Qed.

Lemma unlistens_topology (h : handler) (opaque : nat) (ws : list (option nat))
    (s : World) (w : nat) :
  let s' := fold_left (fun s wire => qemu_wire_unlisten wire h opaque s) ws s in
  w_attachments (wire_at s' w) = w_attachments (wire_at s w)
  ∧ w_intrinsic (wire_at s' w) = w_intrinsic (wire_at s w).
Proof.
  revert s. induction ws as [|wire ws IH]; intros s; simpl; [done|].
  destruct (IH (qemu_wire_unlisten wire h opaque s)) as (-> & ->).
  destruct wire as [w0|]; [|done]. rewrite wire_at_unlisten.
  by destruct (decide (w = w0)) as [->|].
Qed.

(** The operations that write the attachment vectors. *)
Lemma run_same_topology (E : handlers) (fuel : nat) (op : operation) (s : World) :
  quiet E ->
  op_fuel fuel op s = true ->
  match op with OpAttach _ _ | OpDetach _ _ => False | _ => True end ->
  exists s',
    run E fuel op s = Ok s'
    ∧ (forall w, w_attachments (wire_at s' w) = w_attachments (wire_at s w))
    ∧ (forall d, d_wires (driver_at s' d) = d_wires (driver_at s d)).
Proof.
  intros HE Hf Hop.
  assert (Hdrive : forall wd d, wd_driver wd = Some d ->
            (length (d_wires (driver_at s d)) <? fuel)%nat = true ->
            exists s',
              qemu_wire_multi_drive E fuel [wd] s = Ok s'
              ∧ (forall w, w_attachments (wire_at s' w) = w_attachments (wire_at s w))
              ∧ (forall d, d_wires (driver_at s' d) = d_wires (driver_at s d))).
  { intros wd d Hd Hl. destruct (multi_drive_topology E HE fuel [wd] s) as (s' & Hr & Hw & Hd').
    { unfold enough_fuel. simpl. by rewrite Hd, Hl. }
    exists s'. split; [done|]. split; [|done]. intros w. by destruct (Hw w). }
  destruct op as [wire driver|wire driver|wire v|driver strength dval
                 |driver strength aval|driver|drives|wire h opaque|wire h opaque
                 |wire|wire|wire|wire|ws|ws h opaque ml|token];
    simpl in *; try done; try (by exists s).
  - eexists. split; [reflexivity|]. split; [|intros d; by destruct wire]. intros w.
    destruct wire as [w0|]; [|done]. simpl. rewrite wire_at_put_wire.
    by destruct (decide (w = w0)) as [->|].
  - destruct driver as [d|]; [|by exists s]. by apply (Hdrive _ d).
  - destruct driver as [d|]; [|by exists s]. by apply (Hdrive _ d).
  - destruct driver as [d|]; [|by exists s]. by apply (Hdrive _ d).
  - destruct (multi_drive_topology E HE fuel drives s Hf) as (s' & Hr & Hw & Hd').
    exists s'. split; [done|]. split; [|done]. intros w. by destruct (Hw w).
  - eexists. split; [reflexivity|]. split; [|intros d; by destruct wire]. intros w.
    destruct wire as [w0|]; [|done]. rewrite wire_at_listen.
    by destruct (decide (w = w0)) as [->|].
  - eexists. split; [reflexivity|]. split; [|intros d; by destruct wire]. intros w.
    destruct wire as [w0|]; [|done]. rewrite wire_at_unlisten.
    by destruct (decide (w = w0)) as [->|].
  - eexists. split; [reflexivity|].
    destruct ws as [|wire ws]; [done|]. unfold qemu_wire_multi_listen. cbn [fst].
    set (s1 := put_multi ml _ s).
    destruct (listens_frame fn_multi_handler ml (wire :: ws) s1) as (Hd & _).
    split; [|intros d; by rewrite (driver_at_drivers s1 _ d Hd)].
    intros w. by rewrite listens_wire.
  - eexists. split; [reflexivity|]. destruct token as [ml|]; [|done]. simpl.
    split.
    + intros w. apply unlistens_topology.
    + intros d.
      destruct (unlistens_frame fn_multi_handler ml (ml_wires (multi_at s ml)) s)
        as (Hd & _).
      by rewrite (driver_at_drivers s _ d Hd).
Qed.

Lemma attach_consistent (w d : nat) (s : World) :
  consistent s ->
  exists s', qemu_wire_attach (Some w) (Some d) s = Ok s' ∧ consistent s'.
Proof.
  intros Hc. destruct (attach_vectors w d s) as (s' & Hr & Hw & Hd & _).
  exists s'. split; [done|]. intros w' d'. rewrite Hw, Hd.
  specialize (Hc w' d').
  destruct (decide (w' = w)) as [->|Hw']; destruct (decide (d' = d)) as [->|Hd'];
    simpl; rewrite ?occurrences_app, ?occurrences_singleton, ?decide_True by done;
    rewrite ?decide_False by done; lia.
Qed.

Lemma detach_consistent (E : handlers) (w d : nat) (s : World) :
  quiet E -> consistent s ->
  exists s', qemu_wire_detach E (Some w) (Some d) s = Ok s' ∧ consistent s'.
Proof.
  intros HE Hc. destruct (detach_vectors E HE w d s) as (s' & Hr & Hw & Hd).
  exists s'. split; [done|]. intros w' d'.
  destruct (Hw w') as (-> & _). rewrite Hd.
  specialize (Hc w' d').
  destruct (decide (w' = w)) as [->|Hw']; destruct (decide (d' = d)) as [->|Hd'];
    rewrite ?occurrences_delete_from_end, ?decide_True by done;
    rewrite ?decide_False by done; lia.
Qed.

(** X10.  The driving operations leave the wiring alone: with callbacks
    that do not re-enter and enough fuel they return, and every wire
    has the attachments, the listeners and the intrinsic value it had,
    every driver the wires it had. *)
Theorem driving_keeps_topology (E : handlers) (fuel : nat) (op : operation)
    (s : World) :
  quiet E ->
  op_fuel fuel op s = true ->
  match op with
  | OpDrive _ _ _ | OpDriveA _ _ _ | OpDriveZ _ | OpMultiDrive _ => True
  | _ => False
  end ->
  exists s', run E fuel op s = Ok s' ∧ same_topology s s'.
Proof.
  intros HE Hf Hop.
  assert (Hdrive : forall wd,
            match wd_driver wd with
            | Some d => (length (d_wires (driver_at s d)) <? fuel)%nat = true
            | None => True
            end ->
            exists s', qemu_wire_multi_drive E fuel [wd] s = Ok s' ∧ same_topology s s').
  { intros wd Hl. apply (multi_drive_topology E HE).
    unfold enough_fuel. simpl. destruct (wd_driver wd); [by rewrite Hl|done]. }
  destruct op; try done; simpl in *.
  - apply Hdrive. simpl. by destruct driver.
  - apply Hdrive. simpl. by destruct driver.
  - apply Hdrive. simpl. by destruct driver.
  - by apply (multi_drive_topology E HE).
Qed.

Lemma driving_keeps_topology_witness :
  exists s',
    run TestWire.recorders 8 (OpMultiDrive Scenario.both_change) Scenario.two_feeders
    = Ok s'
    ∧ same_topology Scenario.two_feeders s'.
Proof.
  apply (driving_keeps_topology TestWire.recorders 8 (OpMultiDrive Scenario.both_change)
           Scenario.two_feeders recorders_quiet).
  - vm_compute. reflexivity.
  - exact I.
Defined.

(** X11.  The two sides of the attachments stay in step: when every
    driver is in the attachments of every wire as often as the wire is in
    the wires of the driver, the same holds after every public operation
    that returns; and with callbacks that do not re-enter and enough fuel
    every operation but attach or detach of a [NULL] driver returns. *)
Theorem operations_keep_attachments_consistent (E : handlers) (fuel : nat)
    (op : operation) (s : World) :
  quiet E ->
  consistent s ->
  op_fuel fuel op s = true ->
  null_driver_fault op = false ->
  exists s', run E fuel op s = Ok s' ∧ consistent s'.
Proof.
  intros HE Hc Hf Hn.
  destruct (match op with OpAttach _ _ | OpDetach _ _ => true | _ => false end) eqn:Hop.
  2:{ destruct (run_same_topology E fuel op s HE Hf) as (s' & Hr & Hw & Hd).
      { by destruct op. }
      exists s'. split; [done|]. intros w d. rewrite Hw, Hd. apply Hc. }
  destruct op as [wire driver|wire driver| | | | | | | | | | | | | |]; try done; simpl in *.
  - destruct wire as [w|]; [|by exists s]. destruct driver as [d|]; [|done].
    by apply attach_consistent.
  - destruct wire as [w|]; [|by exists s]. destruct driver as [d|]; [|done].
    by apply detach_consistent.
Qed.

Lemma operations_keep_attachments_consistent_witness :
  exists s',
    run TestWire.recorders 8 (OpAttach (Some 0%nat) (Some 1%nat)) empty_world = Ok s'
    ∧ consistent s'.
Proof.
  apply (operations_keep_attachments_consistent TestWire.recorders 8
           (OpAttach (Some 0%nat) (Some 1%nat)) empty_world recorders_quiet
           consistent_empty_world); reflexivity.
Defined.

(** X12.  [qemu_wire_detach] after [qemu_wire_attach] of the same wire
    and driver gives the wire and the driver the vectors they had, whatever
    was attached before. *)
Theorem attach_detach_restores_vectors (E : handlers) (w d : nat) (s : World) :
  quiet E ->
  exists s1 s2,
    qemu_wire_attach (Some w) (Some d) s = Ok s1
    ∧ qemu_wire_detach E (Some w) (Some d) s1 = Ok s2
    ∧ same_topology s s2.
Proof.
  intros HE.
  destruct (attach_vectors w d s) as (s1 & Hr1 & Hw1 & Hd1 & _).
  destruct (detach_vectors E HE w d s1) as (s2 & Hr2 & Hw2 & Hd2).
  exists s1, s2. split; [done|]. split; [done|]. split.
  - intros w'. destruct (Hw2 w') as (-> & -> & ->). rewrite !Hw1.
    destruct (decide (w' = w)) as [->|Hne]; [|done].
    rewrite decide_True by done.
    cbn [w_attachments w_listeners w_intrinsic set_w_attachments].
    rewrite delete_from_end_snoc. by rewrite bool_decide_eq_true_2.
  - intros d'. rewrite Hd2, !Hd1.
    destruct (decide (d' = d)) as [->|Hne]; [|done]. rewrite decide_True by done.
    cbn [d_wires set_d_wires].
    rewrite delete_from_end_snoc. by rewrite bool_decide_eq_true_2.
Qed.

Lemma attach_detach_restores_vectors_witness :
  exists s1 s2,
    qemu_wire_attach (Some 0%nat) (Some 2%nat) Scenario.pulled_high = Ok s1
    ∧ qemu_wire_detach TestWire.recorders (Some 0%nat) (Some 2%nat) s1 = Ok s2
    ∧ same_topology Scenario.pulled_high s2.
Proof.
  exact (attach_detach_restores_vectors TestWire.recorders 0 2 Scenario.pulled_high
           recorders_quiet).
Defined.

Lemma count_resolve_notify_events (w : nat) (x : WireState) :
  count (is_resolve w) (notify_events w x) = 0%nat.
Proof.
  unfold notify_events. destruct (w_changed x); [|done].
  by rewrite count_cons, count_calls_none.
Qed.

(** X13.  [qemu_wire_detach] always resolves the wire, once, also when the
    driver was not attached to it: afterwards the wire caches the tuple
    resolved from the attachments that are left.  With the flag [changed]
    clear before, the listeners of the wire are notified once when the
    tuple differs from the one cached before, by the predicate of section
    4.1, and not at all otherwise, and the flag is clear again.  A driver
    that is in neither vector leaves the vectors as they are. *)
Theorem detach_resolves_and_notifies (E : handlers) (w d : nat) (s : World) :
  quiet E ->
  w_changed (wire_at s w) = false ->
  exists s',
    qemu_wire_detach E (Some w) (Some d) s = Ok s'
    ∧ cached (wire_at s' w)
      = resolved_of (wire_resolve s' (w_attachments (wire_at s' w)))
    ∧ resolutions w s' = S (resolutions w s)
    ∧ notifications w s'
      = (notifications w s
         + (if bool_decide (spec_changed false (cached (wire_at s w))
                              (cached (wire_at s' w)))
            then 1 else 0))%nat
    ∧ w_changed (wire_at s' w) = false
    ∧ (d ∉ w_attachments (wire_at s w) -> w ∉ d_wires (driver_at s d) ->
       same_topology s s').
Proof.
  intros HE Hc.
  destruct (detach_quiet E HE w d s) as (s' & Hr & Hd & Hw & Ht).
  destruct (detach_vectors E HE w d s) as (s'' & Hr' & Hwv & Hdv).
  rewrite Hr in Hr'. injection Hr' as <-.
  exists s'. split; [done|].
  set (sb := detached w d s) in *.
  set (x := wire_at (wire_update w sb) w) in *.
  assert (Hxb : wire_at sb w
                = set_w_attachments
                    (delete_from_end (fun d' => bool_decide (d' = d))
                       (w_attachments (wire_at s w))) (wire_at s w)).
  { unfold sb, detached. by rewrite wire_at_put_wire_eq. }
  assert (Hx : x = let acc := wire_resolve sb (w_attachments (wire_at sb w)) in
                   set_w_resolved (fst acc) (snd acc)
                     (wire_differs (wire_at sb w) (fst acc) (snd acc)) (wire_at sb w)).
  { unfold x. rewrite wire_at_wire_update. cbv zeta. rewrite Hxb. simpl. by rewrite Hc. }
  cbv zeta in Hx.
  set (acc := wire_resolve sb (w_attachments (wire_at sb w))) in *.
  assert (Hs'w : wire_at s' w = notified x) by (rewrite Hw; by rewrite decide_True).
  assert (Hcx : cached x = resolved_of acc) by (by rewrite Hx).
  assert (Hchg : w_changed x
                 = bool_decide (spec_changed false (cached (wire_at s w)) (cached x))).
  { rewrite Hcx, <- wire_differs_spec. rewrite Hx. simpl. by rewrite Hxb. }
  destruct (notified_fields x) as (Hna & _ & _ & Hnc).
  split; [|split; [|split; [|split]]].
  - rewrite Hs'w, Hnc, Hna, Hcx.
    rewrite (wire_resolve_drivers sb s') by done.
    unfold acc. by rewrite Hx.
  - unfold resolutions. rewrite (Ht _ (about_is_resolve w)).
    rewrite count_cons, count_resolve_notify_events. simpl.
    by rewrite bool_decide_eq_true_2.
  - unfold notifications. rewrite (Ht _ (about_is_notify w)).
    rewrite Hs'w, Hnc, <- Hchg. rewrite count_cons. simpl.
    unfold notify_events. destruct (w_changed x).
    + rewrite count_cons, count_calls_none by done. simpl.
      rewrite bool_decide_eq_true_2 by done. lia.
    + rewrite count_nil. lia.
  - rewrite Hs'w. unfold notified. by destruct (w_changed x) eqn:Hcx'.
  - intros Hnd Hnw. split.
    + intros w'. destruct (Hwv w') as (-> & -> & ->).
      destruct (decide (w' = w)) as [->|Hne]; [|done].
      rewrite delete_from_end_none; [done|].
      intros d' Hd'. apply bool_decide_eq_false_2. by intros ->.
    + intros d'. rewrite Hdv.
      destruct (decide (d' = d)) as [->|Hne]; [|done].
      rewrite delete_from_end_none; [done|].
      intros w' Hw'. apply bool_decide_eq_false_2. by intros ->.
Qed.

Lemma detach_resolves_and_notifies_witness :
  exists s',
    qemu_wire_detach TestWire.recorders (Some 0%nat) (Some 1%nat) Scenario.pulled_high
    = Ok s'
    ∧ resolutions 0 s' = S (resolutions 0 Scenario.pulled_high)
    ∧ notifications 0 s' = S (notifications 0 Scenario.pulled_high).
Proof.
  destruct (detach_resolves_and_notifies TestWire.recorders 0 1 Scenario.pulled_high
              recorders_quiet) as (s' & Hr & _ & Hres & Hnot & _);
    [vm_compute; reflexivity|].
  exists s'. split; [exact Hr|]. split; [exact Hres|].
  assert (Hs' : Ok s'
                = qemu_wire_detach TestWire.recorders (Some 0%nat) (Some 1%nat)
                    Scenario.pulled_high) by (symmetry; exact Hr).
  vm_compute in Hs'. injection Hs' as ->.
  rewrite Hnot. vm_compute. reflexivity.
Defined.

(** ** What the resolver finds *)

(** The strongest attached driver decides. *)
Lemma wire_resolve_strongest_inv (s : World) (atts : list nat) :
  (forall d, d ∈ atts -> 0 <= d_strength (driver_at s d)) ->
  let best := fst (wire_resolve s atts) in
  let c := snd (wire_resolve s atts) in
  0 <= wd_strength best
  ∧ (forall d, d ∈ atts -> d_strength (driver_at s d) <= wd_strength best)
  ∧ (wd_strength best = 0 -> wire_resolve s atts = (best_init, false))
  ∧ (0 < wd_strength best ->
     exists d, d ∈ atts ∧ d_strength (driver_at s d) = wd_strength best
               ∧ d_value_mode (driver_at s d) = wd_value_mode best
               ∧ d_value (driver_at s d) = wd_value best)
  ∧ (c = false ->
     forall d, d ∈ atts -> 0 < d_strength (driver_at s d) ->
       d_strength (driver_at s d) = wd_strength best ->
       d_value_mode (driver_at s d) = wd_value_mode best
       ∧ d_value (driver_at s d) = wd_value best)
  ∧ (c = true ->
     0 < wd_strength best
     ∧ exists d, d ∈ atts ∧ d_strength (driver_at s d) = wd_strength best
                 ∧ (d_value_mode (driver_at s d) ≠ wd_value_mode best
                    ∨ d_value (driver_at s d) ≠ wd_value best)).
Proof.
  cbv zeta. rewrite wire_resolve_foldr.
  induction atts as [|d atts IH]; intros Hpos.
  { simpl. unfold STRENGTH_HI_Z. split; [lia|]. split; [by intros d ?%not_elem_of_nil|].
    split; [done|]. split; [lia|]. split; [by intros _ d ?%not_elem_of_nil|done]. }
  simpl.
  destruct IH as (H0 & Hle & Hz & Hex & Hnc & Hc).
  { intros d' Hd'. apply Hpos. by apply list_elem_of_further. }
  pose proof (Hpos d (list_elem_of_here _ _)) as HA.
  set (A := driver_at s d) in *.
  destruct (foldr _ _ atts) as [best c] eqn:Hacc. simpl in *.
  unfold wire_update_body.
  destruct (Z.eqb_spec (d_strength A) 0) as [HA0|HA0]; simpl.
  { split; [done|]. split.
    { intros d' [->|Hd']%elem_of_cons; [fold A; lia|by apply Hle]. }
    split; [done|]. split.
    { intros Hp. destruct (Hex Hp) as (d' & Hd' & ?). exists d'.
      split; [by apply list_elem_of_further|done]. }
    split.
    { intros Hf d' [->|Hd']%elem_of_cons Hs He; [fold A in Hs; lia|by apply Hnc]. }
    intros Ht. destruct (Hc Ht) as (Hp & d' & Hd' & ?). split; [done|]. exists d'.
    split; [by apply list_elem_of_further|done]. }
  destruct (Z.gtb_spec (wd_strength best) (d_strength A)) as [Hgt|Hngt]; simpl.
  { split; [done|]. split.
    { intros d' [->|Hd']%elem_of_cons; [fold A; lia|by apply Hle]. }
    split; [done|]. split.
    { intros Hp. destruct (Hex Hp) as (d' & Hd' & ?). exists d'.
      split; [by apply list_elem_of_further|done]. }
    split.
    { intros Hf d' [->|Hd']%elem_of_cons Hs He; [fold A in He; lia|by apply Hnc]. }
    intros Ht. destruct (Hc Ht) as (Hp & d' & Hd' & ?). split; [done|]. exists d'.
    split; [by apply list_elem_of_further|done]. }
  destruct (Z.eqb_spec (d_strength A) (wd_strength best)) as [Heq|Hneq].
  - assert (Hkeep :
        0 <= wd_strength best
        ∧ (forall d', d' ∈ d :: atts -> d_strength (driver_at s d') <= wd_strength best)
        ∧ (wd_strength best = 0 -> (best, c) = (best_init, false))
        ∧ (0 < wd_strength best ->
           exists d', d' ∈ d :: atts ∧ d_strength (driver_at s d') = wd_strength best
                      ∧ d_value_mode (driver_at s d') = wd_value_mode best
                      ∧ d_value (driver_at s d') = wd_value best)).
    { split; [done|]. split.
      { intros d' [->|Hd']%elem_of_cons; [fold A; lia|by apply Hle]. }
      split; [done|].
      intros Hp. destruct (Hex Hp) as (d' & Hd' & ?). exists d'.
      split; [by apply list_elem_of_further|done]. }
    destruct Hkeep as (K0 & K1 & K2 & K3).
    destruct c.
    { split; [done|]. split; [done|]. split; [done|]. split; [done|].
      split; [done|]. intros _. destruct (Hc eq_refl) as (Hp & d' & Hd' & ?).
      split; [done|]. exists d'. split; [by apply list_elem_of_further|done]. }
    destruct (bool_decide_reflect (wd_value_mode best = d_value_mode A)) as [Hm|Hm]; simpl.
    2:{ split; [done|]. split; [done|]. split; [lia|]. split; [done|].
        split; [done|]. intros _. split; [lia|]. exists d.
        split; [apply list_elem_of_here|]. fold A. split; [done|]. left. congruence. }
    destruct (Z.eqb_spec (wd_value best) (d_value A)) as [Hv|Hv]; simpl.
    2:{ split; [done|]. split; [done|]. split; [lia|]. split; [done|].
        split; [done|]. intros _. split; [lia|]. exists d.
        split; [apply list_elem_of_here|]. fold A. split; [done|]. right. congruence. }
    split; [done|]. split; [done|]. split; [done|]. split; [done|].
    split; [|done].
    intros _ d' [->|Hd']%elem_of_cons Hs He; [by fold A|by apply Hnc].
  - simpl. split; [lia|]. split.
    { intros d' [->|Hd']%elem_of_cons; [fold A; lia|]. specialize (Hle d' Hd'). lia. }
    split; [lia|]. split.
    { intros _. exists d. split; [apply list_elem_of_here|done]. }
    split; [|done].
    intros _ d' [->|Hd']%elem_of_cons Hs He; [done|].
    specialize (Hle d' Hd'). lia.
Qed.

(** X14.  What [wire_update] finds, for drivers with strengths from 0
    up: the strength is the greatest strength of an attached driver, or
    HI_Z with digital 0 and no conflict when no attached driver drives; the
    mode and the value are those of a strongest driver; and there is a
    conflict exactly when some strongest driver differs from them in mode
    or value. *)
Theorem wire_update_finds_strongest (s : World) (w : nat) :
  let atts := w_attachments (wire_at s w) in
  let x := wire_at (wire_update w s) w in
  (forall d, d ∈ atts -> 0 <= d_strength (driver_at s d)) ->
  (forall d, d ∈ atts -> d_strength (driver_at s d) <= w_strength x)
  ∧ ((forall d, d ∈ atts -> d_strength (driver_at s d) = STRENGTH_HI_Z) ->
     cached x = spec_resolver_init)
  ∧ (w_strength x ≠ STRENGTH_HI_Z ->
     exists d, d ∈ atts ∧ d_strength (driver_at s d) = w_strength x
               ∧ d_value_mode (driver_at s d) = w_value_mode x
               ∧ d_value (driver_at s d) = w_value x)
  ∧ (w_is_conflict x = true
     <-> exists d, d ∈ atts ∧ 0 < d_strength (driver_at s d)
                   ∧ d_strength (driver_at s d) = w_strength x
                   ∧ (d_value_mode (driver_at s d) ≠ w_value_mode x
                      ∨ d_value (driver_at s d) ≠ w_value x)).
Proof.
  cbv zeta. intros Hpos. rewrite wire_at_wire_update. cbv zeta.
  destruct (wire_resolve_strongest_inv s (w_attachments (wire_at s w)) Hpos)
    as (H0 & Hle & Hz & Hex & Hnc & Hc).
  set (acc := wire_resolve s (w_attachments (wire_at s w))) in *.
  cbn [w_strength w_value_mode w_value w_is_conflict set_w_resolved].
  unfold STRENGTH_HI_Z. split; [done|]. split; [|split].
  - intros Hall.
    assert (Hs : wd_strength (fst acc) = 0).
    { destruct (Z.eq_dec (wd_strength (fst acc)) 0) as [|Hne]; [done|].
      destruct Hex as (d & Hd & He & _); [lia|]. rewrite <- He. by apply Hall. }
    unfold cached. simpl. by rewrite (Hz Hs).
  - intros Hne. apply Hex. lia.
  - split.
    + intros Ht. destruct (Hc Ht) as (Hp & d & Hd & He & Hdiff).
      exists d. split; [done|]. split; [lia|done].
    + intros (d & Hd & Hp & He & Hdiff).
      destruct (snd acc) eqn:Hs; [done|].
      destruct (Hnc eq_refl d Hd Hp He) as [Hm Hv]. destruct Hdiff; congruence.
Qed.

Lemma wire_update_finds_strongest_witness :
  w_is_conflict (wire_at (wire_update 0 Scenario.tied_12) 0%nat) = true.
Proof.
  assert (Hpos : forall d, d ∈ w_attachments (wire_at Scenario.tied_12 0%nat) ->
                   0 <= d_strength (driver_at Scenario.tied_12 d)).
  { intros d Hd. change (w_attachments (wire_at Scenario.tied_12 0%nat)) with [1; 2]%nat in Hd.
    apply elem_of_cons in Hd as [->|Hd]; [vm_compute; discriminate|].
    apply elem_of_cons in Hd as [->|Hd]; [vm_compute; discriminate|].
    inversion Hd. }
  destruct (wire_update_finds_strongest Scenario.tied_12 0%nat Hpos) as (_ & _ & _ & Hc).
  apply Hc. exists 1%nat. split.
  - change (w_attachments (wire_at Scenario.tied_12 0%nat)) with [1; 2]%nat.
    apply list_elem_of_here.
  - vm_compute. split; [reflexivity|]. split; [reflexivity|]. right. discriminate.
Defined.

(** X15.  Resolving a wire twice is resolving it once: the second
    [wire_update] finds the cached tuple, leaves [changed] as the first
    left it, and changes no other wire and no driver. *)
Theorem wire_update_idempotent (s : World) (w : nat) :
  let s1 := wire_update w s in
  let s2 := wire_update w s1 in
  (forall w', wire_at s2 w' = wire_at s1 w') ∧ drivers s2 = drivers s1.
Proof.
  cbv zeta. split; [|by rewrite drivers_wire_update].
  intros w'. destruct (decide (w' = w)) as [->|Hne].
  2:{ by rewrite wire_at_wire_update_ne. }
  rewrite (wire_at_wire_update w (wire_update w s)). cbv zeta.
  rewrite (wire_resolve_drivers s) by apply drivers_wire_update.
  rewrite !wire_at_wire_update. cbv zeta.
  set (x := wire_at s w).
  cbn [w_attachments set_w_resolved w_changed].
  set (acc := wire_resolve s (w_attachments x)).
  set (ch := if w_changed x then true else wire_differs x (fst acc) (snd acc)).
  assert (Hd : wire_differs (set_w_resolved (fst acc) (snd acc) ch x) (fst acc) (snd acc)
               = false).
  { rewrite wire_differs_spec. apply bool_decide_eq_false_2.
    change (cached (set_w_resolved (fst acc) (snd acc) ch x)) with (resolved_of acc).
    apply spec_changed_same. }
  rewrite Hd. by destruct ch.
Qed.

(** ** Sensing several wires *)

Lemma multi_sense_loop_bits (s : World) (ws : list (option nat)) (k : nat)
    (first : bool) (result weakest : Z) :
  (length ws + k <= 32)%nat ->
  0 <= result ->
  (forall j, (k <= j)%nat -> Z.testbit result (Z.of_nat j) = false) ->
  let out := multi_sense_loop s ws first (2 ^ Z.of_nat k mod 2 ^ 32) result weakest in
  0 <= fst out
  ∧ forall j,
      Z.testbit (fst out) (Z.of_nat j)
      = if (j <? k)%nat then Z.testbit result (Z.of_nat j)
        else match ws !! (j - k)%nat with
             | Some wire => fst (qemu_wire_sense wire s)
             | None => false
             end.
Proof.
  revert k first result weakest.
  induction ws as [|wire rest IH]; intros k first result weakest Hlen Hres Hhigh.
  { simpl. split; [done|]. intros j. destruct (Nat.ltb_spec j k); [done|].
    by apply Hhigh. }
  simpl in Hlen. cbn [multi_sense_loop].
  destruct (qemu_wire_sense wire s) as [v strength] eqn:Hv.
  assert (Hk : 2 ^ Z.of_nat k mod 2 ^ 32 = 2 ^ Z.of_nat k).
  { apply Z.mod_small. split; [apply Z.pow_nonneg; lia|].
    apply Z.pow_lt_mono_r; lia. }
  assert (Hbit : Z.shiftl (2 ^ Z.of_nat k mod 2 ^ 32) 1 mod 2 ^ 32
                 = 2 ^ Z.of_nat (S k) mod 2 ^ 32).
  { rewrite Hk, Z.shiftl_mul_pow2 by lia.
    rewrite Nat2Z.inj_succ, Z.pow_succ_r by lia. f_equal. lia. }
  rewrite Hbit, Hk.
  set (result' := if v then Z.lor result (2 ^ Z.of_nat k) else result).
  assert (Hbits' : forall j,
            Z.testbit result' (Z.of_nat j)
            = Z.testbit result (Z.of_nat j) || (v && (k =? j)%nat)).
  { intros j. unfold result'. destruct v; [|by rewrite orb_false_r].
    rewrite Z.lor_spec, Z.pow2_bits_eqb by lia. simpl. f_equal.
    destruct (Nat.eqb_spec k j) as [->|Hne]; [by rewrite Z.eqb_refl|].
    apply Z.eqb_neq. lia. }
  destruct (IH (S k) false result'
              (if first || (strength <? weakest) then strength else weakest))
    as [Hnn Hout].
  { lia. }
  { unfold result'. destruct v; [|done]. apply Z.lor_nonneg.
    split; [done|]. apply Z.pow_nonneg. lia. }
  { intros j Hj. rewrite Hbits', Hhigh by lia.
    destruct (Nat.eqb_spec k j); [lia|]. by rewrite andb_false_r. }
  split; [done|]. intros j. rewrite Hout, Hbits'.
  destruct (Nat.ltb_spec j (S k)) as [Hlt|Hge].
  - destruct (Nat.ltb_spec j k) as [Hlt'|Hge'].
    + destruct (Nat.eqb_spec k j); [lia|]. by rewrite andb_false_r, orb_false_r.
    + assert (j = k) as -> by lia. rewrite Hhigh by lia.
      rewrite Nat.eqb_refl, Nat.sub_diag, andb_true_r. simpl. by rewrite Hv.
  - destruct (Nat.ltb_spec j k) as [Hlt'|Hge']; [lia|].
    replace (j - k)%nat with (S (j - S k)) by lia. done.
Qed.

Lemma multi_sense_loop_weakest (s : World) (ws : list (option nat))
    (bit result weakest : Z) :
  let out := multi_sense_loop s ws false bit result weakest in
  snd out <= weakest
  ∧ (forall wire, wire ∈ ws -> snd out <= snd (qemu_wire_sense wire s))
  ∧ (snd out = weakest
     ∨ exists wire, wire ∈ ws ∧ snd out = snd (qemu_wire_sense wire s)).
Proof.
  revert bit result weakest.
  induction ws as [|wire rest IH]; intros bit result weakest.
  { simpl. split; [lia|]. split; [by intros wire ?%not_elem_of_nil|by left]. }
  cbn [multi_sense_loop].
  destruct (qemu_wire_sense wire s) as [v strength] eqn:Hv.
  set (weakest' := if false || (strength <? weakest) then strength else weakest).
  assert (Hw' : weakest' <= weakest ∧ weakest' <= strength
                ∧ (weakest' = weakest ∨ weakest' = strength)).
  { unfold weakest'. simpl. destruct (Z.ltb_spec strength weakest); lia. }
  destruct Hw' as (Hw1 & Hw2 & Hw3).
  destruct (IH (Z.shiftl bit 1 mod 2 ^ 32) (if v then Z.lor result bit else result)
              weakest') as (Hle & Hall & Hex).
  split; [lia|]. split.
  - intros wire' [->|Hin]%elem_of_cons; [rewrite Hv; simpl; lia|by apply Hall].
  - destruct Hex as [He|(wire' & Hin & He)].
    + destruct Hw3 as [Hw3|Hw3]; [left; lia|].
      right. exists wire. split; [apply list_elem_of_here|]. rewrite Hv. simpl. lia.
    + right. exists wire'. split; [by apply list_elem_of_further|done].
Qed.

(** X16.  [qemu_wire_multi_sense] returns a 32-bit value whose bit [i]
    is what [qemu_wire_sense] returns for wire [i] of the array, for the
    first 32 wires, and whose other bits are 0; the strength it stores is
    HI_Z for an empty array and otherwise the least of the strengths of the
    first 32 wires.  Wires from index 32 on are not read. *)
Theorem multi_sense_bits (ws : list (option nat)) (s : World) :
  let value := fst (qemu_wire_multi_sense ws s) in
  let weakest := snd (qemu_wire_multi_sense ws s) in
  0 <= value < 2 ^ 32
  ∧ (forall i,
       Z.testbit value (Z.of_nat i)
       = match ws !! i with
         | Some wire => (i <? 32)%nat && fst (qemu_wire_sense wire s)
         | None => false
         end)
  ∧ (ws = [] -> weakest = STRENGTH_HI_Z)
  ∧ (forall i wire, (i < 32)%nat -> ws !! i = Some wire ->
       weakest <= snd (qemu_wire_sense wire s))
  ∧ (ws ≠ [] ->
     exists i wire, (i < 32)%nat ∧ ws !! i = Some wire
                    ∧ weakest = snd (qemu_wire_sense wire s)).
Proof.
  cbv zeta. unfold qemu_wire_multi_sense.
  assert (Hbits : 0 <= fst (multi_sense_loop s (take 32 ws) true 1 0 STRENGTH_HI_Z)
                  ∧ forall i,
                      Z.testbit (fst (multi_sense_loop s (take 32 ws) true 1 0 STRENGTH_HI_Z))
                        (Z.of_nat i)
                      = match ws !! i with
                        | Some wire => (i <? 32)%nat && fst (qemu_wire_sense wire s)
                        | None => false
                        end).
  { destruct (multi_sense_loop_bits s (take 32 ws) 0 true 0 STRENGTH_HI_Z) as [Hnn Hb].
    { rewrite length_take. lia. }
    { done. }
    { intros j _. apply Z.testbit_0_l. }
    change (2 ^ Z.of_nat 0 mod 2 ^ 32) with 1 in Hnn, Hb.
    split; [done|]. intros i. rewrite Hb. simpl. rewrite Nat.sub_0_r, lookup_take.
    destruct (decide (i < 32)%nat) as [Hi|Hi].
    - destruct (Nat.ltb_spec i 32); [|lia]. by destruct (ws !! i).
    - destruct (Nat.ltb_spec i 32); [lia|]. by destruct (ws !! i). }
  destruct Hbits as [Hnn Hb]. split; [|split; [done|]].
  { split; [done|]. apply (Z.bounded_iff_bits_nonneg 32); [lia|done|].
    intros l Hl. rewrite <- (Z2Nat.id l) by lia. rewrite Hb.
    destruct (ws !! Z.to_nat l); [|done].
    destruct (Nat.ltb_spec (Z.to_nat l) 32); [lia|done]. }
  destruct ws as [|wire rest].
  { split; [done|]. split; [by intros i wire _ ?|done]. }
  split; [done|].
  change (take 32 (wire :: rest)) with (wire :: take 31 rest).
  cbn [multi_sense_loop].
  destruct (qemu_wire_sense wire s) as [v strength] eqn:Hv. simpl.
  destruct (multi_sense_loop_weakest s (take 31 rest) (Z.shiftl 1 1 mod 2 ^ 32)
              (if v then Z.lor 0 1 else 0) strength) as (Hle & Hall & Hex).
  split.
  - intros i wire' Hi Hl. destruct i as [|i].
    + injection Hl as <-. by rewrite Hv.
    + simpl in Hl. apply Hall. apply list_elem_of_lookup. exists i.
      rewrite lookup_take_lt by lia. done.
  - intros _. destruct Hex as [He|(wire' & Hin & He)].
    + exists 0%nat, wire. split; [lia|]. split; [done|]. by rewrite Hv.
    + apply list_elem_of_lookup in Hin as [i Hi].
      apply lookup_take_Some in Hi as [Hi Hlt].
      exists (S i), wire'. split; [lia|]. done.
Qed.

Lemma multi_sense_bits_witness :
  snd (qemu_wire_multi_sense [] empty_world) = STRENGTH_HI_Z.
Proof.
  destruct (multi_sense_bits [] empty_world) as (_ & _ & H & _).
  apply H. reflexivity.
Defined.

(** ** The callback of composite listeners *)

Lemma multi_in_conflict_wires (s s' : World) (ws : list (option nat)) (i : nat) :
  wires s' = wires s -> multi_in_conflict s' ws i = multi_in_conflict s ws i.
Proof.
  intros H. induction i as [|i IH]; simpl; [done|].
  destruct (ws !! i) as [[w|]|]; try done.
  by rewrite (wire_at_wires s s' w H), IH.
Qed.

Lemma qemu_wire_sense_wires (s s' : World) (wire : option nat) :
  wires s' = wires s -> qemu_wire_sense wire s' = qemu_wire_sense wire s.
Proof.
  intros H. destruct wire as [w|]; [|done]. simpl. by rewrite (wire_at_wires s s' w H).
Qed.

Lemma multi_sense_loop_wires (s s' : World) (ws : list (option nat)) (first : bool)
    (bit result weakest : Z) :
  wires s' = wires s ->
  multi_sense_loop s' ws first bit result weakest
  = multi_sense_loop s ws first bit result weakest.
Proof.
  intros H. revert first bit result weakest.
  induction ws as [|wire rest IH]; intros first bit result weakest; [done|].
  cbn [multi_sense_loop]. rewrite (qemu_wire_sense_wires s s' wire H).
  destruct (qemu_wire_sense wire s). apply IH.
Qed.

Lemma multi_differs_same (ml : multi_listener) :
  (length (ml_wires ml) <= 32)%nat ->
  multi_differs ml (ml_in_conflict ml) (ml_value ml) (ml_weakest_strength ml) = false.
Proof.
  intros Hn. unfold multi_differs.
  rewrite eqb_reflx, Z.eqb_refl. simpl.
  destruct (Nat.ltb_spec 32 (length (ml_wires ml))); [lia|].
  by destruct (ml_weakest_strength ml =? 0).
Qed.

(** X17.  For a composite listener over at most 32 wires, and a callback
    that does not re-enter, [multi_handler] called again without a change
    of the wires does nothing: the callback runs only when the conflict,
    the weakest strength or the combined value differ from the
    snapshot. *)
Theorem multi_handler_settles (E : handlers) (opaque wire wire' : nat) (s : World) :
  quiet E ->
  (length (ml_wires (multi_at s opaque)) <= 32)%nat ->
  multi_handler E opaque wire' (multi_handler E opaque wire s)
  = multi_handler E opaque wire s.
Proof.
  intros [_ HE] Hn.
  set (ml := multi_at s opaque) in *.
  set (c := multi_in_conflict s (ml_wires ml) (length (ml_wires ml))).
  assert (Hstill : forall w0, c && ml_in_conflict ml = true -> multi_handler E opaque w0 s = s).
  { intros w0 H. unfold multi_handler. fold ml. fold c. by rewrite H. }
  assert (Hsame : forall w0,
            multi_differs ml c (fst (qemu_wire_multi_sense (ml_wires ml) s))
              (snd (qemu_wire_multi_sense (ml_wires ml) s)) = false ->
            multi_handler E opaque w0 s = s).
  { intros w0 H. unfold multi_handler. fold ml. fold c.
    destruct (c && ml_in_conflict ml); [done|].
    destruct (qemu_wire_multi_sense (ml_wires ml) s). simpl in H. by rewrite H. }
  destruct (c && ml_in_conflict ml) eqn:Hskip.
  { by rewrite !Hstill. }
  destruct (multi_differs ml c (fst (qemu_wire_multi_sense (ml_wires ml) s))
              (snd (qemu_wire_multi_sense (ml_wires ml) s))) eqn:Hdiff.
  2:{ by rewrite !Hsame. }
  clear Hstill Hsame.
  assert (Hs1 : exists u,
            multi_handler E opaque wire s
            = put_user u
                (log (EvMultiCall (ml_handler ml) (ml_opaque ml)
                        (fst (qemu_wire_multi_sense (ml_wires ml) s))
                        (snd (qemu_wire_multi_sense (ml_wires ml) s)) (ml_wires ml))
                   (put_multi opaque
                      {| ml_handler := ml_handler ml; ml_opaque := ml_opaque ml;
                         ml_value := fst (qemu_wire_multi_sense (ml_wires ml) s);
                         ml_weakest_strength :=
                           snd (qemu_wire_multi_sense (ml_wires ml) s);
                         ml_in_conflict := c; ml_wires := ml_wires ml |} s))).
  { unfold multi_handler. fold ml. fold c. rewrite Hskip.
    destruct (qemu_wire_multi_sense (ml_wires ml) s) as [value weakest].
    simpl in *. rewrite Hdiff.
    eexists. apply HE. }
  destruct Hs1 as [u ->].
  set (value := fst (qemu_wire_multi_sense (ml_wires ml) s)) in *.
  set (weakest := snd (qemu_wire_multi_sense (ml_wires ml) s)) in *.
  set (ml' := {| ml_handler := ml_handler ml; ml_opaque := ml_opaque ml;
                 ml_value := value; ml_weakest_strength := weakest;
                 ml_in_conflict := c; ml_wires := ml_wires ml |}).
  set (s1 := put_user u _).
  assert (Hml : multi_at s1 opaque = ml').
  { unfold multi_at, s1. simpl. by rewrite lookup_insert_eq. }
  assert (Hw : wires s1 = wires s) by done.
  unfold multi_handler. rewrite Hml. cbn [ml_wires ml' ml_in_conflict].
  rewrite (multi_in_conflict_wires s s1) by done. fold c.
  destruct c; [done|]. simpl.
  assert (Hsense : qemu_wire_multi_sense (ml_wires ml) s1 = (value, weakest)).
  { unfold qemu_wire_multi_sense. rewrite (multi_sense_loop_wires s s1) by done.
    apply surjective_pairing. }
  rewrite Hsense.
  pose proof (multi_differs_same ml') as Hsame. simpl in Hsame.
  by rewrite Hsame.
Qed.

Lemma multi_handler_settles_witness :
  multi_handler TestWire.recorders 50 1
    (multi_handler TestWire.recorders 50 0 Scenario.two_feeders)
  = multi_handler TestWire.recorders 50 0 Scenario.two_feeders.
Proof.
  apply (multi_handler_settles TestWire.recorders 50 0 1 Scenario.two_feeders
           recorders_quiet).
  vm_compute. lia.
Defined.

(** X18.  A composite listener over more than 32 wires has no snapshot
    to compare with: whenever none of its wires is in conflict and the
    weakest of the first 32 is not HI_Z, every call of [multi_handler]
    runs the callback. *)
Theorem multi_handler_over_32_wires_calls (E : handlers) (opaque wire : nat)
    (s : World) :
  let ml := multi_at s opaque in
  quiet E ->
  (32 < length (ml_wires ml))%nat ->
  multi_in_conflict s (ml_wires ml) (length (ml_wires ml)) = false ->
  snd (qemu_wire_multi_sense (ml_wires ml) s) ≠ STRENGTH_HI_Z ->
  trace (multi_handler E opaque wire s)
  = EvMultiCall (ml_handler ml) (ml_opaque ml)
      (fst (qemu_wire_multi_sense (ml_wires ml) s))
      (snd (qemu_wire_multi_sense (ml_wires ml) s)) (ml_wires ml)
    :: trace s.
Proof.
  cbv zeta. intros [_ HE] Hn Hc Hw. unfold multi_handler. rewrite Hc. simpl.
  destruct (qemu_wire_multi_sense _ s) as [value weakest]. simpl in *.
  assert (Hd : multi_differs (multi_at s opaque) false value weakest = true).
  { unfold multi_differs. unfold STRENGTH_HI_Z in Hw.
    destruct (Z.eqb_spec weakest 0) as [|_]; [done|].
    destruct (Nat.ltb_spec 32 (length (ml_wires (multi_at s opaque)))); [|lia].
    simpl. by rewrite !orb_true_r. }
  rewrite Hd. by rewrite frames_trace by apply HE.
Qed.


Lemma multi_handler_over_32_wires_calls_witness :
  trace (multi_handler TestWire.recorders 50 0 wide_listener)
  = EvMultiCall 0 102 (2 ^ 32 - 1) STRENGTH_PULL (replicate 33 (Some 0%nat))
    :: trace wide_listener.
Proof.
  assert (H1 : (32 < length (ml_wires (multi_at wide_listener 50)))%nat)
    by (vm_compute; lia).
  assert (H2 : multi_in_conflict wide_listener (ml_wires (multi_at wide_listener 50))
                 (length (ml_wires (multi_at wide_listener 50))) = false)
    by (vm_compute; reflexivity).
  assert (H3 : snd (qemu_wire_multi_sense (ml_wires (multi_at wide_listener 50))
                      wide_listener) ≠ STRENGTH_HI_Z)
    by (vm_compute; discriminate).
  rewrite (multi_handler_over_32_wires_calls TestWire.recorders 50 0 wide_listener
             recorders_quiet H1 H2 H3).
  vm_compute. reflexivity.
Defined.

(** ** Driving *)

Lemma multi_drive_noop (E : handlers) (fuel : nat)
    (drives : list struct_qemu_wire_drive) (s : World) :
  (forall wd d, wd ∈ drives -> wd_driver wd = Some d ->
     drive_differs (driver_at s d) wd = false ∧ d_changed (driver_at s d) = false) ->
  qemu_wire_multi_drive E fuel drives s = Ok s.
Proof.
  intros H. unfold qemu_wire_multi_drive.
  assert (Ha : multi_drive_apply drives s = s).
  { unfold multi_drive_apply. induction drives as [|wd rest IH]; [done|]. simpl.
    assert (Hwd : drive_apply s wd = s).
    { unfold drive_apply. destruct (wd_driver wd) as [d|] eqn:Hd; [|done].
      destruct (H wd d) as [-> _]; [apply list_elem_of_here|done|done]. }
    rewrite Hwd. apply IH. intros wd' d' Hin. apply H. by apply list_elem_of_further. }
  assert (Hu : multi_drive_update drives s = s).
  { clear Ha. unfold multi_drive_update. induction drives as [|wd rest IH]; [done|]. simpl.
    assert (Hwd : drive_update s wd = s).
    { unfold drive_update. destruct (wd_driver wd) as [d|] eqn:Hd; [|done].
      destruct (H wd d) as [_ ->]; [apply list_elem_of_here|done|done]. }
    rewrite Hwd. apply IH. intros wd' d' Hin. apply H.
    by apply list_elem_of_further. }
  rewrite Ha, Hu. clear Ha Hu.
  induction drives as [|wd rest IH]; [done|]. simpl.
  assert (Hrest : multi_drive_notify E fuel rest s = Ok s).
  { apply IH. intros wd' d' Hin. apply H. by apply list_elem_of_further. }
  destruct (wd_driver wd) as [d|] eqn:Hd; [|done].
  destruct (H wd d) as [_ ->]; [apply list_elem_of_here|done|done].
Qed.

(** X19.  A batch whose descriptors all hold the state their drivers
    are in already does nothing at all, whatever the callbacks and the
    fuel: no driver and no wire is written, no wire is resolved and no
    listener is called. *)
Theorem drive_same_state_is_noop (E : handlers) (fuel : nat)
    (drives : list struct_qemu_wire_drive) (s : World) :
  (forall wd d, wd ∈ drives -> wd_driver wd = Some d ->
     d_strength (driver_at s d) = wd_strength wd
     ∧ d_value_mode (driver_at s d) = wd_value_mode wd
     ∧ d_value (driver_at s d) = wd_value wd
     ∧ d_changed (driver_at s d) = false) ->
  qemu_wire_multi_drive E fuel drives s = Ok s.
Proof.
  intros H. apply multi_drive_noop. intros wd d Hin Hd.
  destruct (H wd d Hin Hd) as (Hs & Hm & Hv & Hc). split; [|done].
  unfold drive_differs. rewrite Hs, Hm, Hv, !Z.eqb_refl.
  by rewrite bool_decide_eq_true_2.
Qed.

Lemma drive_same_state_is_noop_witness :
  qemu_wire_multi_drive TestWire.recorders 0
    [TestWire.drive_of 1 1 STRENGTH_PULL VALUE_MODE_D] Scenario.pulled_high
  = Ok Scenario.pulled_high.
Proof.
  apply drive_same_state_is_noop. intros wd d Hin Hd.
  apply list_elem_of_singleton in Hin. subst wd. injection Hd as <-.
  vm_compute. repeat split; reflexivity.
Defined.

(** X20.  [qemu_wire_attach] resolves nothing: the wire caches what it
    cached, also when the driver attached is driving, and driving the
    driver to the state it is in does not bring the wire up to date. *)
Theorem attach_leaves_cache_stale (E : handlers) (fuel : nat) (w d : nat)
    (wd : struct_qemu_wire_drive) (s : World) :
  wd_driver wd = Some d ->
  d_strength (driver_at s d) = wd_strength wd ->
  d_value_mode (driver_at s d) = wd_value_mode wd ->
  d_value (driver_at s d) = wd_value wd ->
  d_changed (driver_at s d) = false ->
  exists s1,
    qemu_wire_attach (Some w) (Some d) s = Ok s1
    ∧ qemu_wire_multi_drive E fuel [wd] s1 = Ok s1
    ∧ d ∈ w_attachments (wire_at s1 w)
    ∧ cached (wire_at s1 w) = cached (wire_at s w)
    ∧ trace s1 = trace s.
Proof.
  intros Hd Hs Hm Hv Hc.
  destruct (attach_vectors w d s) as (s1 & Hr & Hw1 & Hd1 & _ & _ & Ht).
  exists s1. split; [done|]. split; [|split; [|split; [|done]]].
  - apply multi_drive_noop. intros wd' d' Hin Hd'.
    apply list_elem_of_singleton in Hin. subst wd'.
    rewrite Hd in Hd'. injection Hd' as <-.
    rewrite Hd1, decide_True by done. split; [|done].
    unfold drive_differs. simpl. rewrite Hs, Hm, Hv, !Z.eqb_refl.
    by rewrite bool_decide_eq_true_2.
  - rewrite Hw1, decide_True by done. simpl. apply elem_of_app. right.
    apply list_elem_of_here.
  - by rewrite Hw1, decide_True.
Qed.

Lemma attach_leaves_cache_stale_witness :
  exists s1,
    qemu_wire_attach (Some 5%nat) (Some 1%nat) Scenario.pulled_high = Ok s1
    ∧ qemu_wire_multi_drive TestWire.recorders 8
        [TestWire.drive_of 1 1 STRENGTH_PULL VALUE_MODE_D] s1 = Ok s1
    ∧ qemu_wire_sense (Some 5%nat) s1 = (false, STRENGTH_HI_Z).
Proof.
  assert (H1 : d_strength (driver_at Scenario.pulled_high 1) = STRENGTH_PULL)
    by (vm_compute; reflexivity).
  assert (H2 : d_value_mode (driver_at Scenario.pulled_high 1) = VALUE_MODE_D)
    by (vm_compute; reflexivity).
  assert (H3 : d_value (driver_at Scenario.pulled_high 1) = 1)
    by (vm_compute; reflexivity).
  assert (H4 : d_changed (driver_at Scenario.pulled_high 1) = false)
    by (vm_compute; reflexivity).
  destruct (attach_leaves_cache_stale TestWire.recorders 8 5 1
              (TestWire.drive_of 1 1 STRENGTH_PULL VALUE_MODE_D) Scenario.pulled_high
              eq_refl H1 H2 H3 H4)
    as (s1 & Hr & Hdr & _).
  exists s1. split; [exact Hr|]. split; [exact Hdr|].
  assert (Hs1 : Ok s1 = qemu_wire_attach (Some 5%nat) (Some 1%nat) Scenario.pulled_high)
    by (symmetry; exact Hr).
  vm_compute in Hs1. injection Hs1 as ->. vm_compute. reflexivity.
Defined.

(** A single descriptor that changes its driver, from a settled world:
    a wire of the driver on which the driver is stronger than every other
    attachment caches the descriptor. *)
Lemma single_drive_cached (E : handlers) (fuel : nat) (wd : struct_qemu_wire_drive)
    (d w : nat) (s : World) :
  quiet E ->
  settled s = true ->
  (length (d_wires (driver_at s d)) < fuel)%nat ->
  wd_driver wd = Some d ->
  drive_differs (driver_at s d) wd = true ->
  w ∈ d_wires (driver_at s d) ->
  d ∈ w_attachments (wire_at s w) ->
  0 < wd_strength wd ->
  (forall d', d' ∈ w_attachments (wire_at s w) -> d' ≠ d ->
     0 <= d_strength (driver_at s d') < wd_strength wd) ->
  exists s',
    qemu_wire_multi_drive E fuel [wd] s = Ok s'
    ∧ cached (wire_at s' w)
      = {| r_strength := wd_strength wd; r_mode := wd_value_mode wd;
           r_value := wd_value wd; r_conflict := false |}
    ∧ w_intrinsic (wire_at s' w) = w_intrinsic (wire_at s w).
Proof.
  intros HE Hs Hf Hd Hdiff Hw Hatt Hpos Hweak.
  destruct (qemu_wire_multi_drive_spec E HE fuel [wd] s Hs) as (s' & Hr & _ & Hwire & _).
  { unfold enough_fuel. simpl. rewrite Hd. rewrite andb_true_r. by apply Nat.ltb_lt. }
  exists s'. split; [done|].
  set (s1 := multi_drive_apply [wd] s) in *.
  assert (Hs1 : s1 = mark_wires (d_wires (driver_at s d))
                       (put_driver d (set_d_drive wd (driver_at s d)) s)).
  { unfold s1, multi_drive_apply. simpl. unfold drive_apply. by rewrite Hd, Hdiff. }
  destruct (mark_wires_spec (d_wires (driver_at s d))
              (put_driver d (set_d_drive wd (driver_at s d)) s)) as (Hdr & _ & _).
  rewrite <- Hs1 in Hdr.
  assert (Hdrv : forall d', driver_at s1 d'
                           = if decide (d' = d) then set_d_drive wd (driver_at s d)
                             else driver_at s d').
  { intros d'. rewrite (driver_at_drivers _ _ d' Hdr). apply driver_at_put_driver. }
  assert (Haff : affected [wd] s w = true).
  { unfold affected. apply bool_decide_eq_true_2. fold s1.
    apply elem_of_batch_wires. exists d. split; [|split].
    - simpl. rewrite Hd. apply list_elem_of_here.
    - by rewrite Hdrv, decide_True.
    - by rewrite Hdrv, decide_True. }
  rewrite Hwire, Haff. unfold driven.
  set (atts := w_attachments (wire_at s w)) in *.
  destruct (wire_resolve_strongest_inv s1 atts) as (H0 & Hle & Hz & Hex & Hnc & Hc).
  { intros d' Hd'. rewrite Hdrv. destruct (decide (d' = d)) as [->|Hne]; [simpl; lia|].
    by apply Hweak. }
  set (acc := wire_resolve s1 atts) in *.
  assert (Hsd : d_strength (driver_at s1 d) = wd_strength wd)
    by (by rewrite Hdrv, decide_True).
  pose proof (Hle d Hatt) as Hle_d. rewrite Hsd in Hle_d.
  assert (Hother : forall d', d' ∈ atts -> d_strength (driver_at s1 d') = wd_strength (fst acc) ->
                     d' = d).
  { intros d' Hd' He. destruct (decide (d' = d)) as [|Hne]; [done|].
    rewrite Hdrv, decide_False in He by done.
    destruct (Hweak d' Hd' Hne). lia. }
  destruct Hex as (d0 & Hd0 & He0 & Hm0 & Hv0); [lia|].
  pose proof (Hother d0 Hd0 He0) as ->.
  rewrite Hdrv, decide_True in He0, Hm0, Hv0 by done. simpl in He0, Hm0, Hv0.
  assert (Hcf : snd acc = false).
  { destruct (snd acc) eqn:Hsnd; [|done].
    destruct (Hc eq_refl) as (_ & d1 & Hd1 & He1 & Hdiff1).
    pose proof (Hother d1 Hd1 He1) as ->.
    rewrite Hdrv, decide_True in Hdiff1 by done. simpl in Hdiff1.
    destruct Hdiff1; congruence. }
  split; [|done]. unfold cached. simpl. by rewrite <- He0, <- Hm0, <- Hv0, Hcf.
Qed.

(** X21.  Driving and sensing: from a settled world, when
    [qemu_wire_drive] changes a driver to a strength that is not HI_Z
    and is above that of every other driver attached to one of its wires,
    [qemu_wire_sense] on that wire returns the value driven and the
    strength modulo 8, [qemu_wire_sense_a] returns the intrinsic value of
    the wire for 1 and 0 for 0, and the wire is not in conflict. *)
Theorem drive_then_sense (E : handlers) (fuel : nat) (d w : nat) (strength : Z)
    (dval : bool) (s : World) :
  quiet E ->
  settled s = true ->
  (length (d_wires (driver_at s d)) < fuel)%nat ->
  w ∈ d_wires (driver_at s d) ->
  d ∈ w_attachments (wire_at s w) ->
  0 < bitfield 3 strength ->
  (d_strength (driver_at s d) ≠ bitfield 3 strength
   ∨ d_value_mode (driver_at s d) ≠ VALUE_MODE_D
   ∨ d_value (driver_at s d) ≠ (if dval then 1 else 0)) ->
  (forall d', d' ∈ w_attachments (wire_at s w) -> d' ≠ d ->
     0 <= d_strength (driver_at s d') < bitfield 3 strength) ->
  exists s',
    qemu_wire_drive E fuel (Some d) strength dval s = Ok s'
    ∧ qemu_wire_sense (Some w) s' = (dval, bitfield 3 strength)
    ∧ qemu_wire_sense_a (Some w) s'
      = (if dval then w_intrinsic (wire_at s w) else 0, bitfield 3 strength)
    ∧ qemu_wire_sense_conflicted (Some w) s' = false.
Proof.
  intros HE Hs Hf Hw Hatt Hpos Hdiff Hweak. unfold qemu_wire_drive.
  set (wd := {| wd_driver := Some d; wd_value := if dval then 1 else 0;
                wd_strength := bitfield 3 strength; wd_value_mode := VALUE_MODE_D |}).
  destruct (single_drive_cached E fuel wd d w s HE Hs Hf eq_refl) as (s' & Hr & Hc & Hi);
    try done.
  { unfold drive_differs. simpl.
    destruct (Z.eqb_spec (d_strength (driver_at s d)) (bitfield 3 strength)); [|done].
    destruct (bool_decide_reflect (d_value_mode (driver_at s d) = VALUE_MODE_D)); [|done].
    destruct (Z.eqb_spec (d_value (driver_at s d)) (if dval then 1 else 0)); [|done].
    exfalso. intuition. }
  exists s'. split; [done|].
  unfold cached in Hc. simpl in Hc. injection Hc as Hst Hm Hv Hcf.
  unfold qemu_wire_sense, qemu_wire_sense_a, qemu_wire_sense_conflicted.
  rewrite Hst, Hm, Hv, Hcf, Hi. by destruct dval.
Qed.

Lemma drive_then_sense_witness :
  exists s',
    qemu_wire_drive TestWire.recorders 8 (Some 1%nat) STRENGTH_STRONG false
      Scenario.pulled_high = Ok s'
    ∧ qemu_wire_sense (Some 0%nat) s' = (false, bitfield 3 STRENGTH_STRONG).
Proof.
  destruct (drive_then_sense TestWire.recorders 8 1 0 STRENGTH_STRONG false
              Scenario.pulled_high recorders_quiet) as (s' & Hr & Hsense & _).
  - vm_compute. reflexivity.
  - vm_compute. lia.
  - vm_compute. apply list_elem_of_here.
  - vm_compute. apply list_elem_of_here.
  - vm_compute. reflexivity.
  - left. vm_compute. discriminate.
  - intros d' Hd' Hne. change (w_attachments (wire_at Scenario.pulled_high 0%nat))
      with [1%nat] in Hd'. apply list_elem_of_singleton in Hd'. contradiction.
  - exists s'. split; [exact Hr | exact Hsense].
Defined.

(** X22.  An IRQ level through a wire: [qemu_wire_driver_irq_handler]
    drives the driver digitally at [STRENGTH_DEFAULT], 1 for a level other
    than 0; when that changes the driver and the driver is the strongest on
    a wire, [qemu_wire_irq_handler] on that wire sets its IRQ to 1 for a
    level other than 0 and to 0 for level 0.  Without an IRQ behind the
    pointer the handler does nothing, and on a wire that is HI_Z it sets no
    level. *)
Theorem irq_through_wire (E : handlers) (fuel : nat) (d w : nat) (n level : Z)
    (irq : nat) (s : World) :
  quiet E ->
  settled s = true ->
  (length (d_wires (driver_at s d)) < fuel)%nat ->
  w ∈ d_wires (driver_at s d) ->
  d ∈ w_attachments (wire_at s w) ->
  (d_strength (driver_at s d) ≠ STRENGTH_DEFAULT
   ∨ d_value_mode (driver_at s d) ≠ VALUE_MODE_D
   ∨ d_value (driver_at s d) ≠ (if negb (level =? 0) then 1 else 0)) ->
  (forall d', d' ∈ w_attachments (wire_at s w) -> d' ≠ d ->
     0 <= d_strength (driver_at s d') < STRENGTH_DEFAULT) ->
  exists s',
    qemu_wire_driver_irq_handler E fuel (Some d) n level s = Ok s'
    ∧ qemu_wire_irq_handler (Some irq) (Some w) s' = IrqSet irq (negb (level =? 0))
    ∧ qemu_wire_irq_handler None (Some w) s' = IrqIgnored
    ∧ forall w', w_strength (wire_at s' w') = STRENGTH_HI_Z ->
        qemu_wire_irq_handler (Some irq) (Some w') s' = IrqHiZMessage.
Proof.
  intros HE Hs Hf Hw Hatt Hdiff Hweak. unfold qemu_wire_driver_irq_handler.
  unfold qemu_wire_drive.
  set (wd := {| wd_driver := Some d; wd_value := if negb (level =? 0) then 1 else 0;
                wd_strength := bitfield 3 STRENGTH_DEFAULT;
                wd_value_mode := VALUE_MODE_D |}).
  destruct (single_drive_cached E fuel wd d w s HE Hs Hf eq_refl) as (s' & Hr & Hc & Hi);
    try done.
  { unfold drive_differs. simpl. change (bitfield 3 STRENGTH_DEFAULT) with STRENGTH_DEFAULT.
    destruct (Z.eqb_spec (d_strength (driver_at s d)) STRENGTH_DEFAULT); [|done].
    destruct (bool_decide_reflect (d_value_mode (driver_at s d) = VALUE_MODE_D)); [|done].
    destruct (Z.eqb_spec (d_value (driver_at s d)) (if negb (level =? 0) then 1 else 0));
      [|done].
    exfalso. intuition. }
  exists s'. split; [done|].
  unfold cached in Hc. simpl in Hc. injection Hc as Hst Hm Hv Hcf.
  split; [|split; [done|]].
  - unfold qemu_wire_irq_handler. simpl. rewrite Hst, Hm, Hv.
    change (bitfield 3 STRENGTH_DEFAULT =? STRENGTH_HI_Z) with false.
    by destruct (negb (level =? 0)).
  - intros w' Hz. unfold qemu_wire_irq_handler. simpl. by rewrite Hz.
Qed.

Lemma irq_through_wire_witness :
  exists s',
    qemu_wire_driver_irq_handler TestWire.recorders 8 (Some 1%nat) 0 0
      Scenario.pulled_high = Ok s'
    ∧ qemu_wire_irq_handler (Some 9%nat) (Some 0%nat) s' = IrqSet 9 false.
Proof.
  destruct (irq_through_wire TestWire.recorders 8 1 0 0 0 9
              Scenario.pulled_high recorders_quiet) as (s' & Hr & Hirq & _).
  - vm_compute. reflexivity.
  - vm_compute. lia.
  - vm_compute. apply list_elem_of_here.
  - vm_compute. apply list_elem_of_here.
  - right. right. vm_compute. discriminate.
  - intros d' Hd' Hne. change (w_attachments (wire_at Scenario.pulled_high 0%nat))
      with [1%nat] in Hd'. apply list_elem_of_singleton in Hd'. contradiction.
  - exists s'. split; [exact Hr | exact Hirq].
Defined.

(** ** Releasing wires and drivers *)

Lemma without_app (n : nat) (l k : list nat) :
  without n (l ++ k) = without n l ++ without n k.
Proof. unfold without. apply List.filter_app. Qed.

Lemma without_delete_from_end (a : nat) (l : list nat) :
  without a (delete_from_end (fun m => bool_decide (m = a)) l) = without a l.
Proof.
  induction l as [|y l IH] using rev_ind; [done|].
  rewrite delete_from_end_snoc. destruct (bool_decide_reflect (y = a)) as [->|Hy].
  - rewrite without_app. unfold without at 3. simpl.
    rewrite bool_decide_eq_true_2 by done. simpl. by rewrite app_nil_r.
  - by rewrite !without_app, IH.
Qed.

Lemma occurrences_zero_without (a : nat) (l : list nat) :
  occurrences a l = 0%nat -> without a l = l.
Proof.
  unfold occurrences, without. induction l as [|y l IH]; [done|]. simpl.
  destruct (bool_decide (y = a)); simpl; [done|]. intros H. by rewrite IH.
Qed.

Lemma occurrences_without (a b : nat) (l : list nat) :
  occurrences b (without a l)
  = if decide (b = a) then 0%nat else occurrences b l.
Proof.
  unfold occurrences, without. induction l as [|y l IH].
  { by destruct (decide (b = a)). }
  cbn [List.filter].
  destruct (bool_decide_reflect (y = a)) as [->|Hy]; cbn [negb List.filter].
  - rewrite IH. destruct (decide (b = a)) as [->|Hne]; [done|].
    by rewrite bool_decide_eq_false_2 by congruence.
  - destruct (bool_decide_reflect (y = b)) as [->|Hyb]; cbn [length]; rewrite IH.
    + destruct (decide (b = a)); [congruence|done].
    + by destruct (decide (b = a)).
Qed.

Lemma occurrences_zero_not_elem (a : nat) (l : list nat) :
  occurrences a l = 0%nat -> a ∉ l.
Proof.
  unfold occurrences. induction l as [|y l IH]; [intros _; apply not_elem_of_nil|].
  simpl. destruct (bool_decide_reflect (y = a)) as [->|Hy]; simpl; [done|].
  intros H. apply not_elem_of_cons. split; [congruence|by apply IH].
Qed.

(** A vector whose last element is at index [i] is what is before it
    and that element. *)
Lemma list_last_at {A : Type} (l : list A) (i : nat) (x : A) :
  length l = S i -> l !! i = Some x -> l = take i l ++ [x].
Proof.
  intros Hlen Hl. rewrite <- (take_S_r l i x Hl). rewrite take_ge; [done|lia].
Qed.

Section QuietRelease.

Variable E : handlers.
Hypothesis E_quiet : quiet E.

Lemma wiredriver_clear_from_spec (d i : nat) (s : World) :
  length (d_wires (driver_at s d)) = i ->
  exists s',
    wiredriver_clear_from E d i s = Ok s'
    ∧ d_wires (driver_at s' d) = []
    ∧ (forall d', d' ≠ d -> d_wires (driver_at s' d') = d_wires (driver_at s d'))
    ∧ forall w,
        without d (w_attachments (wire_at s' w)) = without d (w_attachments (wire_at s w))
        ∧ occurrences d (w_attachments (wire_at s' w))
          = (occurrences d (w_attachments (wire_at s w))
             - occurrences w (d_wires (driver_at s d)))%nat
        ∧ w_listeners (wire_at s' w) = w_listeners (wire_at s w)
        ∧ w_intrinsic (wire_at s' w) = w_intrinsic (wire_at s w).
Proof.
  revert s. induction i as [|i IH]; intros s Hlen.
  { exists s. apply nil_length_inv in Hlen. split; [done|]. split; [done|].
    split; [done|]. intros w. rewrite Hlen. split; [done|].
    split; [unfold occurrences at 3; simpl; lia|done]. }
  cbn [wiredriver_clear_from].
  destruct (lookup_lt_is_Some_2 (d_wires (driver_at s d)) i) as [w0 Hw0]; [lia|].
  rewrite Hw0.
  pose proof (list_last_at _ i w0 Hlen Hw0) as Hsplit.
  destruct (detach_vectors E E_quiet w0 d s) as (s1 & Hr1 & Hw1 & Hd1). rewrite Hr1.
  assert (Hd1d : d_wires (driver_at s1 d) = take i (d_wires (driver_at s d))).
  { rewrite Hd1, decide_True by done. rewrite Hsplit at 1.
    rewrite delete_from_end_snoc. by rewrite bool_decide_eq_true_2. }
  destruct (IH s1) as (s' & Hr & Hnil & Hoth & Hws).
  { rewrite Hd1d, length_take. lia. }
  exists s'. split; [done|]. split; [done|]. split.
  { intros d' Hne. rewrite Hoth by done. by rewrite Hd1, decide_False. }
  intros w. destruct (Hws w) as (-> & -> & -> & ->).
  destruct (Hw1 w) as (-> & -> & ->). rewrite Hd1d.
  rewrite Hsplit at 2. rewrite occurrences_app, occurrences_singleton.
  destruct (decide (w = w0)) as [->|Hne].
  - rewrite without_delete_from_end, occurrences_delete_from_end.
    rewrite !decide_True by done. split; [done|]. split; [lia|done].
  - rewrite decide_False by congruence. split; [done|]. split; [lia|done].
Qed.

Lemma wire_clear_attachments_spec (fuel w : nat) (s : World) :
  (length (w_attachments (wire_at s w)) < fuel)%nat ->
  exists s',
    wire_clear_attachments E fuel w s = Ok s'
    ∧ w_attachments (wire_at s' w) = []
    ∧ w_listeners (wire_at s' w) = w_listeners (wire_at s w)
    ∧ (forall w', w' ≠ w -> wire_at s' w' = wire_at s w')
    ∧ (forall d,
         without w (d_wires (driver_at s' d)) = without w (d_wires (driver_at s d))
         ∧ occurrences w (d_wires (driver_at s' d))
           = (occurrences w (d_wires (driver_at s d))
              - occurrences d (w_attachments (wire_at s w)))%nat)
    ∧ (w_attachments (wire_at s w) = [] -> s' = s)
    ∧ (w_attachments (wire_at s w) ≠ [] -> cached (wire_at s' w) = spec_resolver_init).
Proof.
  revert s. induction fuel as [|fuel IH]; intros s Hf; [lia|].
  cbn [wire_clear_attachments].
  destruct (last (w_attachments (wire_at s w))) as [d0|] eqn:Hlast.
  2:{ apply last_None in Hlast. exists s. rewrite Hlast.
      split; [done|]. split; [done|]. split; [done|]. split; [done|].
      split; [|done]. intros d. split; [done|]. unfold occurrences at 3. simpl. lia. }
  apply last_Some in Hlast as [l Hl].
  destruct (detach_quiet E E_quiet w d0 s) as (s1 & Hr1 & Hdr1 & Hwire1 & _).
  destruct (detach_vectors E E_quiet w d0 s) as (s1' & Hr1' & Hw1 & Hd1).
  rewrite Hr1 in Hr1'. injection Hr1' as <-. rewrite Hr1.
  assert (Ha1 : w_attachments (wire_at s1 w) = l).
  { destruct (Hw1 w) as (-> & _). rewrite decide_True by done.
    rewrite Hl, delete_from_end_snoc. by rewrite bool_decide_eq_true_2. }
  destruct (IH s1) as (s' & Hr & Hnil & Hlis & Hoth & Hds & Hsame & Hcache).
  { rewrite Ha1. rewrite Hl, length_app in Hf. simpl in Hf. lia. }
  exists s'. split; [done|]. split; [done|]. split.
  { rewrite Hlis. by destruct (Hw1 w) as (_ & -> & _). }
  split.
  { intros w' Hne. rewrite Hoth by done. by rewrite Hwire1, decide_False. }
  split.
  { intros d. destruct (Hds d) as (-> & ->). rewrite Hd1, Ha1, Hl.
    rewrite occurrences_app, occurrences_singleton.
    destruct (decide (d = d0)) as [->|Hne].
    - rewrite without_delete_from_end, occurrences_delete_from_end.
      rewrite !decide_True by done. split; [done|lia].
    - rewrite decide_False by congruence. split; [done|lia]. }
  split.
  { intros Hnil'. rewrite Hl in Hnil'. by destruct l. }
  intros _. destruct l as [|d1 l'].
  - rewrite (Hsame Ha1). rewrite Hwire1, decide_True by done.
    destruct (notified_fields (wire_at (wire_update w (detached w d0 s)) w))
      as (_ & _ & _ & ->).
    rewrite cached_wire_update.
    assert (Hatt : w_attachments (wire_at (detached w d0 s) w) = []).
    { unfold detached. rewrite wire_at_put_wire_eq. simpl.
      rewrite Hl, delete_from_end_snoc. by rewrite bool_decide_eq_true_2. }
    by rewrite Hatt.
  - apply Hcache. by rewrite Ha1.
Qed.

End QuietRelease.

Lemma wire_clear_listeners_spec (fuel w : nat) (s : World) :
  (length (w_listeners (wire_at s w)) < fuel)%nat ->
  exists s',
    wire_clear_listeners fuel w s = Ok s'
    ∧ wire_at s' w = set_w_listeners [] (wire_at s w)
    ∧ (forall w', w' ≠ w -> wire_at s' w' = wire_at s w')
    ∧ drivers s' = drivers s ∧ trace s' = trace s.
Proof.
  revert s. induction fuel as [|fuel IH]; intros s Hf; [lia|].
  cbn [wire_clear_listeners].
  destruct (last (w_listeners (wire_at s w))) as [lis|] eqn:Hlast.
  2:{ apply last_None in Hlast. exists s. split; [done|]. split; [|done].
      rewrite <- Hlast. by destruct (wire_at s w). }
  apply last_Some in Hlast as [l Hl].
  set (s1 := qemu_wire_unlisten (Some w) (lis_handler lis) (lis_opaque lis) s).
  assert (Hw1 : wire_at s1 w = set_w_listeners l (wire_at s w)).
  { unfold s1. rewrite wire_at_unlisten, decide_True by done.
    rewrite Hl, delete_from_end_snoc. by rewrite !bool_decide_eq_true_2. }
  destruct (IH s1) as (s' & Hr & Hw & Hoth & Hd & Ht).
  { rewrite Hw1. simpl. rewrite Hl, length_app in Hf. simpl in Hf. lia. }
  exists s'. split; [done|]. split; [by rewrite Hw, Hw1|]. split; [|done].
  intros w' Hne. rewrite Hoth by done. unfold s1.
  by rewrite wire_at_unlisten, decide_False.
Qed.

(** X23.  [qemu_free_wiredriver] detaches the driver from all its
    wires: it returns with no wire left in the driver and, when the two
    sides of the attachments were in step, with the driver in the
    attachments of no wire; the other attachments keep their order, the
    other drivers their wires, and the two sides are in step again.  A
    [NULL] driver is left alone. *)
Theorem free_wiredriver_detaches_all (E : handlers) (d : nat) (s : World) :
  quiet E ->
  consistent s ->
  qemu_free_wiredriver E None s = Ok s
  ∧ exists s',
      qemu_free_wiredriver E (Some d) s = Ok s'
      ∧ d_wires (driver_at s' d) = []
      ∧ (forall w,
           w_attachments (wire_at s' w) = without d (w_attachments (wire_at s w))
           ∧ w_listeners (wire_at s' w) = w_listeners (wire_at s w))
      ∧ (forall d', d' ≠ d -> d_wires (driver_at s' d') = d_wires (driver_at s d'))
      ∧ consistent s'.
Proof.
  intros HE Hc. split; [done|].
  destruct (wiredriver_clear_from_spec E HE d (length (d_wires (driver_at s d))) s eq_refl)
    as (s' & Hr & Hnil & Hoth & Hws).
  assert (Hatt : forall w,
            w_attachments (wire_at s' w) = without d (w_attachments (wire_at s w))).
  { intros w. destruct (Hws w) as (Hwo & Hocc & _). rewrite <- Hwo.
    symmetry. apply occurrences_zero_without. rewrite Hocc, (Hc w d). lia. }
  exists s'. split; [done|]. split; [done|]. split; [|split; [done|]].
  - intros w. split; [done|]. by destruct (Hws w) as (_ & _ & -> & _).
  - intros w d'. rewrite Hatt, occurrences_without.
    destruct (decide (d' = d)) as [->|Hne].
    + by rewrite Hnil.
    + rewrite Hoth by done. apply Hc.
Qed.

Lemma free_wiredriver_detaches_all_witness :
  exists s1 s',
    qemu_wire_attach (Some 0%nat) (Some 1%nat) empty_world = Ok s1
    ∧ qemu_free_wiredriver TestWire.recorders (Some 1%nat) s1 = Ok s'
    ∧ w_attachments (wire_at s' 0%nat) = [].
Proof.
  destruct (attach_consistent 0 1 empty_world consistent_empty_world) as (s1 & Hr1 & Hc1).
  destruct (free_wiredriver_detaches_all TestWire.recorders 1 s1 recorders_quiet Hc1)
    as (_ & s' & Hr & _ & Hw & _).
  exists s1, s'. split; [exact Hr1|]. split; [exact Hr|].
  destruct (Hw 0%nat) as [-> _].
  assert (Hs1 : Ok s1 = qemu_wire_attach (Some 0%nat) (Some 1%nat) empty_world)
    by (symmetry; exact Hr1).
  vm_compute in Hs1. injection Hs1 as ->. vm_compute. reflexivity.
Defined.

(** X24.  [qemu_free_wire] with enough fuel returns and leaves the wire
    without attachments and without listeners: every attachment is
    detached, last first, with the wire resolved and its listeners told
    of changes on the way, so that a wire that had attachments ends as
    HI_Z, digital 0, without conflict; then the listeners are removed.
    Other wires are untouched; when the two sides of the attachments were
    in step, the wire is in the wires of no driver afterwards and they are
    in step again.  A [NULL] wire is left alone. *)
Theorem free_wire_clears (E : handlers) (fuel w : nat) (s : World) :
  quiet E ->
  consistent s ->
  (length (w_attachments (wire_at s w)) < fuel)%nat ->
  (length (w_listeners (wire_at s w)) < fuel)%nat ->
  qemu_free_wire E fuel None s = Ok s
  ∧ exists s',
      qemu_free_wire E fuel (Some w) s = Ok s'
      ∧ w_attachments (wire_at s' w) = []
      ∧ w_listeners (wire_at s' w) = []
      ∧ (w_attachments (wire_at s w) ≠ [] -> cached (wire_at s' w) = spec_resolver_init)
      ∧ (forall w', w' ≠ w -> wire_at s' w' = wire_at s w')
      ∧ (forall d, d_wires (driver_at s' d) = without w (d_wires (driver_at s d)))
      ∧ consistent s'.
Proof.
  intros HE Hc Hfa Hfl. split; [done|]. unfold qemu_free_wire, wire_clear.
  destruct (wire_clear_attachments_spec E HE fuel w s Hfa)
    as (s1 & Hr1 & Hnil & Hlis & Hoth & Hds & _ & Hcache).
  rewrite Hr1.
  destruct (wire_clear_listeners_spec fuel w s1) as (s' & Hr & Hw & Hoth' & Hd & _).
  { by rewrite Hlis. }
  assert (Hdw : forall d, d_wires (driver_at s' d) = without w (d_wires (driver_at s d))).
  { intros d. rewrite (driver_at_drivers s1 s' d Hd).
    destruct (Hds d) as (Hwo & Hocc). rewrite <- Hwo.
    symmetry. apply occurrences_zero_without. rewrite Hocc, <- (Hc w d). lia. }
  exists s'. split; [done|]. split; [by rewrite Hw|]. split; [by rewrite Hw|].
  split; [intros Hne; rewrite Hw; by apply Hcache|].
  split; [intros w' Hne; rewrite Hoth' by done; by apply Hoth|].
  split; [done|].
  intros w' d. rewrite Hdw, occurrences_without.
  destruct (decide (w' = w)) as [->|Hne].
  - rewrite Hw. cbn [w_attachments set_w_listeners]. by rewrite Hnil.
  - rewrite Hoth', Hoth by done. apply Hc.
Qed.

Lemma free_wire_clears_witness :
  exists s1 s',
    qemu_wire_attach (Some 0%nat) (Some 1%nat) empty_world = Ok s1
    ∧ qemu_free_wire TestWire.recorders 8 (Some 0%nat) s1 = Ok s'
    ∧ d_wires (driver_at s' 1%nat) = [].
Proof.
  destruct (attach_consistent 0 1 empty_world consistent_empty_world) as (s1 & Hr1 & Hc1).
  assert (Hs1 : Ok s1 = qemu_wire_attach (Some 0%nat) (Some 1%nat) empty_world)
    by (symmetry; exact Hr1).
  vm_compute in Hs1. injection Hs1 as Hs1.
  destruct (free_wire_clears TestWire.recorders 8 0 s1 recorders_quiet Hc1)
    as (_ & s' & Hr & _ & _ & _ & _ & Hd & _).
  - rewrite Hs1. vm_compute. lia.
  - rewrite Hs1. vm_compute. lia.
  - exists s1, s'. split; [exact Hr1|]. split; [exact Hr|].
    rewrite Hd, Hs1. vm_compute. reflexivity.
Defined.

(** The resolver reads the drivers that are attached and no other. *)
Lemma wire_resolve_attached (s s' : World) (atts : list nat) :
  (forall d, d ∈ atts -> driver_at s' d = driver_at s d) ->
  wire_resolve s' atts = wire_resolve s atts.
Proof.
  intros H. rewrite !wire_resolve_foldr.
  induction atts as [|d atts IH]; [done|]. simpl.
  rewrite H by apply list_elem_of_here. rewrite IH; [done|].
  intros d' Hd'. apply H. by apply list_elem_of_further.
Qed.

(** X25.  [qemu_allocate_wiredriver] gives a driver that is HI_Z and
    attached to the wire given, last in its attachments; the wire is not
    resolved, and resolving it finds what it found without the new driver.
    Without a wire the driver is attached to nothing. *)
Theorem allocate_wiredriver_is_hi_z (w d : nat) (s : World) :
  d ∉ w_attachments (wire_at s w) ->
  qemu_allocate_wiredriver None d s = Ok (put_driver d new_wiredriver s)
  ∧ exists s',
      qemu_allocate_wiredriver (Some w) d s = Ok s'
      ∧ driver_at s' d = set_d_wires [w] new_wiredriver
      ∧ wire_at s' w
        = set_w_attachments (w_attachments (wire_at s w) ++ [d]) (wire_at s w)
      ∧ wire_resolve s' (w_attachments (wire_at s' w))
        = wire_resolve s (w_attachments (wire_at s w)).
Proof.
  intros Hfresh. split; [done|]. unfold qemu_allocate_wiredriver.
  set (s0 := put_driver d new_wiredriver s).
  destruct (attach_vectors w d s0) as (s' & Hr & Hw & Hd & _).
  exists s'. split; [done|].
  assert (Hd0 : driver_at s0 d = new_wiredriver).
  { unfold s0. rewrite driver_at_put_driver. by rewrite decide_True. }
  split; [|split].
  - rewrite Hd, decide_True by done. by rewrite Hd0.
  - rewrite Hw, decide_True by done. done.
  - rewrite Hw, decide_True by done. change (wire_at s0 w) with (wire_at s w).
    cbn [w_attachments set_w_attachments].
    rewrite wire_resolve_foldr, foldr_app. cbn [foldr].
    assert (Hskip : wire_update_body (driver_at s' d) (best_init, false)
                    = (best_init, false)).
    { rewrite Hd, decide_True by done. by rewrite Hd0. }
    rewrite Hskip, <- wire_resolve_foldr.
    apply wire_resolve_attached. intros d' Hd'.
    rewrite Hd. destruct (decide (d' = d)) as [->|Hne]; [done|].
    unfold s0. rewrite driver_at_put_driver. by rewrite decide_False.
Qed.

Lemma allocate_wiredriver_is_hi_z_witness :
  exists s',
    qemu_allocate_wiredriver (Some 0%nat) 2 Scenario.pulled_high = Ok s'
    ∧ wire_resolve s' (w_attachments (wire_at s' 0%nat))
      = wire_resolve Scenario.pulled_high
          (w_attachments (wire_at Scenario.pulled_high 0%nat)).
Proof.
  destruct (allocate_wiredriver_is_hi_z 0 2 Scenario.pulled_high)
    as (_ & s' & Hr & _ & _ & Hres).
  - change (w_attachments (wire_at Scenario.pulled_high 0%nat)) with [1%nat].
    intros Hin. apply list_elem_of_singleton in Hin. discriminate Hin.
  - exists s'. split; [exact Hr | exact Hres].
Defined.

(** ** The order of the callbacks *)

Section QuietOrder.

Variable E : handlers.
Hypothesis E_quiet : quiet E.

Lemma multi_handler_callbacks (opaque wire : nat) (s : World) :
  callbacks (multi_handler E opaque wire s) = callbacks s.
Proof.
  destruct E_quiet as [_ Hm]. unfold multi_handler.
  destruct (multi_in_conflict s _ _ && _); [done|].
  destruct (qemu_wire_multi_sense _ s) as [value weakest].
  destruct (multi_differs _ _ _ _); [|done].
  unfold callbacks. by rewrite frames_trace by apply Hm.
Qed.

Lemma call_listener_callbacks (lis : wire_listener) (w : nat) (s : World) :
  callbacks (call_listener E lis w s) = EvCall lis w :: callbacks s.
Proof.
  unfold call_listener. destruct (lis_handler lis) as [|f].
  - by rewrite multi_handler_callbacks.
  - destruct E_quiet as [Hu _]. unfold callbacks.
    by rewrite frames_trace by apply Hu.
Qed.

Lemma call_listeners_from_callbacks (w i : nat) (s : World) :
  (i <= length (w_listeners (wire_at s w)))%nat ->
  callbacks (call_listeners_from E w i s)
  = map (fun lis => EvCall lis w) (take i (w_listeners (wire_at s w))) ++ callbacks s.
Proof.
  revert s. induction i as [|i IH]; intros s Hi; simpl; [done|].
  destruct (lookup_lt_is_Some_2 (w_listeners (wire_at s w)) i) as [lis Hl]; [lia|].
  rewrite Hl.
  destruct (call_listener_quiet E E_quiet lis w s) as (Hw & _).
  assert (Hx : wire_at (call_listener E lis w s) w = wire_at s w)
    by by apply wire_at_wires.
  rewrite IH by (rewrite Hx; lia).
  rewrite Hx, call_listener_callbacks, (take_S_r _ _ _ Hl), map_app, <- app_assoc.
  done.
Qed.

Lemma wire_notify_if_changed_callbacks (w : nat) (s : World) :
  callbacks (wire_notify_if_changed E w s)
  = (if w_changed (wire_at s w)
     then map (fun lis => EvCall lis w) (w_listeners (wire_at s w))
     else [])
    ++ callbacks s.
Proof.
  unfold wire_notify_if_changed. destruct (w_changed (wire_at s w)) eqn:Hc; [|done].
  unfold wire_call_listeners.
  set (s1 := log (EvNotify w) (put_wire w (set_w_changed false (wire_at s w)) s)).
  set (s2 := if w_in_callback (wire_at s1 w) then log (EvReentry w) s1 else s1).
  set (s3 := put_wire w (set_w_in_callback true (wire_at s2 w)) s2).
  assert (H2 : wires s2 = wires s1 ∧ callbacks s2 = callbacks s1).
  { unfold s2. by destruct (w_in_callback (wire_at s1 w)). }
  destruct H2 as (Hw2 & Hc2).
  assert (Hx1 : wire_at s1 w = set_w_changed false (wire_at s w)).
  { unfold s1, log, wire_at at 1; simpl. by rewrite lookup_insert_eq. }
  assert (Hx3 : w_listeners (wire_at s3 w) = w_listeners (wire_at s w)).
  { unfold s3. rewrite wire_at_put_wire_eq, (wire_at_wires s1 s2) by done.
    by rewrite Hx1. }
  change (callbacks (put_wire w ?x ?s0)) with (callbacks s0).
  rewrite call_listeners_from_callbacks by lia.
  rewrite firstn_all, Hx3.
  change (callbacks s3) with (callbacks s2). by rewrite Hc2.
Qed.

End QuietOrder.

(** X26.  The listeners of a wire are called in the order opposite to
    their registration, the one registered last first, each with the wire
    as argument; with the flag [changed] clear nothing is called and
    nothing is written. *)
Theorem listeners_called_last_registered_first (E : handlers) (w : nat) (s : World) :
  quiet E ->
  (w_changed (wire_at s w) = true ->
   callbacks (wire_notify_if_changed E w s)
   = map (fun lis => EvCall lis w) (w_listeners (wire_at s w)) ++ callbacks s)
  ∧ (w_changed (wire_at s w) = false -> wire_notify_if_changed E w s = s).
Proof.
  intros HE. split.
  - intros Hc. by rewrite (wire_notify_if_changed_callbacks E HE), Hc.
  - intros Hc. unfold wire_notify_if_changed. by rewrite Hc.
Qed.

Lemma listeners_called_last_registered_first_witness :
  callbacks
    (wire_notify_if_changed TestWire.recorders 1
       (put_wire 1 (set_w_changed true (wire_at Scenario.two_feeders 1))
          Scenario.two_feeders))
  = [EvCall {| lis_handler := fn_user 0; lis_opaque := 101%nat |} 1;
     EvCall {| lis_handler := fn_multi_handler; lis_opaque := 50%nat |} 1].
Proof.
  destruct (listeners_called_last_registered_first TestWire.recorders 1
              (put_wire 1 (set_w_changed true (wire_at Scenario.two_feeders 1))
                 Scenario.two_feeders) recorders_quiet) as [H _].
  rewrite H by (vm_compute; reflexivity). vm_compute. reflexivity.
Defined.

(** ** The drivers after a batch *)

Lemma drive_apply_driver (s : World) (wd : struct_qemu_wire_drive) (d : nat) :
  wd_driver wd = Some d ->
  d_strength (driver_at (drive_apply s wd) d) = wd_strength wd
  ∧ d_value_mode (driver_at (drive_apply s wd) d) = wd_value_mode wd
  ∧ d_value (driver_at (drive_apply s wd) d) = wd_value wd.
Proof.
  intros Hd. unfold drive_apply. rewrite Hd.
  destruct (drive_differs (driver_at s d) wd) eqn:Hdiff.
  - destruct (mark_wires_spec (d_wires (driver_at s d))
                (put_driver d (set_d_drive wd (driver_at s d)) s)) as (Hdr & _).
    rewrite (driver_at_drivers _ _ d Hdr), driver_at_put_driver.
    by rewrite decide_True.
  - unfold drive_differs in Hdiff. apply negb_false_iff in Hdiff.
    apply andb_true_iff in Hdiff as [Hdiff Hv].
    apply andb_true_iff in Hdiff as [Hs Hm].
    apply Z.eqb_eq in Hs, Hv. apply bool_decide_eq_true in Hm. done.
Qed.

Lemma drive_apply_other (s : World) (wd : struct_qemu_wire_drive) (d : nat) :
  wd_driver wd ≠ Some d -> driver_at (drive_apply s wd) d = driver_at s d.
Proof.
  intros Hd. unfold drive_apply. destruct (wd_driver wd) as [d'|]; [|done].
  destruct (drive_differs (driver_at s d') wd); [|done].
  destruct (mark_wires_spec (d_wires (driver_at s d'))
              (put_driver d' (set_d_drive wd (driver_at s d')) s)) as (Hdr & _).
  rewrite (driver_at_drivers _ _ d Hdr), driver_at_put_driver.
  rewrite decide_False; [done|congruence].
Qed.

Lemma multi_drive_apply_other (drives : list struct_qemu_wire_drive) (s : World)
    (d : nat) :
  Some d ∉ map wd_driver drives ->
  driver_at (multi_drive_apply drives s) d = driver_at s d.
Proof.
  unfold multi_drive_apply. revert s.
  induction drives as [|wd rest IH]; intros s Hn; [done|]. simpl in *.
  apply not_elem_of_cons in Hn as [Hne Hn].
  rewrite IH by done. apply drive_apply_other. congruence.
Qed.

(** X27.  After a batch every driver named in it holds the strength, the
    mode and the value of the last descriptor that names it, with
    [changed] clear, and the drivers the batch does not name are as they
    were. *)
Theorem batch_sets_drivers (E : handlers) (fuel : nat)
    (drives : list struct_qemu_wire_drive) (s : World) :
  quiet E ->
  enough_fuel fuel drives s = true ->
  exists s',
    qemu_wire_multi_drive E fuel drives s = Ok s'
    ∧ (forall l1 wd l2 d,
         drives = l1 ++ wd :: l2 -> wd_driver wd = Some d ->
         Some d ∉ map wd_driver l2 ->
         d_strength (driver_at s' d) = wd_strength wd
         ∧ d_value_mode (driver_at s' d) = wd_value_mode wd
         ∧ d_value (driver_at s' d) = wd_value wd
         ∧ d_changed (driver_at s' d) = false
         ∧ d_wires (driver_at s' d) = d_wires (driver_at s d))
    ∧ (forall d, Some d ∉ map wd_driver drives -> driver_at s' d = driver_at s d).
Proof.
  intros HE Hf.
  destruct (qemu_wire_multi_drive_drivers E HE fuel drives s Hf) as (s' & Hr & Hd).
  exists s'. split; [done|]. split.
  - intros l1 wd l2 d Hsplit Hwd Hn. rewrite Hd.
    rewrite bool_decide_eq_true_2.
    2:{ rewrite Hsplit, map_app. apply elem_of_app. right. simpl. rewrite Hwd.
        apply list_elem_of_here. }
    cbn [d_strength d_value_mode d_value d_changed d_wires set_d_changed].
    rewrite multi_drive_apply_wires.
    rewrite Hsplit. unfold multi_drive_apply. rewrite fold_left_app. cbn [fold_left].
    fold (multi_drive_apply l1 s).
    fold (multi_drive_apply l2 (drive_apply (multi_drive_apply l1 s) wd)).
    rewrite multi_drive_apply_other by done.
    destruct (drive_apply_driver (multi_drive_apply l1 s) wd d Hwd) as (-> & -> & ->).
    done.
  - intros d Hn. rewrite Hd, bool_decide_eq_false_2 by done.
    by apply multi_drive_apply_other.
Qed.

Lemma batch_sets_drivers_witness :
  exists s',
    qemu_wire_multi_drive TestWire.recorders 8 Scenario.both_change Scenario.two_feeders
    = Ok s'
    ∧ d_strength (driver_at s' 2) = STRENGTH_STRONG.
Proof.
  destruct (batch_sets_drivers TestWire.recorders 8 Scenario.both_change
              Scenario.two_feeders recorders_quiet) as (s' & Hr & H & _).
  - vm_compute. reflexivity.
  - exists s'. split; [exact Hr|].
    destruct (H [TestWire.drive_of 1 1 STRENGTH_WEAK VALUE_MODE_D]
                (TestWire.drive_of 2 0 STRENGTH_STRONG VALUE_MODE_D) [] 2%nat)
      as (Hs & _).
    + reflexivity.
    + reflexivity.
    + apply not_elem_of_nil.
    + exact Hs.
Defined.

(** ** NULL wires and NULL drivers in every operation *)

Lemma fold_left_skip_none {S : Type} (f : option nat -> S -> S) (ws : list (option nat))
    (s : S) :
  (forall s0, f None s0 = s0) ->
  fold_left (fun s0 wire => f wire s0) ws s
  = fold_left (fun s0 w => f (Some w) s0) (omap id ws) s.
Proof.
  intros Hf. revert s. induction ws as [|wire ws IH]; intros s; [done|].
  destruct wire as [w|]; cbn [fold_left]; csimpl.
  - apply IH.
  - rewrite Hf. apply IH.
Qed.

Lemma multi_drive_apply_skip_null (drives : list struct_qemu_wire_drive) (s : World) :
  multi_drive_apply drives s = multi_drive_apply (List.filter has_driver drives) s.
Proof.
  unfold multi_drive_apply. revert s.
  induction drives as [|wd rest IH]; intros s; [done|]. cbn [fold_left List.filter].
  unfold has_driver at 1.
  destruct (wd_driver wd) as [d|] eqn:Hd.
  - cbn [fold_left]. apply IH.
  - assert (Hskip : drive_apply s wd = s) by (unfold drive_apply; by rewrite Hd).
    rewrite Hskip. apply IH.
Qed.

Lemma multi_drive_update_skip_null (drives : list struct_qemu_wire_drive) (s : World) :
  multi_drive_update drives s = multi_drive_update (List.filter has_driver drives) s.
Proof.
  unfold multi_drive_update. revert s.
  induction drives as [|wd rest IH]; intros s; [done|]. cbn [fold_left List.filter].
  unfold has_driver at 1.
  destruct (wd_driver wd) as [d|] eqn:Hd.
  - cbn [fold_left]. apply IH.
  - assert (Hskip : drive_update s wd = s) by (unfold drive_update; by rewrite Hd).
    rewrite Hskip. apply IH.
Qed.

Lemma multi_drive_notify_skip_null (E : handlers) (fuel : nat)
    (drives : list struct_qemu_wire_drive) (s : World) :
  multi_drive_notify E fuel drives s
  = multi_drive_notify E fuel (List.filter has_driver drives) s.
Proof.
  revert s. induction drives as [|wd rest IH]; intros s; [done|].
  cbn [List.filter]. unfold has_driver at 1.
  destruct (wd_driver wd) as [d|] eqn:Hd.
  - cbn [multi_drive_notify]. rewrite Hd.
    destruct (d_changed (driver_at s d)); [|apply IH].
    destruct (notify_wires E fuel d 0 _); [apply IH|done|done].
  - cbn [multi_drive_notify]. rewrite Hd. apply IH.
Qed.

Lemma multi_drive_skip_null (E : handlers) (fuel : nat)
    (drives : list struct_qemu_wire_drive) (s : World) :
  qemu_wire_multi_drive E fuel drives s
  = qemu_wire_multi_drive E fuel (List.filter has_driver drives) s.
Proof.
  unfold qemu_wire_multi_drive.
  rewrite multi_drive_notify_skip_null, multi_drive_update_skip_null,
    multi_drive_apply_skip_null.
  reflexivity.
Qed.

Lemma filter_has_driver_null (drives : list struct_qemu_wire_drive) :
  (forall wd, wd ∈ drives -> wd_driver wd = None) -> List.filter has_driver drives = [].
Proof.
  induction drives as [|wd rest IH]; intros H; [done|]. cbn [List.filter].
  unfold has_driver at 1. rewrite (H wd) by apply list_elem_of_here.
  apply IH. intros wd' Hin. apply H. by apply list_elem_of_further.
Qed.

Lemma omap_id_null (ws : list (option nat)) :
  (forall wire, wire ∈ ws -> wire = None) -> omap id ws = [].
Proof.
  induction ws as [|wire ws IH]; intros H; [done|].
  rewrite (H wire) by apply list_elem_of_here. csimpl.
  apply IH. intros wire' Hin. apply H. by apply list_elem_of_further.
Qed.

Lemma multi_sense_loop_null (s : World) (n : nat) (first : bool) (bit result : Z) :
  multi_sense_loop s (replicate n None) first bit result STRENGTH_HI_Z
  = (result, STRENGTH_HI_Z).
Proof.
  revert first bit result. induction n as [|n IH]; intros first bit result; [done|].
  cbn [replicate multi_sense_loop qemu_wire_sense].
  replace (if first || (STRENGTH_HI_Z <? STRENGTH_HI_Z) then STRENGTH_HI_Z
           else STRENGTH_HI_Z) with STRENGTH_HI_Z by (by destruct first).
  apply IH.
Qed.

Lemma multi_sense_null_bit (s : World) (ws : list (option nat)) (i : nat) :
  ws !! i = Some None ->
  Z.testbit (fst (qemu_wire_multi_sense ws s)) (Z.of_nat i) = false.
Proof.
  intros Hl. unfold qemu_wire_multi_sense.
  destruct (multi_sense_loop_bits s (take 32 ws) 0 true 0 STRENGTH_HI_Z) as [_ Hb].
  { rewrite length_take. lia. }
  { done. }
  { intros j _. apply Z.testbit_0_l. }
  change (2 ^ Z.of_nat 0 mod 2 ^ 32) with 1 in Hb.
  rewrite Hb. simpl. rewrite Nat.sub_0_r, lookup_take.
  destruct (decide (i < 32)%nat); [by rewrite Hl|done].
Qed.

Lemma multi_sense_weakest_bound (s : World) (ws : list (option nat)) (i : nat)
    (wire : option nat) :
  (i < 32)%nat -> ws !! i = Some wire ->
  snd (qemu_wire_multi_sense ws s) <= snd (qemu_wire_sense wire s).
Proof.
  intros Hi Hl. unfold qemu_wire_multi_sense.
  destruct ws as [|wire0 rest]; [done|].
  change (take 32 (wire0 :: rest)) with (wire0 :: take 31 rest).
  cbn [multi_sense_loop].
  destruct (qemu_wire_sense wire0 s) as [v strength] eqn:Hv. cbn [orb].
  destruct (multi_sense_loop_weakest s (take 31 rest) (Z.shiftl 1 1 mod 2 ^ 32)
              (if v then Z.lor 0 1 else 0) strength) as (Hle & Hall & _).
  destruct i as [|i].
  - injection Hl as <-. by rewrite Hv.
  - simpl in Hl. apply Hall. apply list_elem_of_lookup. exists i.
    rewrite lookup_take_lt by lia. done.
Qed.

(** C5, as the code has it.  Every operation that takes a wire accepts
    [NULL] for it and then does nothing or returns HI_Z, false or 0,
    whatever the driver; in an array of wires a [NULL] entry is passed over:
    it senses as 0 and HI_Z, gets no listener and loses none.  The driving
    operations accept a [NULL] driver and do nothing, and a batch passes
    over the descriptors with a [NULL] driver.  [qemu_free_wire],
    [qemu_free_wiredriver] and [qemu_wire_multi_unlisten] of [NULL] do
    nothing, [qemu_allocate_wiredriver] of [NULL] attaches the new driver
    to nothing, and the IRQ handlers ignore a [NULL] IRQ and a [NULL]
    driver.  With a wire, attach and detach do not accept a [NULL]
    driver. *)
Theorem null_wire_and_null_driver (E : handlers) (fuel : nat) (s : World) :
  (forall driver, qemu_wire_attach None driver s = Ok s)
  ∧ (forall driver, qemu_wire_detach E None driver s = Ok s)
  ∧ (forall v, qemu_set_wire_intrinsic None v s = s)
  ∧ (forall h opaque, qemu_wire_listen None h opaque s = s)
  ∧ (forall h opaque, qemu_wire_unlisten None h opaque s = s)
  ∧ qemu_wire_sense None s = (false, STRENGTH_HI_Z)
  ∧ qemu_wire_sense_a None s = (0, STRENGTH_HI_Z)
  ∧ qemu_wire_sense_strength None s = STRENGTH_HI_Z
  ∧ qemu_wire_sense_conflicted None s = false
  ∧ (forall n, qemu_wire_multi_sense (replicate n None) s = (0, STRENGTH_HI_Z))
  ∧ (forall ws i, ws !! i = Some None ->
       Z.testbit (fst (qemu_wire_multi_sense ws s)) (Z.of_nat i) = false)
  ∧ (forall ws i, (i < 32)%nat -> ws !! i = Some None ->
       snd (qemu_wire_multi_sense ws s) <= STRENGTH_HI_Z)
  ∧ (forall ws h opaque ml,
       fst (qemu_wire_multi_listen ws h opaque ml s)
       = match ws with
         | [] => s
         | _ =>
             fold_left (fun s0 w => qemu_wire_listen (Some w) fn_multi_handler ml s0)
               (omap id ws)
               (put_multi ml
                  {| ml_handler := h; ml_opaque := opaque;
                     ml_value := ml_value (multi_at s ml);
                     ml_weakest_strength := STRENGTH_HI_Z; ml_in_conflict := false;
                     ml_wires := ws |} s)
         end)
  ∧ (forall ws h opaque ml,
       (forall wire, wire ∈ ws -> wire = None) ->
       wires (fst (qemu_wire_multi_listen ws h opaque ml s)) = wires s
       ∧ drivers (fst (qemu_wire_multi_listen ws h opaque ml s)) = drivers s
       ∧ trace (fst (qemu_wire_multi_listen ws h opaque ml s)) = trace s)
  ∧ qemu_wire_multi_unlisten None s = s
  ∧ (forall ml,
       qemu_wire_multi_unlisten (Some ml) s
       = fold_left (fun s0 w => qemu_wire_unlisten (Some w) fn_multi_handler ml s0)
           (omap id (ml_wires (multi_at s ml))) s)
  ∧ (forall strength dval, qemu_wire_drive E fuel None strength dval s = Ok s)
  ∧ (forall strength aval, qemu_wire_drive_a E fuel None strength aval s = Ok s)
  ∧ qemu_wire_drive_z E fuel None s = Ok s
  ∧ (forall drives,
       qemu_wire_multi_drive E fuel drives s
       = qemu_wire_multi_drive E fuel (List.filter has_driver drives) s)
  ∧ (forall drives,
       (forall wd, wd ∈ drives -> wd_driver wd = None) ->
       qemu_wire_multi_drive E fuel drives s = Ok s)
  ∧ qemu_free_wire E fuel None s = Ok s
  ∧ qemu_free_wiredriver E None s = Ok s
  ∧ (forall d, qemu_allocate_wiredriver None d s = Ok (put_driver d new_wiredriver s))
  ∧ (forall n level, qemu_wire_driver_irq_handler E fuel None n level s = Ok s)
  ∧ (forall wire, qemu_wire_irq_handler None wire s = IrqIgnored)
  ∧ (forall irq, qemu_wire_irq_handler (Some irq) None s = IrqHiZMessage)
  ∧ (forall w, qemu_wire_attach (Some w) None s = Fault)
  ∧ (forall w, qemu_wire_detach E (Some w) None s = Fault).
Proof.
  repeat match goal with |- _ ∧ _ => split end; try done.
  - intros n. unfold qemu_wire_multi_sense. rewrite take_replicate.
    apply multi_sense_loop_null.
  - intros ws i. apply multi_sense_null_bit.
  - intros ws i Hi Hl. apply (multi_sense_weakest_bound s ws i None Hi Hl).
  - intros ws h opaque ml. destruct ws as [|wire ws]; [done|].
    unfold qemu_wire_multi_listen. cbn [fst].
    apply (fold_left_skip_none (fun wire0 s0 => qemu_wire_listen wire0 fn_multi_handler ml s0)).
    done.
  - intros ws h opaque ml Hnull. destruct ws as [|wire ws]; [done|].
    unfold qemu_wire_multi_listen. cbn [fst].
    rewrite (fold_left_skip_none
               (fun wire0 s0 => qemu_wire_listen wire0 fn_multi_handler ml s0)) by done.
    by rewrite (omap_id_null _ Hnull).
  - intros ml. unfold qemu_wire_multi_unlisten.
    apply (fold_left_skip_none
             (fun wire0 s0 => qemu_wire_unlisten wire0 fn_multi_handler ml s0)).
    done.
  - intros drives. apply multi_drive_skip_null.
  - intros drives Hnull.
    by rewrite multi_drive_skip_null, (filter_has_driver_null _ Hnull).
Qed.

(** ** The strength a drive stores, and the resolver *)

(** The resolver reads the strength, the mode and the value of the
    attached drivers and nothing else. *)
Lemma wire_resolve_fields (s s' : World) (atts : list nat) :
  (forall d, d ∈ atts ->
     d_strength (driver_at s' d) = d_strength (driver_at s d)
     ∧ d_value_mode (driver_at s' d) = d_value_mode (driver_at s d)
     ∧ d_value (driver_at s' d) = d_value (driver_at s d)) ->
  wire_resolve s' atts = wire_resolve s atts.
Proof.
  intros H. rewrite !wire_resolve_foldr.
  induction atts as [|d atts IH]; [done|]. cbn [foldr].
  rewrite IH by (intros d' Hd'; apply H; by apply list_elem_of_further).
  destruct (H d (list_elem_of_here _ _)) as (Hs & Hm & Hv).
  unfold wire_update_body. by rewrite Hs, Hm, Hv.
Qed.

(** One descriptor that changes its driver touches every wire of the
    driver. *)
Lemma single_drive_affected (wd : struct_qemu_wire_drive) (d w : nat) (s : World) :
  wd_driver wd = Some d ->
  drive_differs (driver_at s d) wd = true ->
  w ∈ d_wires (driver_at s d) ->
  affected [wd] s w = true.
Proof.
  intros Hd Hdiff Hw.
  assert (Hs1 : multi_drive_apply [wd] s
                = mark_wires (d_wires (driver_at s d))
                    (put_driver d (set_d_drive wd (driver_at s d)) s)).
  { unfold multi_drive_apply. simpl. unfold drive_apply. by rewrite Hd, Hdiff. }
  destruct (mark_wires_spec (d_wires (driver_at s d))
              (put_driver d (set_d_drive wd (driver_at s d)) s)) as (Hdr & _ & _).
  rewrite <- Hs1 in Hdr.
  assert (Hdrv : driver_at (multi_drive_apply [wd] s) d = set_d_drive wd (driver_at s d)).
  { rewrite (driver_at_drivers _ _ d Hdr), driver_at_put_driver. by rewrite decide_True. }
  unfold affected. apply bool_decide_eq_true_2.
  apply elem_of_batch_wires. exists d. split; [|split].
  - simpl. rewrite Hd. apply list_elem_of_here.
  - by rewrite Hdrv.
  - by rewrite Hdrv.
Qed.

(** A single descriptor, from a settled world and with callbacks that do
    not re-enter: a wire of the driver that cached the resolution of its
    attachments before caches it afterwards, over the drivers as the batch
    leaves them. *)
Lemma single_drive_resolved (E : handlers) (fuel : nat) (wd : struct_qemu_wire_drive)
    (d w : nat) (s s' : World) :
  quiet E ->
  settled s = true ->
  (length (d_wires (driver_at s d)) < fuel)%nat ->
  wd_driver wd = Some d ->
  qemu_wire_multi_drive E fuel [wd] s = Ok s' ->
  w ∈ d_wires (driver_at s d) ->
  cached (wire_at s w)
  = spec_resolver (rev (map (driver_at s) (w_attachments (wire_at s w)))) ->
  w_attachments (wire_at s' w) = w_attachments (wire_at s w)
  ∧ cached (wire_at s' w)
    = spec_resolver (rev (map (driver_at s') (w_attachments (wire_at s' w)))).
Proof.
  intros HE Hs Hf Hd Hr Hw Hcoh.
  destruct (drive_differs (driver_at s d) wd) eqn:Hdiff.
  - destruct (qemu_wire_multi_drive_spec E HE fuel [wd] s Hs)
      as (s3 & Hr3 & Hdrv & Hwire & _).
    { unfold enough_fuel. simpl. rewrite Hd, andb_true_r. by apply Nat.ltb_lt. }
    rewrite Hr in Hr3. injection Hr3 as <-.
    rewrite Hwire, (single_drive_affected wd d w s Hd Hdiff Hw).
    unfold driven. cbn [w_attachments set_w_resolved]. split; [done|].
    rewrite <- wire_resolve_spec.
    change (cached (set_w_resolved ?b ?c false ?x)) with (resolved_of (b, c)).
    rewrite <- surjective_pairing. f_equal. symmetry.
    apply wire_resolve_fields. intros d' _. by rewrite Hdrv.
  - rewrite multi_drive_noop in Hr.
    + injection Hr as <-. done.
    + intros wd' d' Hin Hd'. apply list_elem_of_singleton in Hin. subst wd'.
      rewrite Hd in Hd'. injection Hd' as <-. split; [done|].
      by apply settled_driver.
Qed.

Lemma spec_resolver_single (A : WireDriverState) :
  0 <= d_strength A -> r_strength (spec_resolver [A]) = d_strength A.
Proof.
  intros HA. unfold spec_resolver, spec_resolver_step, STRENGTH_HI_Z. simpl.
  destruct (bool_decide_reflect (d_strength A = 0)) as [H0|H0]; [by rewrite H0|].
  change STRENGTH_HI_Z with 0.
  destruct (bool_decide_reflect (d_strength A < 0)) as [H1|H1]; [lia|].
  destruct (bool_decide_reflect (d_strength A = 0)) as [H2|H2]; [lia|].
  done.
Qed.

(** C10.  The strength a drive operation stores in the driver is the
    requested strength modulo 8, for [qemu_wire_drive] and for
    [qemu_wire_drive_a]: the descriptor holds it in a 3-bit field.  It is
    that strength the resolver works with: from a settled world, a wire
    of the driver that cached the resolution of its attachments caches,
    after the call, the resolution over the drivers with the driver at the
    strength modulo 8, and when the driver is its only attachment the
    strength of the wire is the strength modulo 8. *)
Theorem drive_stores_strength_mod_8 (E : handlers) (fuel : nat) (d : nat)
    (strength : Z) (s : World) :
  quiet E ->
  (length (d_wires (driver_at s d)) < fuel)%nat ->
  let used (s' : World) : Prop :=
    d_strength (driver_at s' d) = strength mod 8
    ∧ (settled s = true ->
       forall w, w ∈ d_wires (driver_at s d) ->
         cached (wire_at s w)
         = spec_resolver (rev (map (driver_at s) (w_attachments (wire_at s w)))) ->
         cached (wire_at s' w)
         = spec_resolver (rev (map (driver_at s') (w_attachments (wire_at s' w))))
         ∧ (w_attachments (wire_at s w) = [d] ->
            w_strength (wire_at s' w) = strength mod 8)) in
  (forall dval, exists s',
     qemu_wire_drive E fuel (Some d) strength dval s = Ok s' ∧ used s')
  ∧ (forall aval, exists s',
       qemu_wire_drive_a E fuel (Some d) strength aval s = Ok s' ∧ used s').
Proof.
  intros HE Hf used.
  assert (Hgen : forall wd, wd_driver wd = Some d -> wd_strength wd = strength mod 8 ->
            exists s', qemu_wire_multi_drive E fuel [wd] s = Ok s' ∧ used s').
  { intros wd Hd Hst.
    destruct (qemu_wire_multi_drive_drivers E HE fuel [wd] s) as (s' & Hr & Hdr).
    { unfold enough_fuel. simpl. rewrite Hd, andb_true_r. by apply Nat.ltb_lt. }
    exists s'. split; [done|].
    assert (Hstored : d_strength (driver_at s' d) = strength mod 8).
    { rewrite Hdr. cbn [map]. rewrite Hd.
      rewrite bool_decide_eq_true_2 by apply list_elem_of_here.
      simpl. rewrite <- Hst. by apply drive_apply_strength. }
    split; [done|]. intros Hs w Hw Hcoh.
    destruct (single_drive_resolved E fuel wd d w s s' HE Hs Hf Hd Hr Hw Hcoh)
      as [Hatt Hc].
    split; [done|]. intros Hsole.
    change (w_strength (wire_at s' w)) with (r_strength (cached (wire_at s' w))).
    rewrite Hc, Hatt, Hsole. cbn [map rev app].
    rewrite spec_resolver_single; [done|].
    rewrite Hstored. pose proof (Z.mod_pos_bound strength 8). lia. }
  split.
  - intros dval. unfold qemu_wire_drive. by apply Hgen.
  - intros aval. unfold qemu_wire_drive_a. by apply Hgen.
Qed.

Lemma drive_stores_strength_mod_8_witness :
  exists s',
    qemu_wire_drive TestWire.recorders 8 (Some 1%nat) 8 true Scenario.pulled_high = Ok s'
    ∧ d_strength (driver_at s' 1) = STRENGTH_HI_Z
    ∧ w_strength (wire_at s' 0) = STRENGTH_HI_Z.
Proof.
  destruct (drive_stores_strength_mod_8 TestWire.recorders 8 1 8 Scenario.pulled_high
              recorders_quiet) as [Hd _]; [vm_compute; lia|].
  destruct (Hd true) as (s' & Hr & Hs & Hused). exists s'.
  split; [exact Hr|]. split; [exact Hs|].
  assert (H1 : settled Scenario.pulled_high = true) by (vm_compute; reflexivity).
  assert (H2 : (0%nat : nat) ∈ d_wires (driver_at Scenario.pulled_high 1))
    by (vm_compute; apply list_elem_of_here).
  assert (H3 : cached (wire_at Scenario.pulled_high 0)
               = spec_resolver
                   (rev (map (driver_at Scenario.pulled_high)
                           (w_attachments (wire_at Scenario.pulled_high 0)))))
    by (vm_compute; reflexivity).
  destruct (Hused H1 0%nat H2 H3) as [_ Hsole].
  apply Hsole. vm_compute. reflexivity.
Defined.
